(** * picoCTF-web, api/problem.py: unlocking, instance assignment, grading

    A shallow embedding of the problem module of the picoCTF web API and the
    properties of its unlock resolver, instance allocator, submission ledger
    and reevaluation engine.

    Documents of the Mongo collections are records, collections are lists in
    storage order (find_one returns the first match, a single update
    rewrites the first match), Python dicts keyed by identifiers are finite
    maps.  Functions that write to the database or draw random numbers are
    computations over an explicit [World]; an exception leaves the writes
    made before it in place, as the driver does. *)

From stdpp Require Import gmap strings list fin_maps.

Open Scope string_scope.
Open Scope list_scope.
Open Scope Z_scope.

(** ** Documents *)

(** One deployed copy of a problem.  [i_server_number] is absent when
    set_instance_ids found no server number for the shell server. *)
Record Instance := {
  i_iid : string;
  i_flag : string;
  i_sid : string;
  i_server_number : option Z
}.

Record Problem := {
  p_pid : string;
  p_name : string;
  p_sanitized_name : string;
  p_category : string;
  p_score : Z;
  p_disabled : bool;
  p_instances : list Instance
}.

(** A dependency rule of a bundle: [{"weightmap": {...}, "threshold": n}].
    Weights and thresholds are taken to be ints that BSON encodes, of at
    most 8 bytes, as those of a stored bundle are. *)
Record Rule := {
  weightmap : gmap string Z;
  threshold : Z
}.

(** A bundle as stored in db.bundles.  The key "dependencies" is optional
    in bundle_schema; "bid" and "dependencies_enabled" are set by
    insert_bundle on every stored document. *)
Record Bundle := {
  b_bid : string;
  b_name : string;
  b_author : string;
  b_categories : list string;
  b_problems : list string;
  b_description : string;
  b_dependencies : option (gmap string Rule);
  b_dependencies_enabled : bool
}.


Record Team := {
  t_tid : string;
  t_server_number : option Z;
  t_instances : gmap string string
}.

Record User := {
  u_uid : string;
  u_tid : string
}.

Record Submission := {
  s_uid : string;
  s_tid : string;
  s_timestamp : Z;
  s_pid : string;
  s_ip : option string;
  s_key : string;
  s_method : string;
  s_category : string;
  s_correct : bool
}.

(** A problem as returned by unlocked_filter, with the keys that
    get_solved_problems adds. *)
Record ProblemView := {
  v_problem : Problem;
  v_solved : bool;
  v_unlocked : bool;
  v_solve_time : option Z
}.

(** ** The world: collections, settings, and the sources of
    nondeterminism ([randint] draws and the clock). *)
Record World := {
  problems : list Problem;
  bundles : list Bundle;
  teams : list Team;
  users : list User;
  submissions : list Submission;
  enable_sharding : bool;
  DEBUG_KEY : option string;
  session_uid : option string;
  utcnow : Z;
  draws : list nat
}.

Definition set_teams (ts : list Team) (w : World) : World :=
  {| problems := problems w; bundles := bundles w; teams := ts;
     users := users w; submissions := submissions w;
     enable_sharding := enable_sharding w; DEBUG_KEY := DEBUG_KEY w;
     session_uid := session_uid w; utcnow := utcnow w; draws := draws w |}.

Definition set_submissions (ss : list Submission) (w : World) : World :=
  {| problems := problems w; bundles := bundles w; teams := teams w;
     users := users w; submissions := ss;
     enable_sharding := enable_sharding w; DEBUG_KEY := DEBUG_KEY w;
     session_uid := session_uid w; utcnow := utcnow w; draws := draws w |}.

Definition set_bundles (bs : list Bundle) (w : World) : World :=
  {| problems := problems w; bundles := bs; teams := teams w;
     users := users w; submissions := submissions w;
     enable_sharding := enable_sharding w; DEBUG_KEY := DEBUG_KEY w;
     session_uid := session_uid w; utcnow := utcnow w; draws := draws w |}.

Definition set_problems (ps : list Problem) (w : World) : World :=
  {| problems := ps; bundles := bundles w; teams := teams w;
     users := users w; submissions := submissions w;
     enable_sharding := enable_sharding w; DEBUG_KEY := DEBUG_KEY w;
     session_uid := session_uid w; utcnow := utcnow w; draws := draws w |}.

Definition set_draws (ds : list nat) (w : World) : World :=
  {| problems := problems w; bundles := bundles w; teams := teams w;
     users := users w; submissions := submissions w;
     enable_sharding := enable_sharding w; DEBUG_KEY := DEBUG_KEY w;
     session_uid := session_uid w; utcnow := utcnow w; draws := ds |}.

(** ** Exceptions and computations *)

Inductive message :=
  | AlreadyHasInstance
  | ShellServerDown
  | NoInstancesToAssign
  | NotUnlocked
  | UserDoesNotExist
  | DebugModeRequired
  | MustSupplyTidUidOrPid
  | MustSupplyPidOrName
  | CannotGetProblem
  | CouldNotFindProblem
  | CouldNotFindTeam
  | BundleDoesNotExist
  | InvalidTid
  | InvalidPid
  | InvalidKey.

Inductive exn :=
  | InternalException (m : message)
  | SevereInternalException (m : message)
  | WebException (m : message)
  | ValueError
  | TypeError
  | OverflowError.

(** [OutOfFuel] is not a Python outcome: it marks a run of a recursive
    function that needed more calls than the bound it was given. *)
Inductive result (A : Type) :=
  | Ret (a : A)
  | Raise (e : exn)
  | OutOfFuel.
Arguments Ret {A} a.
Arguments Raise {A} e.
Arguments OutOfFuel {A}.

Definition M (A : Type) : Type := World -> result A * World.

Definition ret {A} (a : A) : M A := fun w => (Ret a, w).
Definition raise {A} (e : exn) : M A := fun w => (Raise e, w).
Definition bind {A B} (m : M A) (f : A -> M B) : M B :=
  fun w =>
    match m w with
    | (Ret a, w') => f a w'
    | (Raise e, w') => (Raise e, w')
    | (OutOfFuel, w') => (OutOfFuel, w')
    end.

Notation "x <- m ;; k" := (bind m (fun x => k))
  (at level 100, m at next level, right associativity).
Notation "m ;;; k" := (bind m (fun _ => k))
  (at level 100, right associativity).

(** A read of the database: no write, so the world is returned as it is. *)
Definition read {A} (f : World -> exn + A) : M A :=
  fun w => match f w with inl e => (Raise e, w) | inr a => (Ret a, w) end.

(** ** Strings *)

Fixpoint is_prefix (s t : string) : bool :=
  match s, t with
  | EmptyString, _ => true
  | String a s', String b t' => if Ascii.eqb a b then is_prefix s' t' else false
  | String _ _, EmptyString => false
  end.

(** Python's [flag in key] on str: substring test. *)
Fixpoint contains (s t : string) : bool :=
  is_prefix s t ||
  match t with
  | EmptyString => false
  | String _ t' => contains s t'
  end.

Definition str_eqb (s t : string) : bool := bool_decide (s = t).

(** A Python str is held as the bytes of its UTF-8 encoding.  [len(s)]
    counts characters: the bytes that do not continue one, those not of
    the form 10xxxxxx. *)
Definition is_continuation (a : Ascii.ascii) : bool :=
  match a with
  | Ascii.Ascii _ _ _ _ _ _ b6 b7 => b7 && negb b6
  end.

Fixpoint str_len (s : string) : nat :=
  match s with
  | EmptyString => 0
  | String a s' => (if is_continuation a then 0 else 1) + str_len s'
  end.

(** ** Bundles and the unlock rule *)

(** get_all_bundles: [list(db.bundles.find({}, {"_id": 0}))]. *)
Definition get_all_bundles (w : World) : list Bundle := bundles w.

Definition weightsum (dependency : Rule) (solved : list ProblemView) : Z :=
  foldl Z.add 0
    (map (fun p => default 0 (weightmap dependency !! p_sanitized_name (v_problem p)))
         solved).

(** The body of the loop of is_problem_unlocked for one bundle. *)
Definition is_problem_unlocked_step (problem : Problem) (solved : list ProblemView)
    (unlocked : bool) (bundle : Bundle) : bool :=
  if bool_decide (p_sanitized_name problem ∈ b_problems bundle) then
    match b_dependencies bundle with
    | Some deps =>
        if b_dependencies_enabled bundle then
          match deps !! p_sanitized_name problem with
          | Some dependency =>
              if weightsum dependency solved <? threshold dependency
              then false else unlocked
          | None => unlocked
          end
        else unlocked
    | None => unlocked
    end
  else unlocked.

Definition is_problem_unlocked (w : World) (problem : Problem)
    (solved : list ProblemView) : bool :=
  foldl (is_problem_unlocked_step problem solved) true (get_all_bundles w).

(** ** Collections *)

(** db.c.find_one(match): the first document that matches. *)
Fixpoint find_one {A} (matching : A -> bool) (c : list A) : option A :=
  match c with
  | [] => None
  | a :: c' => if matching a then Some a else find_one matching c'
  end.

(** db.c.update(match, doc) without multi: the first match is rewritten. *)
Fixpoint update_one {A} (matching : A -> bool) (f : A -> A) (c : list A) : list A :=
  match c with
  | [] => []
  | a :: c' => if matching a then f a :: c' else a :: update_one matching f c'
  end.

(** db.c.update(match, doc, multi=True): every match is rewritten. *)
Definition update_many {A} (matching : A -> bool) (f : A -> A) (c : list A) : list A :=
  map (fun a => if matching a then f a else a) c.

(** Values stored under the keys of a Mongo filter on submissions. *)
Inductive value :=
  | VStr (s : string)
  | VBool (b : bool).

#[global] Instance value_eq_dec : EqDecision value.
Proof. solve_decision. Defined.

Definition submission_field (s : Submission) (k : string) : option value :=
  if bool_decide (k = "uid") then Some (VStr (s_uid s))
  else if bool_decide (k = "tid") then Some (VStr (s_tid s))
  else if bool_decide (k = "pid") then Some (VStr (s_pid s))
  else if bool_decide (k = "key") then Some (VStr (s_key s))
  else if bool_decide (k = "method") then Some (VStr (s_method s))
  else if bool_decide (k = "category") then Some (VStr (s_category s))
  else if bool_decide (k = "correct") then Some (VBool (s_correct s))
  else None.

(** A document matches a filter when every key of the filter is a field of
    the document with that value (no filter of this module asks for null). *)
Definition matches (q : gmap string value) (s : Submission) : bool :=
  forallb (fun kv => bool_decide (submission_field s kv.1 = Some kv.2))
          (map_to_list q).

(** The optional update of the match dict:
    [if x is not None: match.update({k: x})]. *)
Definition match_update (k : string) (x : option value)
    (q : gmap string value) : gmap string value :=
  match x with
  | Some v => <[k := v]> q
  | None => q
  end.

(** get_submissions(pid, uid, tid, category, correctness): the uid filter
    takes precedence over the tid filter. *)
Definition submissions_match (pid uid tid category : option string)
    (correctness : option bool) : gmap string value :=
  let q := (∅ : gmap string value) in
  let q := match uid with
           | Some u => <["uid" := VStr u]> q
           | None => match_update "tid" (VStr <$> tid) q
           end in
  let q := match_update "pid" (VStr <$> pid) q in
  let q := match_update "category" (VStr <$> category) q in
  match_update "correct" (VBool <$> correctness) q.

Definition get_submissions (w : World) (pid uid tid category : option string)
    (correctness : option bool) : list Submission :=
  List.filter (matches (submissions_match pid uid tid category correctness))
              (submissions w).

(** ** Problems *)

(** get_problem(pid, name, show_disabled) for tid=None, which is how every
    function below calls it.  The pid takes precedence over the name. *)
Definition get_problem (w : World) (pid name : option string)
    (show_disabled : bool) : exn + Problem :=
  match
    match pid, name with
    | Some i, _ => inr (fun p => str_eqb (p_pid p) i)
    | None, Some n => inr (fun p => str_eqb (p_name p) n)
    | None, None => inl (InternalException MustSupplyPidOrName)
    end
  with
  | inl e => inl e
  | inr matching =>
      match find_one
              (fun p => matching p && (show_disabled || negb (p_disabled p)))
              (problems w) with
      | Some problem => inr problem
      | None => inl (SevereInternalException CouldNotFindProblem)
      end
  end.

(** The order of [sort([("score", ASCENDING), ("name", ASCENDING)])]. *)
Definition problem_leb (p q : Problem) : bool :=
  (p_score p <? p_score q) ||
  ((p_score p =? p_score q) && String.leb (p_name p) (p_name q)).

Fixpoint sort_insert (p : Problem) (l : list Problem) : list Problem :=
  match l with
  | [] => [p]
  | q :: l' => if problem_leb p q then p :: l else q :: sort_insert p l'
  end.

Definition sort_problems (l : list Problem) : list Problem :=
  foldr sort_insert [] l.

(** get_all_problems(category, show_disabled) with basic_only=False. *)
Definition get_all_problems (w : World) (category : option string)
    (show_disabled : bool) : list Problem :=
  sort_problems
    (List.filter
       (fun p =>
          match category with
          | Some c => str_eqb (p_category p) c
          | None => true
          end && (show_disabled || negb (p_disabled p)))
       (problems w)).

(** ** Teams and users (api.team, api.user) *)

(** Modelled from the spec: api.team.get_team is not part of this module;
    the team lookup returns the team document with that tid and fails if
    the tid is unknown. *)
Definition get_team (w : World) (tid : string) : exn + Team :=
  match find_one (fun t => str_eqb (t_tid t) tid) (teams w) with
  | Some team => inr team
  | None => inl (InternalException CouldNotFindTeam)
  end.

(** Modelled from the spec: api.team.get_team_uids is not part of this
    module; the members of a team are the users that carry its tid. *)
Definition get_team_uids (w : World) (tid : string) : list string :=
  map u_uid (List.filter (fun u => str_eqb (u_tid u) tid) (users w)).

(** Modelled from the spec: api.user.get_user is not part of this module;
    it resolves the given uid, or the logged-in user when no uid is given,
    and yields None when there is no such user. *)
Definition get_user (w : World) (uid : option string) : option User :=
  match (match uid with Some u => Some u | None => session_uid w end) with
  | Some u => find_one (fun x => str_eqb (u_uid x) u) (users w)
  | None => None
  end.

(** ** Solved problems *)

(** unlocked_filter drops the keys "flag", "tags" and "files", none of
    which is a field of [Problem] here, and sets "solved" and "unlocked". *)
Definition unlocked_filter (problem : Problem) (solved : bool) : ProblemView :=
  {| v_problem := problem; v_solved := solved; v_unlocked := true;
     v_solve_time := None |}.

Definition set_solve_time (t : Z) (v : ProblemView) : ProblemView :=
  {| v_problem := v_problem v; v_solved := v_solved v;
     v_unlocked := v_unlocked v; v_solve_time := Some t |}.

(** The second loop of get_solved_problems: the first submission of each
    pid gives the solve time; a pid is remembered even when its problem is
    disabled and left out of the result. *)
Fixpoint solved_loop (w : World) (show_disabled : bool)
    (subs : list Submission) (pids : list string) (result : list ProblemView)
    : exn + list ProblemView :=
  match subs with
  | [] => inr result
  | submission :: subs' =>
      if bool_decide (s_pid submission ∈ pids)
      then solved_loop w show_disabled subs' pids result
      else
        match get_problem w (Some (s_pid submission)) None true with
        | inl e => inl e
        | inr p =>
            let problem :=
              set_solve_time (s_timestamp submission) (unlocked_filter p true) in
            solved_loop w show_disabled subs' (pids ++ [s_pid submission])%list
              (if negb (p_disabled (v_problem problem)) || show_disabled
               then (result ++ [problem])%list else result)
        end
  end.

(** get_solved_problems(tid=tid, category=category,
    show_disabled=show_disabled) with no uid, which is how
    get_unlocked_pids calls it: the team's correct submissions, then those
    of each member. *)
Definition get_solved_problems (w : World) (tid : string)
    (category : option string) (show_disabled : bool)
    : exn + list ProblemView :=
  match get_team w tid with
  | inl e => inl e
  | inr team =>
      let members := get_team_uids w (t_tid team) in
      let submissions :=
        (get_submissions w None None (Some tid) category (Some true) ++
         concat (map (fun uid =>
                        get_submissions w None (Some uid) None category (Some true))
                     members))%list in
      solved_loop w show_disabled submissions [] []
  end.

(** ** Instance assignment *)

(** What a Python variable may hold where the code mixes ints and strs. *)
Inductive pyval :=
  | PInt (n : Z)
  | PStr (s : string).

#[global] Instance pyval_eq_dec : EqDecision pyval.
Proof. solve_decision. Defined.

(** randint(lo, hi): the next draw, reduced into the closed range. *)
Definition randint (lo hi : Z) : M Z :=
  fun w =>
    (Ret (lo + Z.of_nat (hd 0%nat (draws w)) mod (hi - lo + 1)),
     set_draws (tl (draws w)) w).

Definition set_instance (pid iid : string) (team : Team) : Team :=
  {| t_tid := t_tid team; t_server_number := t_server_number team;
     t_instances := <[pid := iid]> (t_instances team) |}.

(** The instances a team may be given: all of them, or with sharding those
    whose server_number equals the team's (1 when the team has none). *)
Definition available_instances (w : World) (team : Team) (problem : Problem)
    : list Instance :=
  if enable_sharding w then
    List.filter
      (fun i => bool_decide (i_server_number i
                             = Some (default 1 (t_server_number team))))
      (p_instances problem)
  else p_instances problem.

(** assign_instance_to_team(pid, tid, reassign).  The value returned is
    instance_number, the index drawn, as in the source. *)
Definition assign_instance_to_team (pid tid : string) (reassign : bool) : M Z :=
  team <- read (fun w => get_team w tid) ;;
  problem <- read (fun w => get_problem w (Some pid) None true) ;;
  available <- read (fun w => inr (available_instances w team problem)) ;;
  sharding <- read (fun w => inr (enable_sharding w)) ;;
  if bool_decide (is_Some (t_instances team !! pid)) && negb reassign
  then raise (InternalException AlreadyHasInstance)
  else
    match available with
    | [] =>
        if sharding then raise (InternalException ShellServerDown)
        else raise (InternalException NoInstancesToAssign)
    | first :: _ =>
        instance_number <- randint 0 (Z.of_nat (length available) - 1) ;;
        let iid := i_iid (nth (Z.to_nat instance_number) available first) in
        let team := set_instance pid iid team in
        (fun w =>
           (Ret tt,
            set_teams (update_one (fun t => str_eqb (t_tid t) tid)
                                  (fun _ => team) (teams w)) w)) ;;;
        ret instance_number
    end.

(** get_instance_data(pid, tid).  The recursion of the source has no
    bound of its own; [fuel] bounds the number of calls. *)
Fixpoint get_instance_data (fuel : nat) (pid tid : string) : M Instance :=
  match fuel with
  | O => fun w => (OutOfFuel, w)
  | S fuel' =>
      team <- read (fun w => get_team w tid) ;;
      let instance_map := t_instances team in
      problem <- read (fun w => get_problem w (Some pid) None true) ;;
      iid <- match instance_map !! pid with
             | None =>
                 n <- assign_instance_to_team pid tid false ;; ret (PInt n)
             | Some i => ret (PStr i)
             end ;;
      match find_one (fun instance => bool_decide (PStr (i_iid instance) = iid))
                     (p_instances problem) with
      | Some instance => ret instance
      | None =>
          assign_instance_to_team pid tid true ;;;
          get_instance_data fuel' pid tid
      end
  end.

(** get_instance_data when other requests write to the database while it
    runs: [others] lists what lands between each forced reassignment and
    the call that follows it.  With no such writes this is
    [get_instance_data]. *)
Fixpoint get_instance_data_among (others : list (World -> World)) (fuel : nat)
    (pid tid : string) : M Instance :=
  match fuel with
  | O => fun w => (OutOfFuel, w)
  | S fuel' =>
      team <- read (fun w => get_team w tid) ;;
      let instance_map := t_instances team in
      problem <- read (fun w => get_problem w (Some pid) None true) ;;
      iid <- match instance_map !! pid with
             | None =>
                 n <- assign_instance_to_team pid tid false ;; ret (PInt n)
             | Some i => ret (PStr i)
             end ;;
      match find_one (fun instance => bool_decide (PStr (i_iid instance) = iid))
                     (p_instances problem) with
      | Some instance => ret instance
      | None =>
          assign_instance_to_team pid tid true ;;;
          (fun w => (Ret tt, hd (fun w => w) others w)) ;;;
          get_instance_data_among (tl others) fuel' pid tid
      end
  end.

(** ** Unlocked problems *)

(** [for x in l: body(x)]. *)
Fixpoint for_each {A} (l : list A) (body : A -> M unit) : M unit :=
  match l with
  | [] => ret tt
  | x :: l' => body x ;;; for_each l' body
  end.

(** The first loop of get_unlocked_pids: the pids, in the order of
    get_all_problems, of the problems that [solved] unlocks. *)
Definition unlocked_among (w : World) (solved : list ProblemView)
    (candidates : list Problem) : list string :=
  map p_pid (List.filter (fun problem => is_problem_unlocked w problem solved)
                         candidates).

(** get_unlocked_pids(tid, category).  The team document is read once,
    before the loop that assigns instances. *)
Definition get_unlocked_pids (tid : string) (category : option string)
    : M (list string) :=
  solved <- read (fun w => get_solved_problems w tid None false) ;;
  team <- read (fun w => get_team w tid) ;;
  unlocked <- read (fun w =>
                inr (unlocked_among w solved (get_all_problems w category false))) ;;
  for_each unlocked
    (fun pid =>
       if bool_decide (is_Some (t_instances team !! pid)) then ret tt
       else assign_instance_to_team pid tid false ;;; ret tt) ;;;
  ret unlocked.

(** ** Grading and submission *)

(** The test of grade_problem: the flag occurs in the key, or else, when
    DEBUG_KEY is set, DEBUG_KEY does. *)
Definition check_key (debug_key : option string) (flag key : string) : bool :=
  let correct := contains flag key in
  if negb correct
  then match debug_key with
       | Some k => contains k key
       | None => correct
       end
  else correct.

(** grade_problem(pid, key, tid): without a tid the team of the logged-in
    user is taken. *)
Definition grade_problem (fuel : nat) (pid key : string) (tid : option string)
    : M bool :=
  tid <- match tid with
         | Some t => ret t
         | None =>
             read (fun w =>
                     match get_user w None with
                     | Some user => inr (u_tid user)
                     | None => inl TypeError
                     end)
         end ;;
  instance <- get_instance_data fuel pid tid ;;
  debug_key <- read (fun w => inr (DEBUG_KEY w)) ;;
  ret (check_key debug_key (i_flag instance) key).

(** validate(submission_schema, ...): each of the three is a str of at
    most 100 characters. *)
Definition validate_submission (tid pid key : string) : M unit :=
  if negb (Nat.leb (str_len tid) 100) then raise (WebException InvalidTid)
  else if negb (Nat.leb (str_len pid) 100) then raise (WebException InvalidPid)
  else if negb (Nat.leb (str_len key) 100) then raise (WebException InvalidKey)
  else ret tt.

Definition exists_submission (q : gmap string value) : M bool :=
  read (fun w => inr (existsb (matches q) (submissions w))).

Definition insert_submission (s : Submission) : M unit :=
  fun w => (Ret tt, set_submissions (submissions w ++ [s]) w).

(** submit_key(tid, pid, key, method, uid, ip).

    In the branch of a first correct submission the calls into api.stats
    and api.achievement are to collaborators outside this module, which
    read and recompute caches and write none of the collections of
    [World]; the call [get_solved_problems(tid=tid, uid=uid, recache=True)]
    is to the function of this module, whose memoize decorator is commented
    out and whose parameters include no [recache]: Python raises TypeError
    at that call. *)
Definition submit_key (fuel : nat) (tid pid key method : string)
    (uid ip : option string) : M (bool * bool * bool) :=
  validate_submission tid pid key ;;;
  unlocked <- get_unlocked_pids tid None ;;
  if negb (bool_decide (pid ∈ unlocked))
  then raise (InternalException NotUnlocked)
  else
    user <- read (fun w => inr (get_user w uid)) ;;
    match user with
    | None => raise (InternalException UserDoesNotExist)
    | Some user =>
        let uid := u_uid user in
        previously_solved_by_user <-
          exists_submission (<["correct" := VBool true]> {["uid" := VStr uid]}) ;;
        previously_solved_by_team <-
          exists_submission (<["correct" := VBool true]> {["tid" := VStr tid]}) ;;
        correct <- grade_problem fuel pid key (Some tid) ;;
        (if negb previously_solved_by_user then
           problem <- read (fun w => get_problem w (Some pid) None true) ;;
           now <- read (fun w => inr (utcnow w)) ;;
           insert_submission
             {| s_uid := uid; s_tid := tid; s_timestamp := now; s_pid := pid;
                s_ip := ip; s_key := key; s_method := method;
                s_category := p_category problem; s_correct := correct |}
         else ret tt) ;;;
        (if correct && negb previously_solved_by_user
         then raise TypeError
         else ret tt) ;;;
        ret (correct, previously_solved_by_user, previously_solved_by_team)
    end.

(** ** Clearing submissions *)

(** The elements of the set display [{a, b}], in the order in which the
    interpreter iterates over them; the order depends on the string hashes
    of the process and is given by [swap]. *)
Definition py_set2 (swap : bool) (a b : string) : list string :=
  if bool_decide (a = b) then [a]
  else if swap then [b; a] else [a; b].

(** dict.update(iterable): every element must itself be a sequence of
    length two, a key and a value; a str of two characters is one. *)
Fixpoint dict_update_seq (elements : list string) (q : gmap string value)
    : exn + gmap string value :=
  match elements with
  | [] => inr q
  | String k (String v EmptyString) :: rest =>
      dict_update_seq rest (<[String k EmptyString := VStr (String v EmptyString)]> q)
  | _ :: _ => inl ValueError
  end.

Definition remove_submissions (q : gmap string value) : M unit :=
  fun w =>
    (Ret tt,
     set_submissions (List.filter (fun s => negb (matches q s)) (submissions w)) w).

(** clear_submissions(uid, tid, pid).  The pid branch passes the set
    [{"pid", pid}] to dict.update, not the dict [{"pid": pid}]. *)
Definition clear_submissions (swap : bool) (uid tid pid : option string)
    : M unit :=
  let q := (∅ : gmap string value) in
  q <- match pid, uid, tid with
       | Some pid, _, _ => read (fun _ => dict_update_seq (py_set2 swap "pid" pid) q)
       | None, Some uid, _ => ret (<["uid" := VStr uid]> q)
       | None, None, Some tid => ret (<["tid" := VStr tid]> q)
       | None, None, None => raise (InternalException MustSupplyTidUidOrPid)
       end ;;
  remove_submissions q.

(** ** Reevaluation *)

Definition set_correct (c : bool) (s : Submission) : Submission :=
  {| s_uid := s_uid s; s_tid := s_tid s; s_timestamp := s_timestamp s;
     s_pid := s_pid s; s_ip := s_ip s; s_key := s_key s;
     s_method := s_method s; s_category := s_category s; s_correct := c |}.

Definition in_keys (key : string) (keys : list (string * option bool)) : bool :=
  existsb (fun kc => str_eqb kc.1 key) keys.

(** The first loop of reevaluate_submissions_for_problem.  [keys] is the
    dict of the source, in insertion order: a key is graded once, for the
    team of the first submission that bears it, and maps to the new
    correctness when that differs from what this first submission stores,
    to None otherwise. *)
Fixpoint reevaluate_keys (fuel : nat) (pid : string) (subs : list Submission)
    (keys : list (string * option bool)) : M (list (string * option bool)) :=
  match subs with
  | [] => ret keys
  | submission :: subs' =>
      let key := s_key submission in
      if in_keys key keys then reevaluate_keys fuel pid subs' keys
      else
        result <- grade_problem fuel pid key (Some (s_tid submission)) ;;
        reevaluate_keys fuel pid subs'
          (keys ++ [(key, if negb (eqb result (s_correct submission))
                          then Some result else None)])
  end.

(** The second loop: the update filters on the key alone. *)
Definition apply_changes (keys : list (string * option bool)) : M unit :=
  for_each keys
    (fun kc =>
       match kc.2 with
       | Some change =>
           fun w =>
             (Ret tt,
              set_submissions
                (update_many (matches {["key" := VStr kc.1]}) (set_correct change)
                             (submissions w)) w)
       | None => ret tt
       end).

Definition reevaluate_submissions_for_problem (fuel : nat) (pid : string)
    : M unit :=
  read (fun w => get_problem w (Some pid) None true) ;;;
  subs <- read (fun w => inr (get_submissions w (Some pid) None None None None)) ;;
  keys <- reevaluate_keys fuel pid subs [] ;;
  apply_changes keys.

(** ** Bundles *)

(** A dict of updates to a stored bundle: every key is optional. *)
Record BundleUpdates := {
  bu_name : option string;
  bu_author : option string;
  bu_categories : option (list string);
  bu_problems : option (list string);
  bu_description : option string;
  bu_dependencies : option (gmap string Rule);
  bu_dependencies_enabled : option bool
}.


(** [bundle.update(updates)]. *)
Definition bundle_update (updates : BundleUpdates) (bundle : Bundle) : Bundle :=
  {| b_bid := b_bid bundle;
     b_name := default (b_name bundle) (bu_name updates);
     b_author := default (b_author bundle) (bu_author updates);
     b_categories := default (b_categories bundle) (bu_categories updates);
     b_problems := default (b_problems bundle) (bu_problems updates);
     b_description := default (b_description bundle) (bu_description updates);
     b_dependencies :=
       match bu_dependencies updates with
       | Some d => Some d
       | None => b_dependencies bundle
       end;
     b_dependencies_enabled :=
       default (b_dependencies_enabled bundle) (bu_dependencies_enabled updates) |}.

Definition get_bundle (w : World) (bid : string) : exn + Bundle :=
  match find_one (fun b => str_eqb (b_bid b) bid) (bundles w) with
  | Some bundle => inr bundle
  | None => inl (WebException BundleDoesNotExist)
  end.


(** update_bundle(bid, updates).  The records are typed as bundle_schema
    demands, so its validation passes. *)
Definition update_bundle (bid : string) (updates : BundleUpdates) : M unit :=
  bundle <- read (fun w => get_bundle w bid) ;;
  let bundle := bundle_update updates bundle in
  fun w =>
    (Ret tt,
     set_bundles (update_one (fun b => str_eqb (b_bid b) bid)
                             (fun _ => bundle) (bundles w)) w).

Definition set_bundle_dependencies_enabled (bid : string) (enabled : bool)
    : M unit :=
  update_bundle bid
    {| bu_name := None; bu_author := None; bu_categories := None;
       bu_problems := None; bu_description := None; bu_dependencies := None;
       bu_dependencies_enabled := Some enabled |}.

Section Insertion.

(** api.common.hash is not part of this module: the identifiers are
    whatever it computes. *)
Variable hash : string -> string.




End Insertion.

(** ** Counting and clearing the ledger, solved pids, full reevaluation *)

(** count_submissions(pid, uid, tid, category, correctness): the filter
    is built as in get_submissions, statement for statement. *)
Definition count_submissions (w : World) (pid uid tid category : option string)
    (correctness : option bool) : nat :=
  length (List.filter (matches (submissions_match pid uid tid category correctness))
                      (submissions w)).

(** clear_all_submissions().  The call api.cache.clear() that follows the
    removal empties the memoization cache of api.cache, which is no part of
    [World]. *)
Definition clear_all_submissions : M unit :=
  debug_key <- read (fun w => inr (DEBUG_KEY w)) ;;
  match debug_key with
  | Some _ => fun w => (Ret tt, set_submissions [] w)
  | None => raise (InternalException DebugModeRequired)
  end.

(** get_solved_pids(tid=tid, category=category, show_disabled=show_disabled). *)
Definition get_solved_pids (w : World) (tid : string) (category : option string)
    (show_disabled : bool) : exn + list string :=
  match get_solved_problems w tid category show_disabled with
  | inl e => inl e
  | inr solved => inr (map (fun problem => p_pid (v_problem problem)) solved)
  end.

(** reevaluate_all_submissions(), after its api.cache.clear(): the
    problems are listed once, disabled ones included, before the loop. *)
Definition reevaluate_all_submissions (fuel : nat) : M unit :=
  all_problems <- read (fun w => inr (get_all_problems w None true)) ;;
  for_each all_problems
    (fun problem => reevaluate_submissions_for_problem fuel (p_pid problem)).

(** ** Problems: update, removal, publication *)

From stdpp Require Import pretty sorting.
Open Scope Z_scope.

(** A dict of updates to a stored problem: every key is optional. *)
Record ProblemUpdates := {
  pu_pid : option string;
  pu_name : option string;
  pu_sanitized_name : option string;
  pu_category : option string;
  pu_score : option Z;
  pu_disabled : option bool;
  pu_instances : option (list Instance)
}.

(** [problem.update(updated_problem)]. *)
Definition problem_update (updates : ProblemUpdates) (problem : Problem) : Problem :=
  {| p_pid := default (p_pid problem) (pu_pid updates);
     p_name := default (p_name problem) (pu_name updates);
     p_sanitized_name :=
       default (p_sanitized_name problem) (pu_sanitized_name updates);
     p_category := default (p_category problem) (pu_category updates);
     p_score := default (p_score problem) (pu_score updates);
     p_disabled := default (p_disabled problem) (pu_disabled updates);
     p_instances := default (p_instances problem) (pu_instances updates) |}.

(** BSON holds ints of at most 8 bytes: the driver raises OverflowError
    when it encodes a document with a larger one, and the write is not
    made. *)
Definition int64 (z : Z) : bool := (- 2 ^ 63 <=? z) && (z <? 2 ^ 63).

Definition instance_encodable (i : Instance) : bool :=
  match i_server_number i with
  | Some n => int64 n
  | None => true
  end.

Definition problem_encodable (p : Problem) : bool :=
  int64 (p_score p) && forallb instance_encodable (p_instances p).

(** update_problem(pid, updated_problem): the stored problem, updated, is
    written over the first document with that pid and returned. *)
Definition update_problem (pid : string) (updated_problem : ProblemUpdates)
    : M Problem :=
  problem <- read (fun w => get_problem w (Some pid) None true) ;;
  let problem := problem_update updated_problem problem in
  if negb (problem_encodable problem) then raise OverflowError
  else
    (fun w =>
       (Ret tt,
        set_problems (update_one (fun p => str_eqb (p_pid p) pid)
                                 (fun _ => problem) (problems w)) w)) ;;;
    ret problem.

(** remove_problem(pid): [db.problems.remove({"pid": pid})] removes every
    document with that pid. *)
Definition remove_problem (pid : string) : M Problem :=
  problem <- read (fun w => get_problem w (Some pid) None true) ;;
  (fun w =>
     (Ret tt,
      set_problems (List.filter (fun p => negb (str_eqb (p_pid p) pid))
                                (problems w)) w)) ;;;
  ret problem.

(** An instance as shell_manager publishes it.  instance_schema asks for
    a description and a flag and lets other keys through; set_instance_ids
    reads the instance_number. *)
Record InstancePayload := {
  ip_instance_number : Z;
  ip_flag : string;
  ip_description : string;
  ip_server_number : option Z
}.

(** A problem as published, with the keys of problem_schema that this
    module reads; its other keys are taken to hold nothing that BSON
    cannot encode. *)
Record ProblemPayload := {
  pp_name : string;
  pp_sanitized_name : string;
  pp_score : Z;
  pp_author : string;
  pp_category : string;
  pp_instances : list InstancePayload
}.

(** How insert_problem fails: the two WebExceptions it raises itself, from
    the score check of problem_schema ("Score must be a positive integer.")
    and on a display name that another problem has ("Problem with
    identical name ... already exists."), and whatever a function it calls
    raised.  [Unbounded] stands for [OutOfFuel], which no call made here
    produces.  [KeyError] is what load_published raises on a blob that
    lacks a key it indexes. *)
Inductive publish_error :=
  | ScoreNotPositive
  | IdenticalName
  | Raised (e : exn)
  | Unbounded
  | KeyError (key : string).

(** Modelled from the spec: api.common.safe_fail is not part of this
    module; insert_problem uses it as an existence probe on get_problem,
    whose failed lookup, an InternalException or its subclass
    SevereInternalException, becomes None. *)
Definition safe_fail_lookup {A} (r : exn + A) : exn + option A :=
  match r with
  | inr a => inr (Some a)
  | inl (WebException _) => inr None
  | inl (InternalException _) => inr None
  | inl (SevereInternalException _) => inr None
  | inl e => inl e
  end.

Section Publication.

(** api.common.hash and api.shell_servers.get_server are not part of this
    module: the first is whatever hash it computes, the second yields the
    server_number stored for a shell server, which may be None, or
    raises. *)
Variable hash : string -> string.
Variable get_server : string -> exn + option Z.

Definition problem_pid (problem : ProblemPayload) : string :=
  hash (pp_name problem ++ "-" ++ pp_author problem)%string.

(** set_instance_ids(problem, sid), on the instances of the problem: the
    iid hashes the instance number, as str() prints it, the sid and the
    pid; the server number of the shell server, when it has one, replaces
    what the instance carried. *)
Definition set_instance_ids (pid sid : string) (instances : list InstancePayload)
    : exn + list Instance :=
  match get_server sid with
  | inl e => inl e
  | inr server_number =>
      inr (map (fun instance =>
                  {| i_iid := hash (pretty (ip_instance_number instance)
                                    ++ sid ++ pid)%string;
                     i_flag := ip_flag instance;
                     i_sid := sid;
                     i_server_number :=
                       match server_number with
                       | Some n => Some n
                       | None => ip_server_number instance
                       end |})
               instances)
  end.

(** The problem dict of insert_problem once "disabled", "pid" and the
    instance ids are set. *)
Definition published_problem (problem : ProblemPayload) (disabled : bool)
    (instances : list Instance) : Problem :=
  {| p_pid := problem_pid problem; p_name := pp_name problem;
     p_sanitized_name := pp_sanitized_name problem;
     p_category := pp_category problem; p_score := pp_score problem;
     p_disabled := disabled; p_instances := instances |}.

(** The same dict as the argument of update_problem: it has every key. *)
Definition updates_of_problem (problem : Problem) : ProblemUpdates :=
  {| pu_pid := Some (p_pid problem); pu_name := Some (p_name problem);
     pu_sanitized_name := Some (p_sanitized_name problem);
     pu_category := Some (p_category problem);
     pu_score := Some (p_score problem);
     pu_disabled := Some (p_disabled problem);
     pu_instances := Some (p_instances problem) |}.

(** The ints of the published dict that [Problem] does not keep, the
    instance numbers, go into the stored document with the rest. *)
Definition payload_encodable (problem : ProblemPayload) : bool :=
  forallb (fun instance => int64 (ip_instance_number instance))
          (pp_instances problem).

(** insert_problem(problem, sid).  The result is the pid for a new
    problem and None when a stored problem was updated.  The document is
    encoded when it is written, after the lookups. *)
Definition insert_problem (problem : ProblemPayload) (sid : string) (w : World)
    : publish_error + (option string * World) :=
  if pp_score problem <? 0 then inl ScoreNotPositive
  else
    let pid := problem_pid problem in
    match set_instance_ids pid sid (pp_instances problem) with
    | inl e => inl (Raised e)
    | inr instances =>
        match safe_fail_lookup (get_problem w (Some pid) None true) with
        | inl e => inl (Raised e)
        | inr (Some old_problem) =>
            let instances :=
              List.filter (fun i => negb (str_eqb (i_sid i) sid))
                          (p_instances old_problem) ++ instances in
            let disabled :=
              p_disabled old_problem || (length instances =? 0)%nat in
            if negb (payload_encodable problem) then inl (Raised OverflowError)
            else
              match update_problem pid
                      (updates_of_problem
                         (published_problem problem disabled instances)) w with
              | (Ret _, w') => inr (None, w')
              | (Raise e, _) => inl (Raised e)
              | (OutOfFuel, _) => inl Unbounded
              end
        | inr None =>
            match safe_fail_lookup
                    (get_problem w None (Some (pp_name problem)) true) with
            | inl e => inl (Raised e)
            | inr (Some _) => inl IdenticalName
            | inr None =>
                let stored := published_problem problem true instances in
                if negb (payload_encodable problem && problem_encodable stored)
                then inl (Raised OverflowError)
                else inr (Some pid, set_problems (problems w ++ [stored]) w)
            end
        end
    end.

End Publication.

(** ** Loading a publication *)


Section Loading.

Variable hash : string -> string.
Variable get_server : string -> exn + option Z.




End Loading.

(** ** Categories and their sizes *)

(** get_all_categories(show_disabled): the distinct values of "category"
    among the matching problems.  MongoDB fixes no order for them; here
    each stands where its last problem does. *)
Definition get_all_categories (w : World) (show_disabled : bool) : list string :=
  remove_dups
    (map p_category
         (List.filter (fun p => show_disabled || negb (p_disabled p))
                      (problems w))).

(** count_all_problems(category): a dict from category to the number of
    its enabled problems. *)
Definition count_all_problems (w : World) (category : option string)
    : gmap string nat :=
  let categories :=
    match category with
    | None => get_all_categories w false
    | Some c => [c]
    end in
  foldl (fun result cat =>
           <[cat := length (get_all_problems w (Some cat) false)]> result)
        ∅ categories.

(** ** A bundle with one rule

    Problems A, B and C in one bundle, whose rule for C asks for weight 2
    out of A (1) and B (2). *)

Definition mk_problem (pid name category : string) (instances : list Instance)
    : Problem :=
  {| p_pid := pid; p_name := name; p_sanitized_name := name;
     p_category := category; p_score := 10; p_disabled := false;
     p_instances := instances |}.

Definition problem_A : Problem := mk_problem "pA" "A" "web" [].
Definition problem_B : Problem := mk_problem "pB" "B" "web" [].
Definition problem_C : Problem := mk_problem "pC" "C" "web" [].

Definition rule_C : Rule :=
  {| weightmap := {["A" := 1; "B" := 2]}; threshold := 2 |}.

Definition bundle_ABC : Bundle :=
  {| b_bid := "b1"; b_name := "bundle"; b_author := "author";
     b_categories := ["web"]; b_problems := ["A"; "B"; "C"];
     b_description := "";
     b_dependencies := Some {["C" := rule_C]};
     b_dependencies_enabled := true |}.

Definition empty_world : World :=
  {| problems := []; bundles := []; teams := []; users := [];
     submissions := []; enable_sharding := false; DEBUG_KEY := None;
     session_uid := None; utcnow := 0; draws := [] |}.

Definition world_ABC : World :=
  set_bundles [bundle_ABC]
    (set_problems [problem_A; problem_B; problem_C] empty_world).

Definition solved_view (p : Problem) : ProblemView :=
  set_solve_time 0 (unlocked_filter p true).

(** ** A problem with two instances and a team without one *)

Definition instance_0 : Instance :=
  {| i_iid := "iid-0"; i_flag := "flag{zero}"; i_sid := "s1";
     i_server_number := Some 1 |}.

Definition instance_1 : Instance :=
  {| i_iid := "iid-1"; i_flag := "flag{one}"; i_sid := "s2";
     i_server_number := Some 2 |}.

Definition problem_P : Problem :=
  mk_problem "pP" "P" "web" [instance_0; instance_1].

Definition team_T : Team :=
  {| t_tid := "tT"; t_server_number := None; t_instances := ∅ |}.

(** The next draw of randint is 1. *)
Definition world_P : World :=
  set_draws [1%nat] (set_teams [team_T] (set_problems [problem_P] empty_world)).

(** ** A published bundle that asks for its dependencies to be enabled *)


(** ** A team whose committed instance was retired, and republishing *)

Definition instance_2 : Instance :=
  {| i_iid := "iid-2"; i_flag := "flag{two}"; i_sid := "s1";
     i_server_number := Some 1 |}.

Definition instance_3 : Instance :=
  {| i_iid := "iid-3"; i_flag := "flag{three}"; i_sid := "s1";
     i_server_number := Some 1 |}.

Definition team_stale : Team :=
  {| t_tid := "tT"; t_server_number := None;
     t_instances := {["pP" := "iid-old"]} |}.

Definition world_stale : World :=
  set_draws [0%nat; 0%nat; 0%nat]
    (set_teams [team_stale] (set_problems [problem_P] empty_world)).

Definition set_instances (instances : list Instance) (p : Problem) : Problem :=
  {| p_pid := p_pid p; p_name := p_name p;
     p_sanitized_name := p_sanitized_name p; p_category := p_category p;
     p_score := p_score p; p_disabled := p_disabled p;
     p_instances := instances |}.

(** What another request does when it publishes [pid] again with a new
    list of instances: [db.problems.update({"pid": pid}, problem)]. *)
Definition republish (pid : string) (instances : list Instance) (w : World)
    : World :=
  set_problems (update_one (fun p => str_eqb (p_pid p) pid)
                           (set_instances instances) (problems w)) w.

(** ** Two teams, only one of which has its instance of P *)

Definition team_U : Team :=
  {| t_tid := "tU"; t_server_number := None;
     t_instances := {["pP" := "iid-0"]} |}.

Definition world_TU : World :=
  set_draws [1%nat] (set_teams [team_T; team_U]
                       (set_problems [problem_P] empty_world)).

(** ** A rule across categories

    C, in category crypto, asks for weight 2 out of A and B, both in
    category web; user u1 of team tT has solved B. *)

Definition web_A : Problem := mk_problem "pA" "A" "web" [instance_0].
Definition web_B : Problem := mk_problem "pB" "B" "web" [instance_0].
Definition crypto_C : Problem := mk_problem "pC" "C" "crypto" [instance_0].

Definition user_1 : User := {| u_uid := "u1"; u_tid := "tT" |}.
Definition user_2 : User := {| u_uid := "u2"; u_tid := "tT" |}.

Definition solve_B : Submission :=
  {| s_uid := "u1"; s_tid := "tT"; s_timestamp := 5; s_pid := "pB";
     s_ip := None; s_key := "flag{zero}"; s_method := "game";
     s_category := "web"; s_correct := true |}.

Definition world_categories : World :=
  {| problems := [web_A; web_B; crypto_C]; bundles := [bundle_ABC];
     teams := [team_T]; users := [user_1; user_2]; submissions := [solve_B];
     enable_sharding := false; DEBUG_KEY := None; session_uid := None;
     utcnow := 9; draws := [] |}.

(** ** A team whose shard has no instance of P

    Sharding is on; P has instances on servers 1 and 2; the team sits on
    server 3 and holds the iid of an instance that was retired. *)

Definition team_shard_3 : Team :=
  {| t_tid := "tT"; t_server_number := Some 3;
     t_instances := {["pP" := "iid-old"]} |}.

Definition world_shard_down : World :=
  {| problems := [problem_P]; bundles := []; teams := [team_shard_3];
     users := [user_1]; submissions := []; enable_sharding := true;
     DEBUG_KEY := None; session_uid := None; utcnow := 9; draws := [] |}.

(** The document that submit_key inserts. *)
Definition attempt (w : World) (uid tid pid key method : string)
    (ip : option string) (category : string) (correct : bool) : Submission :=
  {| s_uid := uid; s_tid := tid; s_timestamp := utcnow w; s_pid := pid;
     s_ip := ip; s_key := key; s_method := method; s_category := category;
     s_correct := correct |}.

(** ** Notions used to state the properties *)

(** [w'] differs from [w] at most in the teams collection and in the
    draws left: what instance assignment may write. *)
Definition frame (w w' : World) : Prop :=
  problems w' = problems w ∧ bundles w' = bundles w ∧ users w' = users w ∧
  submissions w' = submissions w ∧ enable_sharding w' = enable_sharding w ∧
  DEBUG_KEY w' = DEBUG_KEY w ∧ session_uid w' = session_uid w ∧
  utcnow w' = utcnow w.

(** [w'] is [w] up to assignments to the team [tid]: every other team
    reads as before, and the team itself is still there. *)
Definition touches (tid : string) (w w' : World) : Prop :=
  frame w w' ∧
  (∀ tid', tid' ≠ tid → get_team w' tid' = get_team w tid') ∧
  (∀ t, get_team w tid = inr t → ∃ t', get_team w' tid = inr t').

(** The team [tid] holds, for [pid], the iid of [instance], and a search
    of the problem's instances for that iid ends at [instance]. *)
Definition committed (w : World) (pid tid : string) (instance : Instance) : Prop :=
  ∃ team problem iid,
    get_team w tid = inr team ∧
    get_problem w (Some pid) None true = inr problem ∧
    t_instances team !! pid = Some iid ∧
    find_one (fun i => bool_decide (PStr (i_iid i) = PStr iid))
             (p_instances problem) = Some instance.

(** What the second loop of reevaluate_submissions_for_problem does to
    one ledger entry: the updates of the keys, in order. *)
Definition apply_entry (kc : string * option bool) (s : Submission) : Submission :=
  match kc.2 with
  | Some change =>
      if matches {["key" := VStr kc.1]} s then set_correct change s else s
  | None => s
  end.

Definition apply_entries (keys : list (string * option bool)) (s : Submission)
    : Submission :=
  foldl (fun s kc => apply_entry kc s) s keys.

(** ** Two teams on different instances of P, after a change of flag

    Team tT holds instance 0, team tU instance 1.  Both submitted the key
    "flag{one}", which was wrong for tT and right for tU; the flag of
    instance 1 has since been changed. *)

Definition instance_1_changed : Instance :=
  {| i_iid := "iid-1"; i_flag := "flag{new}"; i_sid := "s2";
     i_server_number := Some 2 |}.

Definition team_T0 : Team :=
  {| t_tid := "tT"; t_server_number := None;
     t_instances := {["pP" := "iid-0"]} |}.

Definition team_U1 : Team :=
  {| t_tid := "tU"; t_server_number := None;
     t_instances := {["pP" := "iid-1"]} |}.

Definition wrong_for_T : Submission :=
  {| s_uid := "u1"; s_tid := "tT"; s_timestamp := 1; s_pid := "pP";
     s_ip := None; s_key := "flag{one}"; s_method := "game";
     s_category := "web"; s_correct := false |}.

Definition right_for_U : Submission :=
  {| s_uid := "u3"; s_tid := "tU"; s_timestamp := 2; s_pid := "pP";
     s_ip := None; s_key := "flag{one}"; s_method := "game";
     s_category := "web"; s_correct := true |}.

Definition problem_P_changed : Problem :=
  mk_problem "pP" "P" "web" [instance_0; instance_1_changed].

Definition world_two_teams : World :=
  {| problems := [problem_P_changed]; bundles := [];
     teams := [team_T0; team_U1];
     users := [user_1; {| u_uid := "u3"; u_tid := "tU" |}];
     submissions := [wrong_for_T; right_for_U];
     enable_sharding := false; DEBUG_KEY := None; session_uid := None;
     utcnow := 9; draws := [] |}.

(** The same, with team tU's submission alone in the ledger. *)
Definition world_one_team : World :=
  set_submissions [right_for_U] world_two_teams.

(** The two-team ledger in a deployment where DEBUG_KEY is set. *)
Definition set_DEBUG_KEY (k : option string) (w : World) : World :=
  {| problems := problems w; bundles := bundles w; teams := teams w;
     users := users w; submissions := submissions w;
     enable_sharding := enable_sharding w; DEBUG_KEY := k;
     session_uid := session_uid w; utcnow := utcnow w; draws := draws w |}.

Definition world_debug : World := set_DEBUG_KEY (Some "debug-key") world_two_teams.

(** [ledger'] is [ledger] entry for entry, up to the stored correctness. *)
Definition only_correct_changed (ledger ledger' : list Submission) : Prop :=
  Forall2 (fun s s' => ∃ c, s' = set_correct c s) ledger ledger'.

(** ** One team, two problems, one key

    Team tU submitted "flag{one}" to P and to Q.  It is the flag of Q; it
    was the flag of P's instance 1 before that flag was changed. *)

Definition instance_Q : Instance :=
  {| i_iid := "iid-q"; i_flag := "flag{one}"; i_sid := "s1";
     i_server_number := Some 1 |}.

Definition problem_Q : Problem := mk_problem "pQ" "Q" "web" [instance_Q].

Definition team_UQ : Team :=
  {| t_tid := "tU"; t_server_number := None;
     t_instances := {["pP" := "iid-1"; "pQ" := "iid-q"]} |}.

Definition right_for_Q : Submission :=
  {| s_uid := "u3"; s_tid := "tU"; s_timestamp := 3; s_pid := "pQ";
     s_ip := None; s_key := "flag{one}"; s_method := "game";
     s_category := "web"; s_correct := true |}.

Definition world_shared_key : World :=
  {| problems := [problem_P_changed; problem_Q]; bundles := [];
     teams := [team_UQ]; users := [{| u_uid := "u3"; u_tid := "tU" |}];
     submissions := [right_for_U; right_for_Q];
     enable_sharding := false; DEBUG_KEY := None; session_uid := None;
     utcnow := 9; draws := [] |}.

(** ** Publishing problems

    The hash of the examples prefixes its argument; the shell server s1
    has server number 1, s2 has none stored, any other is unknown. *)

Definition example_hash (s : string) : string := ("#" ++ s)%string.

Definition example_get_server (sid : string) : exn + option Z :=
  if bool_decide (sid = "s1") then inr (Some 1)
  else if bool_decide (sid = "s2") then inr None
  else inl (InternalException CouldNotFindTeam).

Definition payload_instance (n : Z) (flag : string) : InstancePayload :=
  {| ip_instance_number := n; ip_flag := flag; ip_description := "";
     ip_server_number := None |}.

Definition payload_R : ProblemPayload :=
  {| pp_name := "R"; pp_sanitized_name := "r"; pp_score := 50;
     pp_author := "ann"; pp_category := "web";
     pp_instances := [payload_instance 0 "flag{r0}"; payload_instance 1 "flag{r1}"] |}.

(** The same problem with its first instance only and a new flag. *)
Definition payload_R_again : ProblemPayload :=
  {| pp_name := "R"; pp_sanitized_name := "r"; pp_score := 50;
     pp_author := "ann"; pp_category := "web";
     pp_instances := [payload_instance 0 "flag{r0-new}"] |}.

(** R with a score of 2^63, which problem_schema accepts. *)
Definition payload_R_huge : ProblemPayload :=
  {| pp_name := "R"; pp_sanitized_name := "r"; pp_score := 2 ^ 63;
     pp_author := "ann"; pp_category := "web";
     pp_instances := [payload_instance 0 "flag{r0}"] |}.

(** Another problem under the display name of R. *)
Definition payload_R_namesake : ProblemPayload :=
  {| pp_name := "R"; pp_sanitized_name := "r2"; pp_score := 10;
     pp_author := "bob"; pp_category := "web"; pp_instances := [] |}.

(** R as stored after publication from s1 and s2 and enabling, and a
    team committed to its instance 0 of s1. *)
Definition stored_R : Problem :=
  {| p_pid := "#R-ann"; p_name := "R"; p_sanitized_name := "r";
     p_category := "web"; p_score := 50; p_disabled := false;
     p_instances :=
       [{| i_iid := "#0s1#R-ann"; i_flag := "flag{r0}"; i_sid := "s1";
           i_server_number := Some 1 |};
        {| i_iid := "#0s2#R-ann"; i_flag := "flag{q0}"; i_sid := "s2";
           i_server_number := None |};
        {| i_iid := "#1s1#R-ann"; i_flag := "flag{r1}"; i_sid := "s1";
           i_server_number := Some 1 |}] |}.

Definition team_R : Team :=
  {| t_tid := "tT"; t_server_number := None;
     t_instances := {["#R-ann" := "#0s1#R-ann"]} |}.

Definition world_R : World :=
  set_teams [team_R] (set_problems [stored_R] empty_world).



(** A key of 34 characters that takes 102 bytes: 34 times U+20AC, whose
    UTF-8 encoding is the bytes 226, 130, 172. *)
Definition key_of_34_euros : string :=
  String.concat ""
    (repeat (String (Ascii.ascii_of_nat 226)
               (String (Ascii.ascii_of_nat 130)
                  (String (Ascii.ascii_of_nat 172) EmptyString))) 34).


(** * Properties *)

(** ** The unlock rule *)

Lemma foldl_Zadd_shift (l : list Z) (a : Z) :
  foldl Z.add a l = a + foldl Z.add 0 l.
Proof.
  revert a. induction l as [|x l IH]; intros a; simpl.
  - lia.
  - rewrite (IH (a + x)), (IH (0 + x)). lia.
Qed.

Lemma weightsum_cons (dependency : Rule) (p : ProblemView) (solved : list ProblemView) :
  weightsum dependency (p :: solved) =
  default 0 (weightmap dependency !! p_sanitized_name (v_problem p))
  + weightsum dependency solved.
Proof. unfold weightsum. simpl. apply foldl_Zadd_shift. Qed.

Lemma is_problem_unlocked_step_and problem solved unlocked bundle :
  is_problem_unlocked_step problem solved unlocked bundle =
  unlocked && is_problem_unlocked_step problem solved true bundle.
Proof.
  unfold is_problem_unlocked_step.
  repeat (case_match; try reflexivity); destruct unlocked; reflexivity.
Qed.

Lemma is_problem_unlocked_foldl problem solved unlocked (bs : list Bundle) :
  foldl (is_problem_unlocked_step problem solved) unlocked bs = true ↔
  unlocked = true ∧
  ∀ bundle, bundle ∈ bs → is_problem_unlocked_step problem solved true bundle = true.
Proof.
  revert unlocked. induction bs as [|b bs IH]; intros unlocked; simpl.
  - split; [intros ->; split; [done|] | tauto]. intros b Hb. inversion Hb.
  - rewrite IH, is_problem_unlocked_step_and, andb_true_iff. split.
    + intros [[-> Hb] Hbs]. split; [done|].
      intros b' Hb'. apply elem_of_cons in Hb' as [->|Hb']; auto.
    + intros [-> H]. repeat split.
      * apply H. left.
      * intros b' Hb'. apply H. by right.
Qed.

Lemma is_problem_unlocked_step_true problem solved bundle :
  is_problem_unlocked_step problem solved true bundle = true ↔
  ∀ deps rule,
    p_sanitized_name problem ∈ b_problems bundle →
    b_dependencies_enabled bundle = true →
    b_dependencies bundle = Some deps →
    deps !! p_sanitized_name problem = Some rule →
    threshold rule ≤ weightsum rule solved.
Proof.
  unfold is_problem_unlocked_step. split.
  - intros H deps rule Hin Hen Hdeps Hrule.
    rewrite bool_decide_eq_true_2, Hdeps, Hen, Hrule in H by done.
    destruct (Z.ltb_spec (weightsum rule solved) (threshold rule)); [done | lia].
  - intros H. case_bool_decide as Hin; [|done].
    destruct (b_dependencies bundle) as [deps|] eqn:Hdeps; [|done].
    destruct (b_dependencies_enabled bundle) eqn:Hen; [|done].
    destruct (deps !! p_sanitized_name problem) as [rule|] eqn:Hrule; [|done].
    specialize (H deps rule Hin eq_refl eq_refl Hrule).
    destruct (Z.ltb_spec (weightsum rule solved) (threshold rule)); [lia | done].
Qed.

(** C1. is_problem_unlocked(P, S) is true exactly when every bundle that
    lists P's sanitized_name, has dependencies_enabled set and defines a
    rule for P has the weight of S under that rule (a solved problem
    missing from the weightmap counts 0) at or above the rule's threshold.
    A problem with no applicable rule is therefore unlocked, and under the
    rule {A:1, B:2} with threshold 2 problem C is locked for {} and {A} and
    unlocked for {B} and {A, B}. *)
Theorem is_problem_unlocked_spec :
  (∀ w problem solved,
     is_problem_unlocked w problem solved = true ↔
     ∀ bundle deps rule,
       bundle ∈ get_all_bundles w →
       p_sanitized_name problem ∈ b_problems bundle →
       b_dependencies_enabled bundle = true →
       b_dependencies bundle = Some deps →
       deps !! p_sanitized_name problem = Some rule →
       threshold rule ≤ weightsum rule solved)
  ∧ (∀ rule, weightsum rule [] = 0)
  ∧ (∀ rule p solved,
       weightsum rule (p :: solved) =
       default 0 (weightmap rule !! p_sanitized_name (v_problem p))
       + weightsum rule solved)
  ∧ (∀ w problem solved,
       (∀ bundle deps,
          bundle ∈ get_all_bundles w →
          p_sanitized_name problem ∈ b_problems bundle →
          b_dependencies_enabled bundle = true →
          b_dependencies bundle = Some deps →
          deps !! p_sanitized_name problem = None) →
       is_problem_unlocked w problem solved = true)
  ∧ is_problem_unlocked world_ABC problem_C [] = false
  ∧ is_problem_unlocked world_ABC problem_C [solved_view problem_A] = false
  ∧ is_problem_unlocked world_ABC problem_C [solved_view problem_B] = true
  ∧ is_problem_unlocked world_ABC problem_C
      [solved_view problem_A; solved_view problem_B] = true.
Proof.
  assert (Hiff : ∀ w problem solved,
     is_problem_unlocked w problem solved = true ↔
     ∀ bundle deps rule,
       bundle ∈ get_all_bundles w →
       p_sanitized_name problem ∈ b_problems bundle →
       b_dependencies_enabled bundle = true →
       b_dependencies bundle = Some deps →
       deps !! p_sanitized_name problem = Some rule →
       threshold rule ≤ weightsum rule solved).
  { intros w problem solved. unfold is_problem_unlocked.
    rewrite is_problem_unlocked_foldl. split.
    - intros [_ H] bundle deps rule Hb. revert deps rule.
      apply is_problem_unlocked_step_true. by apply H.
    - intros H. split; [done|]. intros bundle Hb.
      apply is_problem_unlocked_step_true. intros deps rule. by apply H. }
  split; [exact Hiff|].
  split; [reflexivity|].
  split; [exact weightsum_cons|].
  split.
  { intros w problem solved Hnone. apply Hiff.
    intros bundle deps rule Hb Hin Hen Hdeps Hrule.
    rewrite (Hnone bundle deps Hb Hin Hen Hdeps) in Hrule. discriminate. }
  repeat split; vm_compute; reflexivity.
Qed.

(** ** Collections: first match and single update *)

Lemma find_one_Some {A} (matching : A -> bool) (c : list A) (a : A) :
  find_one matching c = Some a → a ∈ c ∧ matching a = true.
Proof.
  induction c as [|x c IH]; simpl; [done|].
  destruct (matching x) eqn:Hx.
  - intros [= <-]. split; [left | done].
  - intros H. destruct (IH H). split; [by right | done].
Qed.

Lemma find_one_None {A} (matching : A -> bool) (c : list A) :
  find_one matching c = None ↔ ∀ a, a ∈ c → matching a = false.
Proof.
  induction c as [|x c IH]; simpl.
  - split; [|done]. intros _ a Ha. inversion Ha.
  - destruct (matching x) eqn:Hx.
    + split; [done|]. intros H. specialize (H x (list_elem_of_here _ _)). congruence.
    + rewrite IH. split.
      * intros H a Ha. apply elem_of_cons in Ha as [->|Ha]; auto.
      * intros H a Ha. apply H. by right.
Qed.

Lemma find_one_app_None {A} (matching : A -> bool) (c : list A) (a : A) :
  find_one matching c = None →
  find_one matching (c ++ [a]) = if matching a then Some a else None.
Proof.
  induction c as [|x c IH]; simpl; [done|].
  destruct (matching x); [done | exact IH].
Qed.

(** After a single update that keeps the document matching, the first
    match is the updated document. *)
Lemma find_one_update_one {A} (matching : A -> bool) (f : A -> A) (c : list A) (a : A) :
  find_one matching c = Some a → matching (f a) = true →
  find_one matching (update_one matching f c) = Some (f a).
Proof.
  induction c as [|x c IH]; simpl; [done|].
  destruct (matching x) eqn:Hx.
  - intros [= <-] Hf. simpl. by rewrite Hf.
  - intros H Hf. simpl. rewrite Hx. by apply IH.
Qed.

Lemma update_one_None {A} (matching : A -> bool) (f : A -> A) (c : list A) :
  find_one matching c = None → update_one matching f c = c.
Proof.
  induction c as [|x c IH]; simpl; [done|].
  destruct (matching x); [done|]. intros H. by rewrite IH.
Qed.

(** A single update leaves the first match of any filter that the updated
    document and its replacement both fail. *)
Lemma find_one_update_one_other {A} (matching other : A -> bool) (f : A -> A)
    (c : list A) :
  (∀ a, matching a = true → other a = false ∧ other (f a) = false) →
  find_one other (update_one matching f c) = find_one other c.
Proof.
  intros H. induction c as [|x c IH]; simpl; [done|].
  destruct (matching x) eqn:Hx.
  - destruct (H x Hx) as [H1 H2]. simpl. by rewrite H1, H2.
  - simpl. by rewrite IH.
Qed.

Lemma str_eqb_eq (s t : string) : str_eqb s t = true ↔ s = t.
Proof. unfold str_eqb. apply bool_decide_eq_true. Qed.

Lemma str_eqb_refl (s : string) : str_eqb s s = true.
Proof. by apply str_eqb_eq. Qed.

Lemma str_eqb_neq (s t : string) : str_eqb s t = false ↔ s ≠ t.
Proof. unfold str_eqb. apply bool_decide_eq_false. Qed.

(** ** Clearing submissions by pid *)

Lemma dict_update_seq_pid (swap : bool) (pid : string) (q : gmap string value) :
  dict_update_seq (py_set2 swap "pid" pid) q = inl ValueError.
Proof.
  unfold py_set2. case_bool_decide; [done|].
  destruct swap; [|done].
  destruct pid as [|a [|b [|c pid]]]; done.
Qed.

(** C9. clear_submissions with a pid, with or without uid and tid, raises
    (a ValueError, from dict.update on the set {"pid", pid}) before the
    removal is issued: the ledger, and the whole database, is as it was. *)
Theorem clear_submissions_pid_raises (swap : bool) (uid tid : option string)
    (pid : string) (w : World) :
  clear_submissions swap uid tid (Some pid) w = (Raise ValueError, w).
Proof.
  unfold clear_submissions, bind, read.
  by rewrite dict_update_seq_pid.
Qed.

(** ** Instance assignment *)

(** The world after a successful assignment of [instance] to [team]. *)
Lemma assign_instance_to_team_cases (pid tid : string) (reassign : bool) (w : World) :
  (∃ e, assign_instance_to_team pid tid reassign w = (Raise e, w)) ∨
  (∃ team problem instance n,
     get_team w tid = inr team ∧
     get_problem w (Some pid) None true = inr problem ∧
     (reassign = true ∨ t_instances team !! pid = None) ∧
     0 ≤ n ∧
     available_instances w team problem !! Z.to_nat n = Some instance ∧
     assign_instance_to_team pid tid reassign w =
     (Ret n,
      set_teams (update_one (λ t, str_eqb (t_tid t) tid)
                            (λ _, set_instance pid (i_iid instance) team)
                            (teams w))
                (set_draws (tl (draws w)) w))).
Proof.
  unfold assign_instance_to_team, bind, read, raise, ret, randint.
  destruct (get_team w tid) as [e|team] eqn:Hteam; [left; eauto|].
  destruct (get_problem w (Some pid) None true) as [e|problem] eqn:Hproblem;
    [left; eauto|].
  destruct (bool_decide (is_Some (t_instances team !! pid)) && negb reassign)
    eqn:Hguard; [left; eauto|].
  destruct (available_instances w team problem) as [|first rest] eqn:Hav.
  { destruct (enable_sharding w); left; eauto. }
  right.
  set (n := 0 + Z.of_nat (hd 0%nat (draws w))
                mod (Z.of_nat (length (first :: rest)) - 1 - 0 + 1)).
  assert (Hn : 0 ≤ n < Z.of_nat (length (first :: rest))).
  { unfold n. simpl length.
    pose proof (Z.mod_pos_bound (Z.of_nat (hd 0%nat (draws w)))
                  (Z.of_nat (S (length rest)) - 1 - 0 + 1)) as Hb.
    lia. }
  assert (Hlookup : is_Some ((first :: rest) !! Z.to_nat n)).
  { apply lookup_lt_is_Some. lia. }
  destruct Hlookup as [instance Hinstance].
  exists team, problem, instance, n.
  split; [done|]. split; [done|]. split.
  { apply andb_false_iff in Hguard as [Hguard|Hguard].
    - right. apply bool_decide_eq_false in Hguard.
      by apply eq_None_not_Some.
    - left. by destruct reassign. }
  split; [lia|]. split; [by rewrite Hav|].
  assert (Hnth : nth (Z.to_nat n) (first :: rest) first = instance)
    by (by apply nth_lookup_Some with (d := first) in Hinstance).
  simpl in *. by rewrite Hnth.
Qed.

(** C4 at a failing input.  With two instances and the draw 1, the
    assignment commits the iid of the second instance to the team under the
    pid, and what it returns is the index 1, not that iid. *)
Theorem assign_instance_to_team_returns_index :
  ∃ w' team,
    assign_instance_to_team "pP" "tT" false world_P = (Ret 1, w') ∧
    get_team w' "tT" = inr team ∧
    t_instances team !! "pP" = Some "iid-1" ∧
    PInt 1 ≠ PStr "iid-1".
Proof.
  do 2 eexists. split; [vm_compute; reflexivity|].
  split; [vm_compute; reflexivity|].
  split; [vm_compute; reflexivity | discriminate].
Qed.

(** ** What an assignment leaves alone *)

Lemma frame_refl (w : World) : frame w w.
Proof. by repeat split. Qed.

Lemma frame_trans (w1 w2 w3 : World) : frame w1 w2 → frame w2 w3 → frame w1 w3.
Proof.
  unfold frame. intros (?&?&?&?&?&?&?&?) (?&?&?&?&?&?&?&?).
  repeat split; congruence.
Qed.

Lemma touches_refl (tid : string) (w : World) : touches tid w w.
Proof. split; [apply frame_refl|]. split; eauto. Qed.

Lemma touches_trans (tid : string) (w1 w2 w3 : World) :
  touches tid w1 w2 → touches tid w2 w3 → touches tid w1 w3.
Proof.
  intros (F1 & O1 & S1) (F2 & O2 & S2). split; [by eapply frame_trans|]. split.
  - intros tid' Hne. by rewrite O2, O1.
  - intros t Ht. destruct (S1 t Ht) as [t' Ht']. eauto.
Qed.

Lemma get_problem_frame (w w' : World) pid name show_disabled :
  frame w w' →
  get_problem w' pid name show_disabled = get_problem w pid name show_disabled.
Proof. intros (Hp & _). unfold get_problem. by rewrite Hp. Qed.

Lemma get_team_Some (w : World) (tid : string) (team : Team) :
  get_team w tid = inr team → team ∈ teams w ∧ t_tid team = tid.
Proof.
  unfold get_team.
  destruct (find_one _ (teams w)) as [t|] eqn:Hfind; [|done].
  intros [= <-]. apply find_one_Some in Hfind as [Hin Heq].
  split; [done | by apply str_eqb_eq].
Qed.

(** Reading a team back after it was written. *)
Lemma get_team_update (w : World) (tid : string) (team team' : Team) :
  get_team w tid = inr team → t_tid team' = tid →
  get_team (set_teams (update_one (λ t, str_eqb (t_tid t) tid) (λ _, team')
                                  (teams w)) w) tid = inr team'.
Proof.
  unfold get_team. simpl.
  destruct (find_one _ (teams w)) as [t|] eqn:Hfind; [|done].
  intros _ Htid.
  erewrite (find_one_update_one _ (λ _, team')); [done | exact Hfind |].
  by apply str_eqb_eq.
Qed.

Lemma get_team_update_other (w : World) (tid tid' : string) (team' : Team) :
  tid' ≠ tid → t_tid team' = tid →
  get_team (set_teams (update_one (λ t, str_eqb (t_tid t) tid) (λ _, team')
                                  (teams w)) w) tid' = get_team w tid'.
Proof.
  intros Hne Htid. unfold get_team. simpl.
  rewrite find_one_update_one_other; [done|].
  intros a Ha. apply str_eqb_eq in Ha.
  split; apply str_eqb_neq; congruence.
Qed.

Lemma set_draws_get_team (w : World) (ds : list nat) (tid : string) :
  get_team (set_draws ds w) tid = get_team w tid.
Proof. reflexivity. Qed.

(** An assignment that raises writes nothing; one that returns has
    written the team [tid] and taken one draw. *)
Lemma assign_instance_to_team_inv pid tid reassign w r w' :
  assign_instance_to_team pid tid reassign w = (r, w') →
  (∃ e, r = Raise e ∧ w' = w) ∨
  (∃ team problem instance n,
     r = Ret n ∧
     get_team w tid = inr team ∧
     get_problem w (Some pid) None true = inr problem ∧
     (reassign = true ∨ t_instances team !! pid = None) ∧
     instance ∈ p_instances problem ∧
     get_team w' tid = inr (set_instance pid (i_iid instance) team) ∧
     draws w' = tl (draws w) ∧
     touches tid w w').
Proof.
  intros Hrun.
  destruct (assign_instance_to_team_cases pid tid reassign w)
    as [[e He] | (team & problem & instance & n & Ht & Hp & Hre & Hn & Hav & He)];
    rewrite He in Hrun; injection Hrun as <- <-.
  - left. eauto.
  - right. exists team, problem, instance, n.
    destruct (get_team_Some _ _ _ Ht) as [_ Htid].
    split; [done|]. split; [done|]. split; [done|]. split; [done|]. split.
    { apply list_elem_of_lookup_2 in Hav. unfold available_instances in Hav.
      destruct (enable_sharding w); [|done].
      apply list_elem_of_In, filter_In in Hav as [Hav _].
      by apply list_elem_of_In. }
    split; [by eapply (get_team_update (set_draws _ w)); [exact Ht|]|].
    split; [done|].
    split; [by repeat split|]. split.
    + intros tid' Hne. by apply (get_team_update_other (set_draws _ w)).
    + intros t _. eexists.
      by eapply (get_team_update (set_draws _ w)); [exact Ht|].
Qed.

(** ** Instance resolution *)

(** An index is never equal to an iid: the search for the value returned
    by assign_instance_to_team finds nothing. *)
Lemma find_one_iid_PInt (n : Z) (l : list Instance) :
  find_one (λ i, bool_decide (PStr (i_iid i) = PInt n)) l = None.
Proof. apply find_one_None. intros a _. by apply bool_decide_eq_false. Qed.

Lemma find_one_iid_elem (instance : Instance) (l : list Instance) :
  instance ∈ l →
  ∃ found, find_one (λ i, bool_decide (PStr (i_iid i) = PStr (i_iid instance))) l
           = Some found.
Proof.
  intros Hin.
  destruct (find_one _ l) as [found|] eqn:Hfind; [eauto|].
  rewrite find_one_None in Hfind. specialize (Hfind instance Hin).
  by apply bool_decide_eq_false in Hfind.
Qed.

Lemma get_instance_data_unfold (fuel : nat) (pid tid : string) :
  get_instance_data (S fuel) pid tid =
  (team <- read (fun w => get_team w tid) ;;
   problem <- read (fun w => get_problem w (Some pid) None true) ;;
   iid <- match t_instances team !! pid with
          | None => n <- assign_instance_to_team pid tid false ;; ret (PInt n)
          | Some i => ret (PStr i)
          end ;;
   match find_one (fun instance => bool_decide (PStr (i_iid instance) = iid))
                  (p_instances problem) with
   | Some instance => ret instance
   | None =>
       assign_instance_to_team pid tid true ;;;
       get_instance_data fuel pid tid
   end).
Proof. reflexivity. Qed.

(** With a committed instance that is still deployed, resolution reads
    and returns it. *)
Lemma get_instance_data_committed fuel pid tid w instance :
  committed w pid tid instance →
  get_instance_data (S fuel) pid tid w = (Ret instance, w).
Proof.
  intros (team & problem & iid & Ht & Hp & Hi & Hfind).
  rewrite get_instance_data_unfold. unfold bind, read, ret.
  by rewrite Ht, Hp, Hi, Hfind.
Qed.

(** A successful assignment commits an instance that resolution finds. *)
Lemma assign_instance_to_team_committed pid tid reassign w n w' :
  assign_instance_to_team pid tid reassign w = (Ret n, w') →
  ∃ instance, committed w' pid tid instance.
Proof.
  intros Hrun. apply assign_instance_to_team_inv in Hrun
    as [(e & [=] & _) | (team & problem & instance & n' & _ & Ht & Hp & _ & Hin & Ht' & _ & Htouch)].
  destruct (find_one_iid_elem instance _ Hin) as [found Hfound].
  exists found, (set_instance pid (i_iid instance) team), problem, (i_iid instance).
  split; [done|]. split.
  { destruct Htouch as [F _]. by rewrite (get_problem_frame _ _ _ _ _ F). }
  split; [|done]. simpl. apply lookup_insert_eq.
Qed.

(** The forced reassignment and the call that follows it: either the
    reassignment raises, or the call returns the instance just committed
    without another miss. *)
Lemma reassign_then_resolve fuel pid tid w r w' :
  (assign_instance_to_team pid tid true ;;; get_instance_data (S fuel) pid tid) w
  = (r, w') →
  (∃ e, r = Raise e ∧ w' = w) ∨
  (∃ instance, r = Ret instance ∧ committed w' pid tid instance ∧
               touches tid w w' ∧ draws w' = tl (draws w)).
Proof.
  unfold bind.
  destruct (assign_instance_to_team pid tid true w) as [[n|e|] w1] eqn:Hassign.
  - destruct (assign_instance_to_team_committed _ _ _ _ _ _ Hassign) as [instance Hc].
    rewrite (get_instance_data_committed _ _ _ _ _ Hc). intros [= <- <-].
    right. exists instance. split; [done|]. split; [done|].
    apply assign_instance_to_team_inv in Hassign
      as [(e & [=] & _) | (?&?&?&?&_&_&_&_&_&_&Hd&Ht)]. done.
  - intros [= <- <-]. left.
    apply assign_instance_to_team_inv in Hassign
      as [(e' & _ & ->) | (?&?&?&?&[=]&_)]. eauto.
  - apply assign_instance_to_team_inv in Hassign
      as [(e' & [=] & _) | (?&?&?&?&[=]&_)].
Qed.

Lemma reassign_then_resolve_fuel fuel pid tid w :
  (assign_instance_to_team pid tid true ;;; get_instance_data (S fuel) pid tid) w
  = (assign_instance_to_team pid tid true ;;; get_instance_data 1 pid tid) w.
Proof.
  unfold bind.
  destruct (assign_instance_to_team pid tid true w) as [[n|e|] w1] eqn:Hassign;
    [|done|done].
  destruct (assign_instance_to_team_committed _ _ _ _ _ _ Hassign) as [instance Hc].
  by rewrite !(get_instance_data_committed _ _ _ _ _ Hc).
Qed.

Lemma tl_drop {A} (l : list A) : tl l = drop 1 l.
Proof. by destruct l. Qed.

Lemma tl_tl_drop {A} (l : list A) : tl (tl l) = drop 2 l.
Proof. by destruct l as [|? [|? ?]]. Qed.

(** Two calls are all that resolution ever makes when nothing else
    writes to the database. *)
Lemma get_instance_data_fuel fuel pid tid w :
  get_instance_data (S (S fuel)) pid tid w = get_instance_data 2 pid tid w.
Proof.
  rewrite (get_instance_data_unfold (S fuel)), (get_instance_data_unfold 1).
  unfold bind, read, ret.
  destruct (get_team w tid) as [e|team]; [done|].
  destruct (get_problem w (Some pid) None true) as [e|problem]; [done|].
  destruct (t_instances team !! pid) as [iid|].
  - destruct (find_one _ (p_instances problem)); [done|].
    exact (reassign_then_resolve_fuel fuel pid tid w).
  - destruct (assign_instance_to_team pid tid false w) as [[n|e|] w1]; [|done|done].
    rewrite find_one_iid_PInt.
    exact (reassign_then_resolve_fuel fuel pid tid w1).
Qed.

Lemma get_instance_data_inv fuel pid tid w r w' :
  get_instance_data (S (S fuel)) pid tid w = (r, w') →
  touches tid w w' ∧
  (∃ k, (k ≤ 2)%nat ∧ draws w' = drop k (draws w) ∧
        ∀ team, get_team w tid = inr team →
                is_Some (t_instances team !! pid) → (k ≤ 1)%nat) ∧
  ((∃ e, r = Raise e) ∨
   (∃ instance, r = Ret instance ∧ committed w' pid tid instance)).
Proof.
  rewrite get_instance_data_unfold.
  unfold bind, read, ret.
  destruct (get_team w tid) as [e|team] eqn:Ht.
  { intros [= <- <-]. split; [apply touches_refl|]. split; [|eauto].
    exists 0%nat. split; [lia|]. split; [done|]. intros; lia. }
  destruct (get_problem w (Some pid) None true) as [e|problem] eqn:Hp.
  { intros [= <- <-]. split; [apply touches_refl|]. split; [|eauto].
    exists 0%nat. split; [lia|]. split; [done|]. intros; lia. }
  destruct (t_instances team !! pid) as [iid|] eqn:Hi.
  - destruct (find_one _ (p_instances problem)) as [instance|] eqn:Hfind.
    + intros [= <- <-]. split; [apply touches_refl|]. split.
      * exists 0%nat. split; [lia|]. split; [done|]. intros; lia.
      * right. exists instance. split; [done|].
        by exists team, problem, iid.
    + intros Hrun.
      destruct (reassign_then_resolve fuel pid tid w r w' Hrun)
        as [(e & -> & ->) | (instance & -> & Hc & Htouch & Hd)].
      * split; [apply touches_refl|]. split; [|eauto].
        exists 0%nat. split; [lia|]. split; [done|]. intros; lia.
      * split; [done|]. split; [|eauto].
        exists 1%nat. split; [lia|]. split; [by rewrite Hd, tl_drop|]. intros; lia.
  - destruct (assign_instance_to_team pid tid false w) as [[n|e|] w1] eqn:Hassign.
    + rewrite find_one_iid_PInt.
      apply assign_instance_to_team_inv in Hassign
        as [(e & [=] & _) | (?&?&?&?&_&_&_&_&_&_&Hd1&Ht1)].
      intros Hrun.
      destruct (reassign_then_resolve fuel pid tid w1 r w' Hrun)
        as [(e & -> & ->) | (instance & -> & Hc & Htouch & Hd)].
      * split; [done|]. split; [|eauto].
        exists 1%nat. split; [lia|]. split; [by rewrite Hd1, tl_drop|].
        intros team' [= <-] [? Hsome]. congruence.
      * split; [by eapply touches_trans|]. split; [|eauto].
        exists 2%nat. split; [lia|]. split; [by rewrite Hd, Hd1, tl_tl_drop|].
        intros team' [= <-] [? Hsome]. congruence.
    + apply assign_instance_to_team_inv in Hassign
        as [(e' & _ & ->) | (?&?&?&?&[=]&_)].
      intros [= <- <-]. split; [apply touches_refl|]. split; [|eauto].
      exists 0%nat. split; [lia|]. split; [done|]. intros; lia.
    + apply assign_instance_to_team_inv in Hassign
        as [(e' & [=] & _) | (?&?&?&?&[=]&_)].
Qed.

Lemma get_instance_data_among_nil fuel pid tid w :
  get_instance_data_among [] fuel pid tid w = get_instance_data fuel pid tid w.
Proof.
  revert w. induction fuel as [|fuel IH]; intros w; [done|].
  rewrite get_instance_data_unfold. simpl. unfold bind, read, ret.
  destruct (get_team w tid) as [e|team]; [done|].
  destruct (get_problem w (Some pid) None true) as [e|problem]; [done|].
  assert (Hmiss : ∀ w1,
    match assign_instance_to_team pid tid true w1 with
    | (Ret _, w2) => get_instance_data_among [] fuel pid tid w2
    | (Raise e, w2) => (Raise e, w2)
    | (OutOfFuel, w2) => (OutOfFuel, w2)
    end =
    match assign_instance_to_team pid tid true w1 with
    | (Ret _, w2) => get_instance_data fuel pid tid w2
    | (Raise e, w2) => (Raise e, w2)
    | (OutOfFuel, w2) => (OutOfFuel, w2)
    end).
  { intros w1. destruct (assign_instance_to_team pid tid true w1) as [[?|?|] w2];
      [apply IH | done | done]. }
  destruct (t_instances team !! pid) as [iid|].
  - destruct (find_one _ (p_instances problem)); [done | apply Hmiss].
  - destruct (assign_instance_to_team pid tid false w) as [[n|e|] w1]; [|done|done].
    rewrite find_one_iid_PInt. apply Hmiss.
Qed.

(** C5, as stated, fails.  The committed iid is gone; the instance list
    is republished after each forced reassignment.  The call and one retry
    are not enough: the retried lookup misses, and the code reassigns and
    calls itself again instead of raising.  Given enough calls it returns
    an instance after three forced reassignments (three draws). *)
Lemma get_instance_data_second_miss_recurses :
  let others := [republish "pP" [instance_2]; republish "pP" [instance_3]] in
  draws world_stale = [0%nat; 0%nat; 0%nat] ∧
  (get_instance_data_among others 2 "pP" "tT" world_stale).1 = OutOfFuel ∧
  (get_instance_data_among others 3 "pP" "tT" world_stale).1 = OutOfFuel ∧
  ∃ w', get_instance_data_among others 4 "pP" "tT" world_stale
        = (Ret instance_3, w') ∧
        draws w' = [].
Proof.
  split; [reflexivity|]. split; [vm_compute; reflexivity|].
  split; [vm_compute; reflexivity|].
  eexists. split; vm_compute; reflexivity.
Qed.

(** C5, amended.  Resolution has no retry budget and no failure of its
    own.  Whenever the iid committed to the team is not among the
    instances of the problem, at the first call or at any retry and
    whatever other requests have written, the code reassigns with
    reassign=true; if that raises, resolution raises the same, and if it
    returns the code calls itself again, on the database as it is by then.
    When nothing else writes to the database during the call,
    get_instance_data needs the call and one retry at most, whatever bound
    it is given beyond that; it then ends in a Python outcome, and an
    instance it returns is the one committed to the team in the database it
    leaves.  It makes at most two assignments, hence at most two draws, and
    at most one, the forced one, when the team already had an iid for the
    pid. *)
Theorem get_instance_data_one_retry (fuel : nat) (pid tid : string) (w : World) :
  (∀ others team problem iid,
     get_team w tid = inr team →
     get_problem w (Some pid) None true = inr problem →
     t_instances team !! pid = Some iid →
     (∀ instance, instance ∈ p_instances problem → i_iid instance ≠ iid) →
     get_instance_data_among others (S fuel) pid tid w =
     match assign_instance_to_team pid tid true w with
     | (Ret _, w1) =>
         get_instance_data_among (tl others) fuel pid tid
                                 (hd (λ w, w) others w1)
     | (Raise e, w1) => (Raise e, w1)
     | (OutOfFuel, w1) => (OutOfFuel, w1)
     end) ∧
  get_instance_data (S (S fuel)) pid tid w = get_instance_data 2 pid tid w ∧
  get_instance_data_among [] (S (S fuel)) pid tid w = get_instance_data 2 pid tid w ∧
  ∃ r w',
    get_instance_data 2 pid tid w = (r, w') ∧
    r ≠ OutOfFuel ∧
    (∀ instance, r = Ret instance → committed w' pid tid instance) ∧
    ∃ k, (k ≤ 2)%nat ∧ draws w' = drop k (draws w) ∧
         ∀ team, get_team w tid = inr team →
                 is_Some (t_instances team !! pid) → (k ≤ 1)%nat.
Proof.
  split.
  { intros others team problem iid Hteam Hproblem Hiid Hmiss.
    cbn [get_instance_data_among]. unfold bind at 1, read at 1.
    rewrite Hteam. unfold bind at 1, read at 1. rewrite Hproblem, Hiid.
    unfold bind at 1, ret at 1.
    assert (find_one (λ instance, bool_decide (PStr (i_iid instance) = PStr iid))
                     (p_instances problem) = None) as ->.
    { apply find_one_None. intros instance Hin. apply bool_decide_eq_false_2.
      intros [= Heq]. by apply (Hmiss instance). }
    unfold bind.
    by destruct (assign_instance_to_team pid tid true w) as [[n|e|] w1]. }
  split; [apply get_instance_data_fuel|].
  split; [rewrite get_instance_data_among_nil; apply get_instance_data_fuel|].
  destruct (get_instance_data 2 pid tid w) as [r w'] eqn:Hrun.
  exists r, w'. split; [done|].
  destruct (get_instance_data_inv 0 pid tid w r w' Hrun)
    as (_ & Hk & [(e & ->) | (instance & -> & Hc)]).
  - split; [done|]. split; [done | exact Hk].
  - split; [done|]. split; [|exact Hk]. by intros ? [= <-].
Qed.

(** On the stale team: the first lookup misses; after the forced
    reassignment and a republication that retires the instance just
    committed, the retry is made on the database so left. *)
Lemma get_instance_data_one_retry_witness :
  get_instance_data_among [republish "pP" [instance_2]] 2 "pP" "tT" world_stale
  = get_instance_data_among [] 1 "pP" "tT"
      (republish "pP" [instance_2]
                 (assign_instance_to_team "pP" "tT" true world_stale).2).
Proof.
  destruct (get_instance_data_one_retry 1 "pP" "tT" world_stale) as [Hmiss _].
  rewrite (Hmiss [republish "pP" [instance_2]] team_stale problem_P "iid-old");
    [reflexivity | reflexivity | reflexivity | reflexivity |].
  intros instance Hin.
  apply elem_of_cons in Hin as [->|Hin]; [discriminate|].
  apply list_elem_of_singleton in Hin as ->. discriminate.
Defined.

(** ** Unlocked pids *)

Lemma solved_loop_frame w w' show_disabled subs pids result :
  frame w w' →
  solved_loop w' show_disabled subs pids result
  = solved_loop w show_disabled subs pids result.
Proof.
  intros F. revert pids result.
  induction subs as [|s subs IH]; intros pids result; simpl; [done|].
  rewrite (get_problem_frame _ _ _ _ _ F).
  case_bool_decide; [apply IH|].
  destruct (get_problem w (Some (s_pid s)) None true); [done | apply IH].
Qed.

(** The solved problems of a team do not depend on its instance map. *)
Lemma get_solved_problems_touches tid w w' category show_disabled team :
  touches tid w w' → get_team w tid = inr team →
  get_solved_problems w' tid category show_disabled
  = get_solved_problems w tid category show_disabled.
Proof.
  intros (F & _ & Hsame) Ht. unfold get_solved_problems.
  destruct (Hsame team Ht) as [team' Ht']. rewrite Ht, Ht'.
  apply get_team_Some in Ht as [_ Htid], Ht' as [_ Htid'].
  rewrite Htid, Htid', (solved_loop_frame _ _ _ _ _ _ F).
  destruct F as (_ & _ & Hu & Hs & _).
  unfold get_team_uids, get_submissions. by rewrite Hu, Hs.
Qed.

Lemma unlocked_among_frame w w' solved category show_disabled :
  frame w w' →
  unlocked_among w' solved (get_all_problems w' category show_disabled)
  = unlocked_among w solved (get_all_problems w category show_disabled).
Proof.
  intros (Hp & Hb & _).
  unfold unlocked_among, get_all_problems, is_problem_unlocked, get_all_bundles.
  by rewrite Hp, Hb.
Qed.

(** The loop of get_unlocked_pids that assigns the missing instances.
    [stale] is the team document read before the loop, [team] the one in
    the database when the loop starts. *)
Lemma assign_missing_loop (unlocked : list string) (stale team : Team)
    (tid : string) (w : World) r w' :
  get_team w tid = inr team →
  t_instances stale ⊆ t_instances team →
  for_each unlocked
    (fun pid =>
       if bool_decide (is_Some (t_instances stale !! pid)) then ret tt
       else assign_instance_to_team pid tid false ;;; ret tt) w = (r, w') →
  touches tid w w' ∧
  ∃ team', get_team w' tid = inr team' ∧
           t_instances team ⊆ t_instances team' ∧
           (r = Ret tt → ∀ pid, pid ∈ unlocked → is_Some (t_instances team' !! pid)).
Proof.
  revert team w. induction unlocked as [|pid unlocked IH]; intros team w Ht Hsub; simpl.
  - intros [= <- <-]. split; [apply touches_refl|]. exists team.
    split; [done|]. split; [done|]. intros _ pid Hpid. inversion Hpid.
  - unfold bind at 1. case_bool_decide as Hstale.
    + unfold ret at 1. intros Hrun.
      destruct (IH team w Ht Hsub Hrun) as (Htouch & team' & Ht' & Hsub' & Hall).
      split; [done|]. exists team'. split; [done|]. split; [done|].
      intros Hr p Hp. apply elem_of_cons in Hp as [->|Hp]; [|by apply Hall].
      eapply lookup_weaken_is_Some; [|exact Hsub'].
      eapply lookup_weaken_is_Some; [exact Hstale | exact Hsub].
    + unfold bind at 1.
      destruct (assign_instance_to_team pid tid false w) as [[n|e|] w1] eqn:Hassign;
        apply assign_instance_to_team_inv in Hassign
          as [(e' & Hr & Hw) | (team1 & problem & instance & n' & Hr & Ht1 & _ & Hre & _ & Ht1' & _ & Htouch1)];
        try discriminate.
      * unfold ret at 1. intros Hrun.
        rewrite Ht in Ht1. injection Ht1 as <-.
        destruct Hre as [[=]|Hnone].
        assert (Hsub1 : t_instances stale ⊆
                        t_instances (set_instance pid (i_iid instance) team)).
        { etransitivity; [exact Hsub|]. simpl. by apply insert_subseteq. }
        destruct (IH _ w1 Ht1' Hsub1 Hrun) as (Htouch & team' & Ht' & Hsub' & Hall).
        split; [by eapply touches_trans|]. exists team'. split; [done|]. split.
        { etransitivity; [|exact Hsub']. simpl. by apply insert_subseteq. }
        intros Hr' p Hp. apply elem_of_cons in Hp as [->|Hp]; [|by apply Hall].
        eapply lookup_weaken_is_Some; [|exact Hsub'].
        simpl. rewrite lookup_insert_eq. eauto.
      * intros [= <- <-]. subst w1. split; [apply touches_refl|].
        exists team. split; [done|]. split; [done|]. intros [=].
Qed.

(** When the team has an instance for every pid, the loop writes nothing. *)
Lemma assign_missing_loop_done (unlocked : list string) (team : Team)
    (tid : string) (w : World) :
  (∀ pid, pid ∈ unlocked → is_Some (t_instances team !! pid)) →
  for_each unlocked
    (fun pid =>
       if bool_decide (is_Some (t_instances team !! pid)) then ret tt
       else assign_instance_to_team pid tid false ;;; ret tt) w = (Ret tt, w).
Proof.
  induction unlocked as [|pid unlocked IH]; intros Hall; simpl; [done|].
  unfold bind at 1. rewrite bool_decide_eq_true_2 by (apply Hall; left).
  unfold ret at 1. apply IH. intros p Hp. apply Hall. by right.
Qed.

Lemma get_unlocked_pids_unfold tid category w :
  get_unlocked_pids tid category w =
  match get_solved_problems w tid None false with
  | inl e => (Raise e, w)
  | inr solved =>
      match get_team w tid with
      | inl e => (Raise e, w)
      | inr team =>
          let unlocked :=
            unlocked_among w solved (get_all_problems w category false) in
          match
            for_each unlocked
              (fun pid =>
                 if bool_decide (is_Some (t_instances team !! pid)) then ret tt
                 else assign_instance_to_team pid tid false ;;; ret tt) w
          with
          | (Ret _, w') => (Ret unlocked, w')
          | (Raise e, w') => (Raise e, w')
          | (OutOfFuel, w') => (OutOfFuel, w')
          end
      end
  end.
Proof.
  unfold get_unlocked_pids. unfold bind at 1. unfold read at 1.
  destruct (get_solved_problems w tid None false); [done|].
  unfold bind at 1. unfold read at 1.
  destruct (get_team w tid); [done|].
  reflexivity.
Qed.

Lemma get_unlocked_pids_inv tid category w r w' :
  get_unlocked_pids tid category w = (r, w') →
  touches tid w w' ∧
  (∀ team, get_team w tid = inr team →
           ∃ team', get_team w' tid = inr team' ∧
                    t_instances team ⊆ t_instances team') ∧
  (∀ unlocked, r = Ret unlocked →
     ∃ solved team team',
       get_solved_problems w tid None false = inr solved ∧
       get_team w tid = inr team ∧
       get_team w' tid = inr team' ∧
       unlocked = unlocked_among w solved (get_all_problems w category false) ∧
       ∀ pid, pid ∈ unlocked → is_Some (t_instances team' !! pid)).
Proof.
  unfold get_unlocked_pids. unfold bind at 1. unfold read at 1.
  destruct (get_solved_problems w tid None false) as [e|solved] eqn:Hsolved.
  { intros [= <- <-]. split; [apply touches_refl|]. split; [|done].
    intros team Ht. exists team. by split. }
  unfold bind at 1. unfold read at 1.
  destruct (get_team w tid) as [e|team] eqn:Ht.
  { intros [= <- <-]. split; [apply touches_refl|]. split; done. }
  unfold bind at 1. unfold read at 1. unfold bind at 1.
  destruct (for_each _ _ w) as [[[]|e|] w1] eqn:Hloop;
    destruct (assign_missing_loop _ team team tid w _ _ Ht (reflexivity _) Hloop)
      as (Htouch & team' & Ht' & Hsub & Hall);
    intros [= <- <-]; (split; [done|]); split;
      try (intros ? [= <-]; by exists team'); try done.
  intros unlocked [= <-]. exists solved, team, team'.
  repeat split; try done. by apply Hall.
Qed.

(** C6. When get_unlocked_pids returns for a team, calling it again on
    the database it left returns the same pids and leaves that database
    exactly as it is, every team's instance map included.  The first call
    itself only adds to instance maps: whatever a team had committed for a
    pid before the call is what it has after it. *)
Theorem get_unlocked_pids_idempotent (tid : string) (category : option string)
    (w w1 : World) (unlocked : list string) :
  get_unlocked_pids tid category w = (Ret unlocked, w1) →
  get_unlocked_pids tid category w1 = (Ret unlocked, w1) ∧
  ∀ tid' team,
    get_team w tid' = inr team →
    ∃ team1, get_team w1 tid' = inr team1 ∧
             t_instances team ⊆ t_instances team1.
Proof.
  intros Hrun.
  destruct (get_unlocked_pids_inv _ _ _ _ _ Hrun) as (Htouch & Hgrow & Hret).
  destruct (Hret unlocked eq_refl) as (solved & team & team' & Hsolved & Ht & Ht' & Hl & Hall).
  split.
  - rewrite get_unlocked_pids_unfold.
    rewrite (get_solved_problems_touches _ _ _ _ _ _ Htouch Ht), Hsolved, Ht'.
    destruct Htouch as (F & _). cbv zeta.
    rewrite (unlocked_among_frame _ _ _ _ _ F), <- Hl.
    by rewrite (assign_missing_loop_done _ _ _ _ Hall).
  - intros tid' t Ht0. destruct (decide (tid' = tid)) as [->|Hne].
    + by apply Hgrow.
    + destruct Htouch as (_ & Hother & _). exists t. by rewrite Hother.
Qed.

Lemma get_unlocked_pids_idempotent_witness :
  ∃ w1, get_unlocked_pids "tT" None world_TU = (Ret ["pP"], w1) ∧
        get_unlocked_pids "tT" None w1 = (Ret ["pP"], w1) ∧
        ∃ team1, get_team w1 "tU" = inr team1 ∧
                 t_instances team_U ⊆ t_instances team1.
Proof.
  assert (Hrun : get_unlocked_pids "tT" None world_TU
                 = (Ret ["pP"], (get_unlocked_pids "tT" None world_TU).2))
    by (vm_compute; reflexivity).
  exists ((get_unlocked_pids "tT" None world_TU).2).
  split; [exact Hrun|].
  destruct (get_unlocked_pids_idempotent _ _ _ _ _ Hrun) as [Hagain Hkept].
  split; [exact Hagain|].
  apply Hkept. reflexivity.
Defined.

Lemma elem_of_sort_insert (p q : Problem) (l : list Problem) :
  q ∈ sort_insert p l ↔ q = p ∨ q ∈ l.
Proof.
  induction l as [|x l IH]; simpl.
  - rewrite list_elem_of_singleton. split; [auto | intros [?|H]; [done | inversion H]].
  - destruct (problem_leb p x).
    + apply elem_of_cons.
    + rewrite !elem_of_cons, IH. tauto.
Qed.

Lemma elem_of_sort_problems (q : Problem) (l : list Problem) :
  q ∈ sort_problems l ↔ q ∈ l.
Proof.
  induction l as [|x l IH]; simpl; [done|].
  by rewrite elem_of_sort_insert, elem_of_cons, IH.
Qed.

Lemma elem_of_get_all_problems w category show_disabled (p : Problem) :
  p ∈ get_all_problems w category show_disabled ↔
  p ∈ problems w ∧
  (∀ c, category = Some c → p_category p = c) ∧
  (show_disabled = true ∨ p_disabled p = false).
Proof.
  unfold get_all_problems.
  rewrite elem_of_sort_problems, list_elem_of_In, filter_In, <- list_elem_of_In.
  rewrite andb_true_iff, orb_true_iff, negb_true_iff.
  destruct category as [c|].
  - rewrite str_eqb_eq. split.
    + intros (? & ? & ?). split; [done|]. split; [|done]. by intros ? [= <-].
    + intros (? & Hc & ?). split; [done|]. split; [by apply Hc | done].
  - split.
    + intros (? & _ & ?). by repeat split.
    + intros (? & _ & ?). by repeat split.
Qed.

(** ** Filters on the ledger *)

Lemma matches_spec (q : gmap string value) (s : Submission) :
  matches q s = true ↔ ∀ k v, q !! k = Some v → submission_field s k = Some v.
Proof.
  unfold matches. rewrite forallb_forall. split.
  - intros H k v Hkv. apply elem_of_map_to_list, list_elem_of_In in Hkv.
    specialize (H _ Hkv). by apply bool_decide_eq_true in H.
  - intros H [k v] Hkv. apply bool_decide_eq_true. apply H.
    by apply elem_of_map_to_list, list_elem_of_In.
Qed.

Lemma matches_uid_correct (uid : string) (c : bool) (s : Submission) :
  matches (<["correct" := VBool c]> {["uid" := VStr uid]}) s = true ↔
  s_uid s = uid ∧ s_correct s = c.
Proof.
  rewrite matches_spec. split.
  - intros H. split.
    + specialize (H "uid" (VStr uid)).
      rewrite lookup_insert_ne, lookup_singleton_eq in H by done.
      specialize (H eq_refl). change (submission_field s "uid") with (Some (VStr (s_uid s))) in H. congruence.
    + specialize (H "correct" (VBool c)). rewrite lookup_insert_eq in H.
      specialize (H eq_refl). change (submission_field s "correct") with (Some (VBool (s_correct s))) in H. congruence.
  - intros [<- <-] k v. rewrite lookup_insert. case_decide as Hk.
    + intros [= <-]. by subst k.
    + rewrite lookup_singleton. case_decide as Hk'; [|done].
      intros [= <-]. by subst k.
Qed.

Lemma matches_tid_correct (tid : string) (c : bool) (s : Submission) :
  matches (<["correct" := VBool c]> {["tid" := VStr tid]}) s = true ↔
  s_tid s = tid ∧ s_correct s = c.
Proof.
  rewrite matches_spec. split.
  - intros H. split.
    + specialize (H "tid" (VStr tid)).
      rewrite lookup_insert_ne, lookup_singleton_eq in H by done.
      specialize (H eq_refl). change (submission_field s "tid") with (Some (VStr (s_tid s))) in H. congruence.
    + specialize (H "correct" (VBool c)). rewrite lookup_insert_eq in H.
      specialize (H eq_refl). change (submission_field s "correct") with (Some (VBool (s_correct s))) in H. congruence.
  - intros [<- <-] k v. rewrite lookup_insert. case_decide as Hk.
    + intros [= <-]. by subst k.
    + rewrite lookup_singleton. case_decide as Hk'; [|done].
      intros [= <-]. by subst k.
Qed.

Lemma matches_key (key : string) (s : Submission) :
  matches {["key" := VStr key]} s = str_eqb (s_key s) key.
Proof.
  apply eq_true_iff_eq. rewrite matches_spec, str_eqb_eq. split.
  - intros H. specialize (H "key" (VStr key)). rewrite lookup_singleton_eq in H.
    specialize (H eq_refl). change (submission_field s "key") with (Some (VStr (s_key s))) in H. congruence.
  - intros <- k v. rewrite lookup_singleton. case_decide as Hk; [|done].
    intros [= <-]. by subst k.
Qed.

Lemma matches_pid (pid : string) (s : Submission) :
  matches (submissions_match (Some pid) None None None None) s
  = str_eqb (s_pid s) pid.
Proof.
  apply eq_true_iff_eq. rewrite matches_spec, str_eqb_eq.
  unfold submissions_match, match_update. simpl. split.
  - intros H. specialize (H "pid" (VStr pid)). rewrite lookup_insert_eq in H.
    specialize (H eq_refl). change (submission_field s "pid") with (Some (VStr (s_pid s))) in H. congruence.
  - intros <- k v. rewrite lookup_insert. case_decide as Hk; [|done].
    intros [= <-]. by subst k.
Qed.

Lemma existsb_elem_of {A} (f : A → bool) (l : list A) :
  existsb f l = true ↔ ∃ a, a ∈ l ∧ f a = true.
Proof.
  rewrite existsb_exists. split; intros (a & Ha & Hf); exists a;
    (split; [by apply list_elem_of_In | done]).
Qed.

(** ** Grading *)

Lemma get_instance_data_touches fuel pid tid w r w' :
  get_instance_data fuel pid tid w = (r, w') →
  touches tid w w' ∧
  ∀ instance, r = Ret instance → committed w' pid tid instance.
Proof.
  revert w. induction fuel as [|fuel IH]; intros w.
  { intros [= <- <-]. split; [apply touches_refl | done]. }
  rewrite get_instance_data_unfold. unfold bind, read, ret.
  destruct (get_team w tid) as [e|team] eqn:Ht.
  { intros [= <- <-]. split; [apply touches_refl | done]. }
  destruct (get_problem w (Some pid) None true) as [e|problem] eqn:Hp.
  { intros [= <- <-]. split; [apply touches_refl | done]. }
  assert (Hmiss : ∀ w1,
    match assign_instance_to_team pid tid true w1 with
    | (Ret _, w2) => get_instance_data fuel pid tid w2
    | (Raise e, w2) => (Raise e, w2)
    | (OutOfFuel, w2) => (OutOfFuel, w2)
    end = (r, w') →
    touches tid w1 w' ∧ ∀ instance, r = Ret instance → committed w' pid tid instance).
  { intros w1.
    destruct (assign_instance_to_team pid tid true w1) as [[n|e|] w2] eqn:Hassign;
      apply assign_instance_to_team_inv in Hassign
        as [(e' & Hr & Hw) | (?&?&?&?&Hr&_&_&_&_&_&_&Htouch)];
      try discriminate.
    - intros Hrun. destruct (IH _ Hrun) as [Htouch' Hc].
      split; [by eapply touches_trans | done].
    - intros [= <- <-]. subst w2. split; [apply touches_refl | done]. }
  destruct (t_instances team !! pid) as [iid|] eqn:Hi.
  - destruct (find_one _ (p_instances problem)) as [instance|] eqn:Hfind.
    + intros [= <- <-]. split; [apply touches_refl|].
      intros ? [= <-]. by exists team, problem, iid.
    + apply Hmiss.
  - destruct (assign_instance_to_team pid tid false w) as [[n|e|] w1] eqn:Hassign;
      apply assign_instance_to_team_inv in Hassign
        as [(e' & Hr & Hw) | (?&?&?&?&Hr&_&_&_&_&_&_&Htouch)];
      try discriminate.
    + rewrite find_one_iid_PInt. intros Hrun.
      destruct (Hmiss _ Hrun) as [Htouch' Hc].
      split; [by eapply touches_trans | done].
    + intros [= <- <-]. subst w1. split; [apply touches_refl | done].
Qed.

Lemma grade_problem_unfold fuel pid key tid w :
  grade_problem fuel pid key (Some tid) w =
  match get_instance_data fuel pid tid w with
  | (Ret instance, w') => (Ret (check_key (DEBUG_KEY w') (i_flag instance) key), w')
  | (Raise e, w') => (Raise e, w')
  | (OutOfFuel, w') => (OutOfFuel, w')
  end.
Proof.
  unfold grade_problem, bind, ret, read.
  by destruct (get_instance_data fuel pid tid w) as [[?|?|] ?].
Qed.

Lemma grade_problem_inv fuel pid key tid w r w' :
  grade_problem fuel pid key (Some tid) w = (r, w') →
  touches tid w w' ∧
  ∀ c, r = Ret c →
       ∃ instance, committed w' pid tid instance ∧
                   c = check_key (DEBUG_KEY w) (i_flag instance) key.
Proof.
  rewrite grade_problem_unfold.
  destruct (get_instance_data fuel pid tid w) as [[instance|e|] w1] eqn:Hrun;
    destruct (get_instance_data_touches _ _ _ _ _ _ Hrun) as [Htouch Hc];
    intros [= <- <-]; (split; [done|]); try done.
  intros c [= <-]. exists instance. split; [by apply Hc|].
  destruct Htouch as ((_&_&_&_&_&Hd&_) & _). by rewrite Hd.
Qed.

(** With the instance committed, grading reads and writes nothing. *)
Lemma grade_problem_committed fuel pid key tid w instance :
  committed w pid tid instance →
  grade_problem (S fuel) pid key (Some tid) w
  = (Ret (check_key (DEBUG_KEY w) (i_flag instance) key), w).
Proof.
  intros Hc. rewrite grade_problem_unfold.
  by rewrite (get_instance_data_committed _ _ _ _ _ Hc).
Qed.

(** ** Submission *)

(** Runs the binds, reads and returns of a computation that have become
    redexes. *)
Ltac run_M :=
  cbv beta iota zeta
      delta [bind read ret raise exists_submission insert_submission negb andb].

Lemma validate_submission_cases tid pid key w :
  validate_submission tid pid key w = (Ret tt, w) ∨
  ∃ e, validate_submission tid pid key w = (Raise e, w).
Proof.
  unfold validate_submission, raise, ret.
  repeat case_match; eauto.
Qed.

Lemma submit_key_unfold fuel tid pid key method uid ip w :
  submit_key fuel tid pid key method uid ip w =
  match validate_submission tid pid key w with
  | (Ret _, _) =>
      match get_unlocked_pids tid None w with
      | (Ret unlocked, w1) =>
          if bool_decide (pid ∈ unlocked) then
            match get_user w1 uid with
            | None => (Raise (InternalException UserDoesNotExist), w1)
            | Some user =>
                let previously_solved_by_user :=
                  existsb (matches (<["correct" := VBool true]>
                                      {["uid" := VStr (u_uid user)]}))
                          (submissions w1) in
                let previously_solved_by_team :=
                  existsb (matches (<["correct" := VBool true]>
                                      {["tid" := VStr tid]}))
                          (submissions w1) in
                match grade_problem fuel pid key (Some tid) w1 with
                | (Ret correct, w2) =>
                    if previously_solved_by_user
                    then (Ret (correct, true, previously_solved_by_team), w2)
                    else
                      match get_problem w2 (Some pid) None true with
                      | inl e => (Raise e, w2)
                      | inr problem =>
                          (if correct then Raise TypeError
                           else Ret (false, false, previously_solved_by_team),
                           set_submissions
                             (submissions w2 ++
                              [attempt w2 (u_uid user) tid pid key method ip
                                       (p_category problem) correct]) w2)
                      end
                | (Raise e, w2) => (Raise e, w2)
                | (OutOfFuel, w2) => (OutOfFuel, w2)
                end
            end
          else (Raise (InternalException NotUnlocked), w1)
      | (Raise e, w1) => (Raise e, w1)
      | (OutOfFuel, w1) => (OutOfFuel, w1)
      end
  | (Raise e, _) => (Raise e, w)
  | (OutOfFuel, _) => (OutOfFuel, w)
  end.
Proof.
  unfold submit_key. run_M.
  destruct (validate_submission_cases tid pid key w) as [-> | [e ->]]; [|done].
  destruct (get_unlocked_pids tid None w) as [[unlocked|e|] w1]; [|done|done].
  case_bool_decide; run_M; [|done].
  destruct (get_user w1 uid) as [user|]; run_M; [|done].
  destruct (grade_problem fuel pid key (Some tid) w1) as [[correct|e|] w2];
    [|done|done].
  destruct (existsb _ (submissions w1)) eqn:Hpu; run_M.
  - by destruct correct.
  - destruct (get_problem w2 (Some pid) None true); [done|].
    by destruct correct.
Qed.

Lemma get_user_frame w w' uid : frame w w' → get_user w' uid = get_user w uid.
Proof.
  intros (_ & _ & Hu & _ & _ & _ & Hs & _). unfold get_user. by rewrite Hu, Hs.
Qed.

Lemma previously_solved_by_user_spec (uid : string) (ledger : list Submission) :
  existsb (matches (<["correct" := VBool true]> {["uid" := VStr uid]})) ledger = true ↔
  ∃ s, s ∈ ledger ∧ s_uid s = uid ∧ s_correct s = true.
Proof.
  rewrite existsb_elem_of. split; intros (s & Hin & H); exists s; (split; [done|]);
    by apply matches_uid_correct.
Qed.

Lemma previously_solved_by_team_spec (tid : string) (ledger : list Submission) :
  existsb (matches (<["correct" := VBool true]> {["tid" := VStr tid]})) ledger = true ↔
  ∃ s, s ∈ ledger ∧ s_tid s = tid ∧ s_correct s = true.
Proof.
  rewrite existsb_elem_of. split; intros (s & Hin & H); exists s; (split; [done|]);
    by apply matches_tid_correct.
Qed.

(** C2, as stated, fails in its second half.  User u1 of team tT has
    solved pB; user u2 of the same team now submits a wrong key for pA.
    The call reports previously_solved_by_team = True although the team has
    no correct submission for pA. *)
Lemma submit_key_team_flag_not_scoped_to_pid :
  (submit_key 2 "tT" "pA" "nope" "game" (Some "u2") None world_categories).1
  = Ret (false, false, true) ∧
  ¬ ∃ s, s ∈ submissions world_categories ∧
         s_tid s = "tT" ∧ s_pid s = "pA" ∧ s_correct s = true.
Proof.
  split; [vm_compute; reflexivity|].
  intros (s & Hin & _ & Hpid & _).
  apply list_elem_of_singleton in Hin. subst s. discriminate.
Qed.

(** C2, amended.  When submit_key returns, its second component tells
    whether the submitting user has a correct submission anywhere in the
    ledger as it was at the call, and its third component tells whether the
    team has a correct submission anywhere in that ledger: neither filter
    names the pid. *)
Theorem submit_key_previously_solved (fuel : nat) (tid pid key method : string)
    (uid ip : option string) (w w' : World) (correct by_user by_team : bool) :
  submit_key fuel tid pid key method uid ip w
  = (Ret (correct, by_user, by_team), w') →
  ∃ user,
    get_user w uid = Some user ∧
    (by_user = true ↔
     ∃ s, s ∈ submissions w ∧ s_uid s = u_uid user ∧ s_correct s = true) ∧
    (by_team = true ↔
     ∃ s, s ∈ submissions w ∧ s_tid s = tid ∧ s_correct s = true).
Proof.
  rewrite submit_key_unfold.
  destruct (validate_submission_cases tid pid key w) as [-> | [e ->]]; [|done].
  destruct (get_unlocked_pids tid None w) as [[unlocked|e|] w1] eqn:Hun; [|done|done].
  destruct (get_unlocked_pids_inv _ _ _ _ _ Hun) as ((F & _) & _).
  case_bool_decide; [|done].
  rewrite (get_user_frame _ _ uid F).
  destruct (get_user w uid) as [user|]; [|done].
  cbv zeta.
  destruct F as (_ & _ & _ & -> & _).
  destruct (grade_problem fuel pid key (Some tid) w1) as [[c|e|] w2]; [|done|done].
  destruct (existsb _ (submissions w)) eqn:Hpu.
  - intros [= <- <- <- <-]. exists user. split; [done|].
    by rewrite <- previously_solved_by_user_spec, <- previously_solved_by_team_spec, Hpu.
  - destruct (get_problem w2 (Some pid) None true); [done|].
    destruct c; [done|]. intros [= <- <- <-]. exists user. split; [done|].
    by rewrite <- previously_solved_by_user_spec, <- previously_solved_by_team_spec, Hpu.
Qed.

Lemma submit_key_previously_solved_witness :
  ∃ user,
    get_user world_categories (Some "u2") = Some user ∧
    (false = true ↔
     ∃ s, s ∈ submissions world_categories ∧
          s_uid s = u_uid user ∧ s_correct s = true) ∧
    (true = true ↔
     ∃ s, s ∈ submissions world_categories ∧
          s_tid s = "tT" ∧ s_correct s = true).
Proof.
  apply (submit_key_previously_solved 2 "tT" "pA" "nope" "game" (Some "u2") None
           world_categories
           (submit_key 2 "tT" "pA" "nope" "game" (Some "u2") None
                       world_categories).2
           false false true).
  vm_compute; reflexivity.
Defined.

(** C3, as stated, fails.  Validation, the unlock gate and user
    resolution all pass and the user has no correct submission (the ledger
    is empty), yet nothing is inserted: grading needs an instance, the
    team's committed one was retired, and the forced reassignment finds no
    instance on the team's shard and raises. *)
Lemma submit_key_nothing_recorded_when_grading_raises :
  validate_submission "tT" "pP" "flag{zero}" world_shard_down
  = (Ret tt, world_shard_down) ∧
  get_unlocked_pids "tT" None world_shard_down = (Ret ["pP"], world_shard_down) ∧
  get_user world_shard_down (Some "u1") = Some user_1 ∧
  submissions world_shard_down = [] ∧
  submit_key 2 "tT" "pP" "flag{zero}" "game" (Some "u1") None world_shard_down
  = (Raise (InternalException ShellServerDown), world_shard_down).
Proof. repeat split; vm_compute; reflexivity. Qed.

(** C3, amended.  For a call that passes validation, the unlock gate and
    user resolution and whose grading returns, the attempt, with the
    correctness just graded, is appended to the ledger when the user had no
    correct submission anywhere in the ledger at the time of the call, and
    the ledger is left as it was when the user had one, whatever the
    grade.  (A first correct attempt is appended before the call then
    raises in its cache refresh.)  When grading raises, the call raises
    what grading raised and nothing is inserted, whether or not the user
    had a correct submission. *)
Theorem submit_key_records_until_first_correct (fuel : nat)
    (tid pid key method : string) (uid ip : option string)
    (w w1 : World) (unlocked : list string) (user : User) :
  validate_submission tid pid key w = (Ret tt, w) →
  get_unlocked_pids tid None w = (Ret unlocked, w1) →
  pid ∈ unlocked →
  get_user w uid = Some user →
  (∀ correct w2,
     grade_problem fuel pid key (Some tid) w1 = (Ret correct, w2) →
     ∃ r w' problem,
       submit_key fuel tid pid key method uid ip w = (r, w') ∧
       get_problem w (Some pid) None true = inr problem ∧
       ((∃ s, s ∈ submissions w ∧ s_uid s = u_uid user ∧ s_correct s = true) →
        submissions w' = submissions w) ∧
       ((¬ ∃ s, s ∈ submissions w ∧ s_uid s = u_uid user ∧ s_correct s = true) →
        submissions w' =
        submissions w ++ [attempt w (u_uid user) tid pid key method ip
                                  (p_category problem) correct])) ∧
  (∀ e w2,
     grade_problem fuel pid key (Some tid) w1 = (Raise e, w2) →
     submit_key fuel tid pid key method uid ip w = (Raise e, w2) ∧
     submissions w2 = submissions w).
Proof.
  intros Hval Hun Hpid Huser.
  destruct (get_unlocked_pids_inv _ _ _ _ _ Hun) as ((F1 & _) & _).
  assert (Hs1 : submissions w1 = submissions w) by apply F1.
  split.
  - intros correct w2 Hgrade.
    destruct (grade_problem_inv _ _ _ _ _ _ _ Hgrade) as ((F2 & _) & Hc).
    destruct (Hc correct eq_refl)
      as (instance & (team & problem & iid & _ & Hp & _) & _).
    pose proof (frame_trans _ _ _ F1 F2) as F.
    assert (Hp0 : get_problem w (Some pid) None true = inr problem)
      by (by rewrite <- (get_problem_frame _ _ _ _ _ F)).
    rewrite submit_key_unfold, Hval, Hun, bool_decide_eq_true_2 by done.
    rewrite (get_user_frame _ _ uid F1), Huser. cbv zeta. rewrite Hgrade, Hp.
    assert (Hs2 : submissions w2 = submissions w) by apply F.
    assert (Hnow : utcnow w2 = utcnow w) by apply F.
    rewrite Hs1.
    destruct (existsb _ (submissions w)) eqn:Hpu.
    + do 2 eexists. exists problem. split; [done|]. split; [done|].
      split; [done|]. intros Hno. exfalso. apply Hno.
      by apply previously_solved_by_user_spec.
    + do 2 eexists. exists problem. split; [done|]. split; [done|]. split.
      * intros Hyes. apply previously_solved_by_user_spec in Hyes. congruence.
      * intros _. simpl. unfold attempt. by rewrite Hs2, Hnow.
  - intros e w2 Hgrade.
    destruct (grade_problem_inv _ _ _ _ _ _ _ Hgrade) as ((F2 & _) & _).
    split.
    + rewrite submit_key_unfold, Hval, Hun, bool_decide_eq_true_2 by done.
      rewrite (get_user_frame _ _ uid F1), Huser. cbv zeta. by rewrite Hgrade.
    + rewrite <- Hs1. apply F2.
Qed.

Lemma submit_key_records_until_first_correct_witness :
  (∃ r w' problem,
     submit_key 2 "tT" "pA" "nope" "game" (Some "u2") None world_categories
     = (r, w') ∧
     get_problem world_categories (Some "pA") None true = inr problem ∧
     ((∃ s, s ∈ submissions world_categories ∧
            s_uid s = u_uid user_2 ∧ s_correct s = true) →
      submissions w' = submissions world_categories) ∧
     ((¬ ∃ s, s ∈ submissions world_categories ∧
              s_uid s = u_uid user_2 ∧ s_correct s = true) →
      submissions w' =
      submissions world_categories ++
      [attempt world_categories (u_uid user_2) "tT" "pA" "nope" "game" None
               (p_category problem) false])) ∧
  submit_key 2 "tT" "pP" "nope" "game" (Some "u1") None world_shard_down
  = (Raise (InternalException ShellServerDown), world_shard_down).
Proof.
  split.
  - refine (proj1 (submit_key_records_until_first_correct 2 "tT" "pA" "nope"
                     "game" (Some "u2") None world_categories
                     (get_unlocked_pids "tT" None world_categories).2
                     ["pA"; "pB"; "pC"] user_2 _ _ _ _)
                  false (get_unlocked_pids "tT" None world_categories).2 _);
      [vm_compute; reflexivity | vm_compute; reflexivity | left
      | vm_compute; reflexivity | vm_compute; reflexivity].
  - refine (proj1 (proj2 (submit_key_records_until_first_correct 2 "tT" "pP"
                            "nope" "game" (Some "u1") None world_shard_down
                            world_shard_down ["pP"] user_1 _ _ _ _)
                         (InternalException ShellServerDown)
                         world_shard_down _));
      [vm_compute; reflexivity | vm_compute; reflexivity | left
      | vm_compute; reflexivity | vm_compute; reflexivity].
Defined.

(** ** Reevaluation *)

Lemma set_submissions_same (w : World) : set_submissions (submissions w) w = w.
Proof. by destruct w. Qed.

Lemma set_submissions_twice (l1 l2 : list Submission) (w : World) :
  set_submissions l2 (set_submissions l1 w) = set_submissions l2 w.
Proof. reflexivity. Qed.

Lemma apply_entries_cons kc keys s :
  apply_entries (kc :: keys) s = apply_entries keys (apply_entry kc s).
Proof. reflexivity. Qed.

(** The second loop rewrites the ledger entry by entry. *)
Lemma apply_changes_spec (keys : list (string * option bool)) (w : World) :
  apply_changes keys w =
  (Ret tt, set_submissions (map (apply_entries keys) (submissions w)) w).
Proof.
  unfold apply_changes. revert w.
  induction keys as [|[k ch] keys IH]; intros w; simpl.
  - unfold ret. rewrite map_id. by rewrite set_submissions_same.
  - unfold bind at 1. destruct ch as [change|]; simpl.
    + rewrite IH. simpl. rewrite set_submissions_twice. do 2 f_equal.
      unfold update_many. rewrite map_map. apply map_ext. intros s.
      by rewrite apply_entries_cons.
    + unfold ret at 1. rewrite IH. do 2 f_equal.
Qed.

Lemma apply_entry_fields kc s :
  s_key (apply_entry kc s) = s_key s ∧ s_pid (apply_entry kc s) = s_pid s ∧
  s_tid (apply_entry kc s) = s_tid s.
Proof.
  unfold apply_entry. destruct (kc.2); [|done].
  by destruct (matches _ s).
Qed.

Lemma apply_entries_fields keys s :
  s_key (apply_entries keys s) = s_key s ∧ s_pid (apply_entries keys s) = s_pid s ∧
  s_tid (apply_entries keys s) = s_tid s.
Proof.
  revert s. induction keys as [|kc keys IH]; intros s; [done|].
  rewrite apply_entries_cons.
  destruct (IH (apply_entry kc s)) as (-> & -> & ->).
  apply apply_entry_fields.
Qed.

(** An entry whose key is not among the keys is left as it is. *)
Lemma apply_entries_other keys s :
  s_key s ∉ map fst keys → apply_entries keys s = s.
Proof.
  revert s. induction keys as [|[k ch] keys IH]; intros s Hnot; [done|].
  rewrite apply_entries_cons. simpl in Hnot.
  apply not_elem_of_cons in Hnot as [Hne Hnot].
  assert (Hs : apply_entry (k, ch) s = s).
  { unfold apply_entry. simpl. destruct ch; [|done].
    rewrite matches_key. by rewrite (proj2 (str_eqb_neq _ _) Hne). }
  rewrite Hs. by apply IH.
Qed.

(** With each key listed once, an entry takes the change listed for its
    key, if there is one. *)
Lemma apply_entries_key keys s ch :
  NoDup (map fst keys) → (s_key s, ch) ∈ keys →
  apply_entries keys s = match ch with Some c => set_correct c s | None => s end.
Proof.
  revert s. induction keys as [|[k ch'] keys IH]; intros s Hnd Hin.
  { inversion Hin. }
  rewrite apply_entries_cons. simpl in Hnd. apply NoDup_cons in Hnd as [Hk Hnd].
  apply elem_of_cons in Hin as [[= <- <-]|Hin].
  - assert (Hs : apply_entry (s_key s, ch) s
                 = match ch with Some c => set_correct c s | None => s end).
    { unfold apply_entry. simpl. destruct ch; [|done].
      by rewrite matches_key, str_eqb_refl. }
    rewrite Hs. apply apply_entries_other. by destruct ch.
  - assert (Hne : s_key s ≠ k).
    { intros <-. apply Hk. apply list_elem_of_fmap. by exists (s_key s, ch). }
    assert (Hs : apply_entry (k, ch') s = s).
    { unfold apply_entry. simpl. destruct ch'; [|done].
      rewrite matches_key. by rewrite (proj2 (str_eqb_neq _ _) Hne). }
    rewrite Hs. by apply IH.
Qed.

Lemma committed_functional w pid tid i1 i2 :
  committed w pid tid i1 → committed w pid tid i2 → i1 = i2.
Proof.
  intros (t1 & p1 & iid1 & Ht1 & Hp1 & Hi1 & Hf1) (t2 & p2 & iid2 & Ht2 & Hp2 & Hi2 & Hf2).
  rewrite Ht1 in Ht2. injection Ht2 as <-.
  rewrite Hp1 in Hp2. injection Hp2 as <-.
  rewrite Hi1 in Hi2. injection Hi2 as <-.
  congruence.
Qed.

Lemma committed_instance_elem w pid tid instance :
  committed w pid tid instance →
  ∃ problem, get_problem w (Some pid) None true = inr problem ∧
             instance ∈ p_instances problem.
Proof.
  intros (team & problem & iid & _ & Hp & _ & Hfind).
  exists problem. split; [done|]. by apply find_one_Some in Hfind as [? _].
Qed.

Lemma committed_carried w w' pid tid instance :
  frame w w' → get_team w' tid = get_team w tid →
  committed w pid tid instance → committed w' pid tid instance.
Proof.
  intros F Ht (team & problem & iid & Hteam & Hp & Hi & Hfind).
  exists team, problem, iid.
  by rewrite Ht, (get_problem_frame _ _ _ _ _ F).
Qed.

Lemma committed_set_submissions w ledger pid tid instance :
  committed w pid tid instance ↔
  committed (set_submissions ledger w) pid tid instance.
Proof. reflexivity. Qed.

Lemma grade_problem_Ret_fuel fuel pid key tid w c w' :
  grade_problem fuel pid key (Some tid) w = (Ret c, w') → ∃ fuel', fuel = S fuel'.
Proof.
  destruct fuel as [|fuel]; [|eauto].
  rewrite grade_problem_unfold. simpl. discriminate.
Qed.

(** Grading for one team leaves what every team has committed and can
    still resolve. *)
Lemma grade_problem_keeps_committed fuel pid key tid2 w r w' tid instance :
  grade_problem fuel pid key (Some tid2) w = (r, w') →
  committed w pid tid instance → committed w' pid tid instance.
Proof.
  intros Hrun Hc. destruct (decide (tid = tid2)) as [->|Hne].
  - destruct fuel as [|fuel].
    + rewrite grade_problem_unfold in Hrun. simpl in Hrun. by injection Hrun as <- <-.
    + rewrite (grade_problem_committed _ _ _ _ _ _ Hc) in Hrun.
      by injection Hrun as <- <-.
  - destruct (grade_problem_inv _ _ _ _ _ _ _ Hrun) as ((F & Hother & _) & _).
    eapply committed_carried; [exact F | by apply Hother | done].
Qed.

Lemma in_keys_spec (key : string) (keys : list (string * option bool)) :
  in_keys key keys = true ↔ key ∈ map fst keys.
Proof.
  unfold in_keys. rewrite existsb_elem_of, list_elem_of_fmap. split.
  - intros ([k ch] & Hin & Heq). apply str_eqb_eq in Heq. simpl in Heq. subst k.
    by exists (key, ch).
  - intros ([k ch] & -> & Hin). exists (k, ch). split; [done|]. apply str_eqb_refl.
Qed.

Lemma in_keys_false (key : string) (keys : list (string * option bool)) :
  in_keys key keys = false ↔ key ∉ map fst keys.
Proof.
  rewrite <- in_keys_spec. by destruct (in_keys key keys).
Qed.

(** The first loop of the reevaluation.  It writes no submission; each key
    it adds is new, is added once, and carries the change computed from the
    first submission that bears it and from the instance that this
    submission's team ends up with; every submission's key is listed at the
    end. *)
Lemma reevaluate_keys_inv fuel pid subs keys0 w keys w' :
  reevaluate_keys fuel pid subs keys0 w = (Ret keys, w') →
  frame w w' ∧
  (∀ tid instance, committed w pid tid instance → committed w' pid tid instance) ∧
  ∃ added,
    keys = keys0 ++ added ∧
    (∀ k ch, (k, ch) ∈ added →
       (k ∉ map fst keys0) ∧
       ∃ first instance,
         find_one (λ x, str_eqb (s_key x) k) subs = Some first ∧
         committed w' pid (s_tid first) instance ∧
         ch = if negb (eqb (check_key (DEBUG_KEY w) (i_flag instance) k)
                           (s_correct first))
              then Some (check_key (DEBUG_KEY w) (i_flag instance) k)
              else None) ∧
    NoDup (map fst added) ∧
    (∀ s, s ∈ subs → s_key s ∈ map fst keys).
Proof.
  revert keys0 w. induction subs as [|s subs IH]; intros keys0 w; simpl.
  { intros [= <- <-]. split; [apply frame_refl|]. split; [done|].
    exists []. rewrite app_nil_r. split; [done|]. split.
    - intros k ch Hin. inversion Hin.
    - split; [constructor|]. intros s Hs. inversion Hs. }
  destruct (in_keys (s_key s) keys0) eqn:Hin0.
  - intros Hrun. destruct (IH _ _ Hrun) as (F & Hkeep & added & -> & Hadded & Hnd & Hall).
    split; [done|]. split; [done|]. exists added. split; [done|]. split; [|split; [done|]].
    + intros k ch Hkc. destruct (Hadded k ch Hkc) as (Hnew & first & instance & Hfirst & Hrest).
      split; [done|]. exists first, instance. split; [|done].
      apply in_keys_spec in Hin0.
      assert (Hne : s_key s ≠ k) by (intros <-; contradiction).
      by rewrite (proj2 (str_eqb_neq _ _) Hne).
    + intros s' Hs'. apply elem_of_cons in Hs' as [->|Hs']; [|by apply Hall].
      rewrite map_app. apply elem_of_app. left. by apply in_keys_spec.
  - unfold bind at 1.
    destruct (grade_problem fuel pid (s_key s) (Some (s_tid s)) w) as [[c|e|] w1] eqn:Hgrade;
      [|done|done].
    intros Hrun. destruct (IH _ _ Hrun) as (F & Hkeep & added & -> & Hadded & Hnd & Hall).
    destruct (grade_problem_inv _ _ _ _ _ _ _ Hgrade) as ((F1 & _) & Hc).
    destruct (Hc c eq_refl) as (instance & Hcommitted & ->).
    assert (Hd : DEBUG_KEY w1 = DEBUG_KEY w) by apply F1.
    apply in_keys_false in Hin0.
    split; [by eapply frame_trans|]. split.
    { intros tid i Hi. apply Hkeep. by eapply grade_problem_keeps_committed. }
    eexists (_ :: added). split; [by rewrite <- app_assoc|]. split; [|split].
    + intros k ch Hkc. apply elem_of_cons in Hkc as [[= -> ->]|Hkc].
      * split; [done|]. exists s, instance. rewrite str_eqb_refl.
        split; [done|]. split; [by apply Hkeep | done].
      * destruct (Hadded k ch Hkc) as (Hnew & first & i & Hfirst & Hci & Hch).
        rewrite map_app in Hnew. apply not_elem_of_app in Hnew as [Hnew Hne].
        simpl in Hne. apply not_elem_of_cons in Hne as [Hne _].
        split; [done|]. exists first, i.
        rewrite (proj2 (str_eqb_neq _ _) (not_eq_sym Hne)).
        split; [done|]. split; [done|]. by rewrite <- Hd.
    + simpl. apply NoDup_cons. split; [|done].
      intros Hdup. apply list_elem_of_fmap in Hdup as ([k ch] & Hk & Hkc).
      simpl in Hk. subst k.
      destruct (Hadded _ _ Hkc) as (Hnew & _). apply Hnew.
      rewrite map_app. apply elem_of_app. right. simpl. left.
    + intros s' Hs'. apply elem_of_cons in Hs' as [->|Hs']; [|by apply Hall].
      rewrite !map_app. apply elem_of_app. left. apply elem_of_app. right. simpl. left.
Qed.

Lemma reevaluate_keys_no_fuel pid subs w keys w' :
  reevaluate_keys 0 pid subs [] w = (Ret keys, w') → subs = [].
Proof.
  destruct subs as [|s subs]; [done|]. simpl. unfold bind.
  rewrite grade_problem_unfold. simpl. discriminate.
Qed.

(** The first loop on a ledger that agrees with the grades: when the
    first submission of every key still to be graded stores what grading
    gives for the instance its team holds, the loop writes nothing and lists
    no change. *)
Lemma reevaluate_keys_settled fuel pid subs keys0 w :
  (∀ k first,
     k ∉ map fst keys0 →
     find_one (λ x, str_eqb (s_key x) k) subs = Some first →
     ∃ instance, committed w pid (s_tid first) instance ∧
                 check_key (DEBUG_KEY w) (i_flag instance) k = s_correct first) →
  ∃ added,
    reevaluate_keys (S fuel) pid subs keys0 w = (Ret (keys0 ++ added), w) ∧
    ∀ kc, kc ∈ added → kc.2 = None.
Proof.
  revert keys0. induction subs as [|s subs IH]; intros keys0 Hsettled; simpl.
  { exists []. rewrite app_nil_r. split; [done|]. intros kc Hkc. inversion Hkc. }
  destruct (in_keys (s_key s) keys0) eqn:Hin0.
  - apply in_keys_spec in Hin0. apply IH. intros k first Hk Hfirst.
    apply Hsettled; [done|]. simpl.
    assert (Hne : s_key s ≠ k) by (intros <-; contradiction).
    by rewrite (proj2 (str_eqb_neq _ _) Hne).
  - apply in_keys_false in Hin0.
    destruct (Hsettled (s_key s) s Hin0) as (instance & Hc & Hgrade).
    { simpl. by rewrite str_eqb_refl. }
    unfold bind at 1. rewrite (grade_problem_committed _ _ _ _ _ _ Hc), Hgrade.
    rewrite eqb_reflx. simpl negb. cbv iota.
    destruct (IH (keys0 ++ [(s_key s, None)])) as (added & Hrun & Hnone).
    { intros k first Hk Hfirst. rewrite map_app in Hk.
      apply not_elem_of_app in Hk as [Hk Hne]. simpl in Hne.
      apply not_elem_of_cons in Hne as [Hne _].
      apply Hsettled; [done|]. simpl.
      by rewrite (proj2 (str_eqb_neq _ _) (not_eq_sym Hne)). }
    exists ((s_key s, None) :: added). split.
    + by rewrite Hrun, <- app_assoc.
    + intros kc Hkc. apply elem_of_cons in Hkc as [->|Hkc]; [done | by apply Hnone].
Qed.

Lemma apply_entries_no_change keys s :
  (∀ kc, kc ∈ keys → kc.2 = None) → apply_entries keys s = s.
Proof.
  induction keys as [|kc keys IH]; intros Hnone; [done|].
  rewrite apply_entries_cons.
  assert (Hs : apply_entry kc s = s).
  { unfold apply_entry. by rewrite (Hnone kc (list_elem_of_here _ _)). }
  rewrite Hs. apply IH. intros kc' Hkc'. apply Hnone. by right.
Qed.

Lemma find_one_filter {A} (f g : A → bool) (l : list A) :
  find_one f (List.filter g l) = find_one (λ x, g x && f x) l.
Proof.
  induction l as [|a l IH]; simpl; [done|].
  destruct (g a); simpl; [|done]. by rewrite IH.
Qed.

Lemma find_one_map_key k (f : Submission → Submission) (l : list Submission) :
  (∀ s, s_key (f s) = s_key s) →
  find_one (λ x, str_eqb (s_key x) k) (map f l)
  = f <$> find_one (λ x, str_eqb (s_key x) k) l.
Proof.
  intros Hkey. induction l as [|a l IH]; simpl; [done|].
  rewrite Hkey. by destruct (str_eqb (s_key a) k).
Qed.

Lemma filter_map_pid pid (f : Submission → Submission) (l : list Submission) :
  (∀ s, s_pid (f s) = s_pid s) →
  List.filter (matches (submissions_match (Some pid) None None None None)) (map f l)
  = map f (List.filter (matches (submissions_match (Some pid) None None None None)) l).
Proof.
  intros Hpid. induction l as [|a l IH]; simpl; [done|].
  rewrite !matches_pid, Hpid, IH. by destruct (str_eqb (s_pid a) pid).
Qed.

Lemma find_one_ext {A} (f g : A → bool) (l : list A) :
  (∀ a, f a = g a) → find_one f l = find_one g l.
Proof.
  intros Hfg. induction l as [|a l IH]; simpl; [done|]. by rewrite Hfg, IH.
Qed.

Lemma reevaluate_submissions_for_problem_unfold fuel pid w :
  reevaluate_submissions_for_problem fuel pid w =
  match get_problem w (Some pid) None true with
  | inl e => (Raise e, w)
  | inr _ =>
      match reevaluate_keys fuel pid
              (get_submissions w (Some pid) None None None None) [] w with
      | (Ret keys, w') => apply_changes keys w'
      | (Raise e, w') => (Raise e, w')
      | (OutOfFuel, w') => (OutOfFuel, w')
      end
  end.
Proof.
  unfold reevaluate_submissions_for_problem, bind, read.
  by destruct (get_problem w (Some pid) None true).
Qed.

(** C8, as stated, fails.  Two teams hold different instances of P and
    both submitted the key "flag{one}": wrong for the first team, right for
    the second.  The flag of the second team's instance has been changed,
    and no flag of P occurs in the key any more.  A run of the reevaluation
    grades the key once, for the first team, finds the stored False
    confirmed, and leaves the second team's submission stored correct. *)
Lemma reevaluate_keeps_later_submission_of_key :
  reevaluate_submissions_for_problem 2 "pP" world_two_teams
  = (Ret tt, world_two_teams) ∧
  submissions world_two_teams !! 1%nat = Some right_for_U ∧
  s_pid right_for_U = "pP" ∧
  s_correct right_for_U = true ∧
  get_problem world_two_teams (Some "pP") None true = inr problem_P_changed ∧
  Forall (λ instance, contains (i_flag instance) (s_key right_for_U) = false)
         (p_instances problem_P_changed).
Proof.
  split; [vm_compute; reflexivity|].
  repeat split; try reflexivity.
  repeat constructor.
Qed.

(** C8, amended.  When a run of reevaluate_submissions_for_problem(pid)
    returns: a submission for pid that is stored correct is stored
    incorrect afterwards, provided that no flag of the problem's instances
    (nor DEBUG_KEY) occurs in its key and that the first submission for pid
    bearing the same key, which is the one the run compares with, is stored
    correct as well; and a second run on the database the first left
    returns and changes nothing. *)
Theorem reevaluate_round_trip (fuel : nat) (pid : string) (w w1 : World) :
  reevaluate_submissions_for_problem fuel pid w = (Ret tt, w1) →
  (∀ (i : nat) s first problem,
     submissions w !! i = Some s →
     s_pid s = pid →
     s_correct s = true →
     find_one (λ x, str_eqb (s_pid x) pid && str_eqb (s_key x) (s_key s))
              (submissions w) = Some first →
     s_correct first = true →
     get_problem w (Some pid) None true = inr problem →
     (∀ instance, instance ∈ p_instances problem →
                  contains (i_flag instance) (s_key s) = false) →
     (∀ k, DEBUG_KEY w = Some k → contains k (s_key s) = false) →
     submissions w1 !! i = Some (set_correct false s)) ∧
  reevaluate_submissions_for_problem fuel pid w1 = (Ret tt, w1).
Proof.
  rewrite reevaluate_submissions_for_problem_unfold.
  destruct (get_problem w (Some pid) None true) as [e|problem0] eqn:Hproblem; [done|].
  set (subs := get_submissions w (Some pid) None None None None).
  destruct (reevaluate_keys fuel pid subs [] w) as [[keys|e|] w'] eqn:Hkeys; [|done|done].
  rewrite apply_changes_spec. intros [= <-].
  destruct (reevaluate_keys_inv _ _ _ _ _ _ _ Hkeys)
    as (F & Hkeep & added & Heq & Hadded & Hnd & Hall).
  simpl in Heq. subst added.
  assert (Hledger : submissions w' = submissions w) by apply F.
  assert (Hdebug : DEBUG_KEY w' = DEBUG_KEY w) by apply F.
  rewrite Hledger.
  (* what the run does to a submission of [subs] *)
  assert (Hentry : ∀ s, s ∈ subs →
            ∃ first instance,
              find_one (λ x, str_eqb (s_key x) (s_key s)) subs = Some first ∧
              committed w' pid (s_tid first) instance ∧
              apply_entries keys s =
              if negb (eqb (check_key (DEBUG_KEY w) (i_flag instance) (s_key s))
                           (s_correct first))
              then set_correct (check_key (DEBUG_KEY w) (i_flag instance) (s_key s)) s
              else s).
  { intros s Hs. specialize (Hall s Hs).
    apply list_elem_of_fmap in Hall as ([k ch] & Hk & Hkc). simpl in Hk. subst k.
    destruct (Hadded _ _ Hkc) as (_ & first & instance & Hfirst & Hc & Hch).
    exists first, instance. split; [done|]. split; [done|].
    rewrite (apply_entries_key _ _ _ Hnd Hkc), Hch. by destruct (negb _). }
  split.
  - intros i s first problem Hi Hpid Hcorrect Hfirst Hfc Hp Hflags Hdbg.
    simpl. rewrite list_lookup_fmap, Hi. simpl. f_equal.
    assert (Hs : s ∈ subs).
    { apply list_elem_of_In, filter_In. split.
      - apply list_elem_of_In. by eapply list_elem_of_lookup_2.
      - rewrite matches_pid. by apply str_eqb_eq. }
    destruct (Hentry s Hs) as (first' & instance & Hfirst' & Hc & ->).
    unfold subs, get_submissions in Hfirst'. rewrite find_one_filter in Hfirst'.
    rewrite (find_one_ext _ (λ x, str_eqb (s_pid x) pid && str_eqb (s_key x) (s_key s)))
      in Hfirst' by (intros a; by rewrite matches_pid).
    rewrite Hfirst in Hfirst'. injection Hfirst' as <-.
    destruct (committed_instance_elem _ _ _ _ Hc) as (problem' & Hp' & Hin).
    injection Hp as <-.
    rewrite (get_problem_frame _ _ _ _ _ F), Hproblem in Hp'. injection Hp' as <-.
    assert (Hgrade : check_key (DEBUG_KEY w) (i_flag instance) (s_key s) = false).
    { unfold check_key. rewrite (Hflags _ Hin). simpl.
      destruct (DEBUG_KEY w) as [k|] eqn:Hk; [by apply Hdbg | done]. }
    by rewrite Hgrade, Hfc.
  - rewrite reevaluate_submissions_for_problem_unfold.
    assert (Hp1 : get_problem
                    (set_submissions (map (apply_entries keys) (submissions w)) w')
                    (Some pid) None true = inr problem0).
    { rewrite <- Hproblem. unfold get_problem. simpl. by rewrite (proj1 F). }
    rewrite Hp1. unfold get_submissions. simpl submissions.
    rewrite filter_map_pid by (intros s; apply apply_entries_fields).
    fold (get_submissions w (Some pid) None None None None). fold subs.
    destruct fuel as [|fuel].
    { rewrite (reevaluate_keys_no_fuel _ _ _ _ _ Hkeys). simpl. unfold ret.
      rewrite apply_changes_spec. simpl. rewrite map_id.
      by rewrite set_submissions_twice. }
    destruct (reevaluate_keys_settled fuel pid (map (apply_entries keys) subs) []
                (set_submissions (map (apply_entries keys) (submissions w)) w'))
      as (added & -> & Hnone).
    { intros k first' _ Hfirst'.
      rewrite find_one_map_key in Hfirst' by (intros s; apply apply_entries_fields).
      destruct (find_one _ subs) as [first|] eqn:Hfirst; [|done].
      simpl in Hfirst'. injection Hfirst' as <-.
      apply find_one_Some in Hfirst as Hfs. destruct Hfs as [Hin Hk].
      apply str_eqb_eq in Hk. subst k.
      destruct (Hentry first Hin) as (first0 & instance & Hfirst0 & Hc & Happly).
      rewrite Hfirst in Hfirst0. injection Hfirst0 as <-.
      destruct (apply_entries_fields keys first) as (Hk & _ & Ht).
      exists instance. rewrite Ht. split; [exact Hc|].
      simpl DEBUG_KEY. rewrite Hdebug, Happly.
      destruct (check_key (DEBUG_KEY w) (i_flag instance) (s_key first)),
               (s_correct first) eqn:Hstored; simpl; by rewrite ?Hstored. }
    simpl. rewrite apply_changes_spec. simpl. rewrite set_submissions_twice.
    f_equal. f_equal. rewrite map_map. apply map_ext. intros s.
    by apply apply_entries_no_change.
Qed.

Lemma reevaluate_round_trip_witness :
  ∃ w1,
    reevaluate_submissions_for_problem 2 "pP" world_one_team = (Ret tt, w1) ∧
    submissions world_one_team !! 0%nat = Some right_for_U ∧
    submissions w1 !! 0%nat = Some (set_correct false right_for_U) ∧
    reevaluate_submissions_for_problem 2 "pP" w1 = (Ret tt, w1).
Proof.
  assert (Hrun : reevaluate_submissions_for_problem 2 "pP" world_one_team
                 = (Ret tt,
                    (reevaluate_submissions_for_problem 2 "pP" world_one_team).2))
    by (vm_compute; reflexivity).
  exists ((reevaluate_submissions_for_problem 2 "pP" world_one_team).2).
  split; [exact Hrun|]. split; [reflexivity|].
  destruct (reevaluate_round_trip _ _ _ _ Hrun) as [Hflip Hagain].
  split; [|exact Hagain].
  apply (Hflip 0%nat right_for_U right_for_U problem_P_changed).
  - reflexivity.
  - reflexivity.
  - reflexivity.
  - vm_compute; reflexivity.
  - reflexivity.
  - vm_compute; reflexivity.
  - intros instance Hin.
    repeat (apply elem_of_cons in Hin as [->|Hin]; [vm_compute; reflexivity|]).
    inversion Hin.
  - intros k Hk. discriminate Hk.
Defined.

(** * Further properties *)

(** ** Assignment *)

Lemma available_instances_frame w w' team problem :
  frame w w' → available_instances w' team problem = available_instances w team problem.
Proof.
  intros (_ & _ & _ & _ & Hs & _). unfold available_instances. by rewrite Hs.
Qed.

(** X1. Assignment is single-commit: after an assignment that returned, a
    second assignment of the same pid to the same team without reassign
    raises "already has an instance" and leaves the database, the team's
    committed iid included, as it is. *)
Theorem assign_instance_to_team_single_commit (pid tid : string)
    (reassign : bool) (w w1 : World) (n : Z) :
  assign_instance_to_team pid tid reassign w = (Ret n, w1) →
  assign_instance_to_team pid tid false w1
  = (Raise (InternalException AlreadyHasInstance), w1).
Proof.
  intros Hrun.
  apply assign_instance_to_team_inv in Hrun
    as [(e & [=] & _) | (team & problem & instance & n' & _ & _ & Hp & _ & _ & Ht' & _ & (F & _))].
  unfold assign_instance_to_team, bind, read, raise.
  rewrite Ht', (get_problem_frame _ _ _ _ _ F), Hp.
  rewrite bool_decide_eq_true_2; [done|].
  simpl. rewrite lookup_insert_eq. eauto.
Qed.

Lemma assign_instance_to_team_single_commit_witness :
  ∃ w1, assign_instance_to_team "pP" "tT" false world_P = (Ret 1, w1) ∧
        assign_instance_to_team "pP" "tT" false w1
        = (Raise (InternalException AlreadyHasInstance), w1).
Proof.
  assert (Hrun : assign_instance_to_team "pP" "tT" false world_P
                 = (Ret 1, (assign_instance_to_team "pP" "tT" false world_P).2))
    by (vm_compute; reflexivity).
  exists ((assign_instance_to_team "pP" "tT" false world_P).2).
  split; [exact Hrun|].
  exact (assign_instance_to_team_single_commit _ _ _ _ _ _ Hrun).
Defined.

(** X2. What a successful assignment commits: the index returned lies
    within the instances available to the team, the iid written into the
    team's map under the pid is that of the instance at this index, the
    instance is one of the problem's, and with sharding on it sits on the
    team's server (server 1 for a team without a server number). *)
Theorem assign_instance_to_team_commits_available (pid tid : string)
    (reassign : bool) (w w' : World) (n : Z) :
  assign_instance_to_team pid tid reassign w = (Ret n, w') →
  ∃ team problem instance,
    get_team w tid = inr team ∧
    get_problem w (Some pid) None true = inr problem ∧
    0 ≤ n < Z.of_nat (length (available_instances w team problem)) ∧
    available_instances w team problem !! Z.to_nat n = Some instance ∧
    instance ∈ p_instances problem ∧
    (enable_sharding w = true →
     i_server_number instance = Some (default 1 (t_server_number team))) ∧
    ∃ team', get_team w' tid = inr team' ∧
             t_instances team' !! pid = Some (i_iid instance).
Proof.
  intros Hrun.
  destruct (assign_instance_to_team_cases pid tid reassign w)
    as [[e He] | (team & problem & instance & n' & Ht & Hp & _ & Hn & Hav & He)];
    rewrite He in Hrun; [discriminate|].
  injection Hrun as <- <-.
  exists team, problem, instance. split; [done|]. split; [done|].
  pose proof (lookup_lt_Some _ _ _ Hav) as Hlt.
  split; [lia|]. split; [done|].
  pose proof (list_elem_of_lookup_2 _ _ _ Hav) as Hin.
  unfold available_instances in Hin.
  destruct (get_team_Some _ _ _ Ht) as [_ Htid].
  assert (Hteam' : ∃ team',
            get_team (set_teams (update_one (λ t, str_eqb (t_tid t) tid)
                                   (λ _, set_instance pid (i_iid instance) team)
                                   (teams w)) (set_draws (tl (draws w)) w)) tid
            = inr team' ∧ t_instances team' !! pid = Some (i_iid instance)).
  { exists (set_instance pid (i_iid instance) team). split.
    - by eapply (get_team_update (set_draws _ w)); [exact Ht|].
    - simpl. apply lookup_insert_eq. }
  destruct (enable_sharding w) eqn:Hsh.
  - apply list_elem_of_In, filter_In in Hin as [Hin Hserver].
    split; [by apply list_elem_of_In|]. split; [|done].
    intros _. by apply bool_decide_eq_true in Hserver.
  - split; [done|]. split; done.
Qed.

Lemma assign_instance_to_team_commits_available_witness :
  ∃ team problem instance,
    get_team world_P "tT" = inr team ∧
    get_problem world_P (Some "pP") None true = inr problem ∧
    0 ≤ 1 < Z.of_nat (length (available_instances world_P team problem)) ∧
    available_instances world_P team problem !! Z.to_nat 1 = Some instance ∧
    instance ∈ p_instances problem ∧
    (enable_sharding world_P = true →
     i_server_number instance = Some (default 1 (t_server_number team))) ∧
    ∃ team',
      get_team (assign_instance_to_team "pP" "tT" false world_P).2 "tT"
      = inr team' ∧
      t_instances team' !! "pP" = Some (i_iid instance).
Proof.
  apply (assign_instance_to_team_commits_available "pP" "tT" false world_P).
  vm_compute; reflexivity.
Defined.

(** X3. Why an assignment fails.  For a known team and problem: a team
    that already holds the pid is refused unless reassign is set, even when
    there is nothing to assign; otherwise, with no instance available the
    failure is "shell server down" when sharding is on and "no instances to
    assign" when it is off.  Every failure leaves the database as it is and
    takes no draw. *)
Theorem assign_instance_to_team_failures (pid tid : string) (reassign : bool)
    (w : World) (team : Team) (problem : Problem) :
  get_team w tid = inr team →
  get_problem w (Some pid) None true = inr problem →
  (is_Some (t_instances team !! pid) → reassign = false →
   assign_instance_to_team pid tid reassign w
   = (Raise (InternalException AlreadyHasInstance), w)) ∧
  ((t_instances team !! pid = None ∨ reassign = true) →
   available_instances w team problem = [] →
   assign_instance_to_team pid tid reassign w
   = (Raise (InternalException
               (if enable_sharding w then ShellServerDown else NoInstancesToAssign)),
      w)) ∧
  (∀ r w', assign_instance_to_team pid tid reassign w = (r, w') →
           (∀ n, r ≠ Ret n) → w' = w).
Proof.
  intros Ht Hp. split; [|split].
  - intros Hsome ->. unfold assign_instance_to_team, bind, read, raise.
    rewrite Ht, Hp. by rewrite bool_decide_eq_true_2.
  - intros Hfree Hnone. unfold assign_instance_to_team, bind, read, raise.
    rewrite Ht, Hp, Hnone.
    assert (Hguard : bool_decide (is_Some (t_instances team !! pid)) && negb reassign
                     = false).
    { destruct Hfree as [Hfree | ->]; [|apply andb_false_r].
      rewrite bool_decide_eq_false_2; [done|]. rewrite Hfree. by intros [? ?]. }
    rewrite Hguard. by destruct (enable_sharding w).
  - intros r w' Hrun Hnot.
    apply assign_instance_to_team_inv in Hrun
      as [(e & _ & ->) | (?&?&?&n&->&_)]; [done|]. by destruct (Hnot n).
Qed.

Lemma assign_instance_to_team_failures_witness :
  assign_instance_to_team "pP" "tT" true world_shard_down
  = (Raise (InternalException ShellServerDown), world_shard_down) ∧
  assign_instance_to_team "pP" "tT" false world_shard_down
  = (Raise (InternalException AlreadyHasInstance), world_shard_down).
Proof.
  destruct (assign_instance_to_team_failures "pP" "tT" true world_shard_down
              team_shard_3 problem_P eq_refl eq_refl) as (_ & Hdown & _).
  destruct (assign_instance_to_team_failures "pP" "tT" false world_shard_down
              team_shard_3 problem_P eq_refl eq_refl) as (Halready & _ & _).
  split.
  - apply Hdown; [by right | reflexivity].
  - apply Halready; [|reflexivity]. vm_compute. eauto.
Defined.

(** X4. An assignment writes one entry of one team.  After it returns,
    the team's map holds what it held for every other pid, every other team
    reads as before, and problems, bundles, users, submissions and settings
    are untouched; exactly one draw is taken. *)
Theorem assign_instance_to_team_writes_one_entry (pid tid : string)
    (reassign : bool) (w w' : World) (n : Z) :
  assign_instance_to_team pid tid reassign w = (Ret n, w') →
  frame w w' ∧
  draws w' = tl (draws w) ∧
  (∀ tid', tid' ≠ tid → get_team w' tid' = get_team w tid') ∧
  ∃ team team',
    get_team w tid = inr team ∧ get_team w' tid = inr team' ∧
    t_tid team' = t_tid team ∧
    t_server_number team' = t_server_number team ∧
    ∀ pid', pid' ≠ pid → t_instances team' !! pid' = t_instances team !! pid'.
Proof.
  intros Hrun.
  apply assign_instance_to_team_inv in Hrun
    as [(e & [=] & _) | (team & problem & instance & n' & _ & Ht & _ & _ & _ & Ht' & Hd & (F & Hother & _))].
  split; [done|]. split; [done|]. split; [done|].
  exists team, (set_instance pid (i_iid instance) team).
  split; [done|]. split; [done|]. split; [done|]. split; [done|].
  intros pid' Hne. simpl. by rewrite lookup_insert_ne.
Qed.

Lemma assign_instance_to_team_writes_one_entry_witness :
  let w' := (assign_instance_to_team "pP" "tT" false world_TU).2 in
  frame world_TU w' ∧
  draws w' = tl (draws world_TU) ∧
  (∀ tid', tid' ≠ "tT" → get_team w' tid' = get_team world_TU tid') ∧
  ∃ team team',
    get_team world_TU "tT" = inr team ∧ get_team w' "tT" = inr team' ∧
    t_tid team' = t_tid team ∧
    t_server_number team' = t_server_number team ∧
    ∀ pid', pid' ≠ "pP" → t_instances team' !! pid' = t_instances team !! pid'.
Proof.
  intros w'.
  apply (assign_instance_to_team_writes_one_entry "pP" "tT" false world_TU w' 1).
  vm_compute; reflexivity.
Defined.

(** ** Instance resolution *)

(** X5. Resolution is stable: once get_instance_data has returned an
    instance, calling it again on the database it left returns the same
    instance, writes nothing and takes no draw. *)
Theorem get_instance_data_stable (fuel fuel' : nat) (pid tid : string)
    (w w' : World) (instance : Instance) :
  get_instance_data fuel pid tid w = (Ret instance, w') →
  get_instance_data (S fuel') pid tid w' = (Ret instance, w').
Proof.
  intros Hrun.
  destruct (get_instance_data_touches _ _ _ _ _ _ Hrun) as [_ Hc].
  apply get_instance_data_committed. by apply Hc.
Qed.

Lemma get_instance_data_stable_witness :
  ∃ w', get_instance_data 2 "pP" "tT" world_stale = (Ret instance_0, w') ∧
        get_instance_data 1 "pP" "tT" w' = (Ret instance_0, w').
Proof.
  assert (Hrun : get_instance_data 2 "pP" "tT" world_stale
                 = (Ret instance_0, (get_instance_data 2 "pP" "tT" world_stale).2))
    by (vm_compute; reflexivity).
  exists ((get_instance_data 2 "pP" "tT" world_stale).2).
  split; [exact Hrun|].
  exact (get_instance_data_stable 2 0 _ _ _ _ _ Hrun).
Defined.

(** ** Grading *)

Lemma is_prefix_spec (s t : string) :
  is_prefix s t = true ↔ ∃ post, t = (s ++ post)%string.
Proof.
  revert t. induction s as [|a s IH]; intros t; simpl.
  - split; [|done]. intros _. by exists t.
  - destruct t as [|b t].
    + split; [done|]. by intros [post [=]].
    + destruct (Ascii.eqb a b) eqn:Hab.
      * apply Ascii.eqb_eq in Hab as ->. rewrite IH. split.
        -- intros [post ->]. by exists post.
        -- intros [post [= ->]]. by exists post.
      * split; [done|]. intros [post [= -> _]].
        by rewrite Ascii.eqb_refl in Hab.
Qed.

Lemma contains_spec (s t : string) :
  contains s t = true ↔ ∃ pre post, t = (pre ++ s ++ post)%string.
Proof.
  split.
  - induction t as [|b t IH]; simpl.
    + rewrite orb_false_r. intros H. apply is_prefix_spec in H as [post ->].
      by exists "", post.
    + intros H. apply orb_true_iff in H as [H|H].
      * apply is_prefix_spec in H as [post ->]. by exists "", post.
      * destruct (IH H) as (pre & post & ->). by exists (String b pre), post.
  - intros (pre & post & ->). induction pre as [|b pre IH].
    + assert (H : is_prefix s (s ++ post) = true) by (apply is_prefix_spec; eauto).
      simpl. destruct (s ++ post)%string; simpl in *; by rewrite H.
    + simpl. rewrite IH. apply orb_true_r.
Qed.

(** X6. Grading is by substring.  For a team whose committed instance is
    deployed, grade_problem returns without writing, and it returns True
    exactly when the instance's flag occurs somewhere in the key, or
    DEBUG_KEY is set and occurs somewhere in the key. *)
Theorem grade_problem_substring (fuel : nat) (pid key tid : string) (w : World)
    (instance : Instance) :
  committed w pid tid instance →
  ∃ correct,
    grade_problem (S fuel) pid key (Some tid) w = (Ret correct, w) ∧
    (correct = true ↔
     (∃ pre post, key = (pre ++ i_flag instance ++ post)%string) ∨
     (∃ k pre post, DEBUG_KEY w = Some k ∧ key = (pre ++ k ++ post)%string)).
Proof.
  intros Hc. eexists. split; [by apply grade_problem_committed|].
  unfold check_key. rewrite <- contains_spec.
  destruct (contains (i_flag instance) key) eqn:Hflag; simpl.
  - split; [by left | done].
  - destruct (DEBUG_KEY w) as [k|].
    + split.
      * intros Hk. right. exists k. apply contains_spec in Hk as (pre & post & ->).
        eauto.
      * intros [[=] | (k' & pre & post & [= <-] & ->)]. apply contains_spec. eauto.
    + split; [done|]. by intros [[=] | (k' & pre & post & [=] & _)].
Qed.

Lemma grade_problem_substring_witness :
  ∃ correct,
    grade_problem 1 "pP" "my flag{new}-extra" (Some "tU") world_two_teams
    = (Ret correct, world_two_teams) ∧
    (correct = true ↔
     (∃ pre post,
        "my flag{new}-extra" = (pre ++ i_flag instance_1_changed ++ post)%string) ∨
     (∃ k pre post, DEBUG_KEY world_two_teams = Some k ∧
                    "my flag{new}-extra" = (pre ++ k ++ post)%string)).
Proof.
  apply (grade_problem_substring 0 "pP" "my flag{new}-extra" "tU" world_two_teams
           instance_1_changed).
  exists team_U1, problem_P_changed, "iid-1". repeat split.
Defined.

(** ** Submission *)

(** X7. submit_key validates before it does anything else: when the tid,
    the pid or the key is longer than 100 characters the call raises a
    WebException and the database is untouched, with no instance assigned
    and no draw taken.  The lengths are counted in characters, not in
    bytes: three strs of at most 100 characters each pass validation,
    however many bytes their characters take. *)
Theorem submit_key_rejects_long_fields (fuel : nat) (tid pid key method : string)
    (uid ip : option string) (w : World) :
  ((100 < str_len tid ∨ 100 < str_len pid ∨ 100 < str_len key)%nat →
   ∃ m, submit_key fuel tid pid key method uid ip w = (Raise (WebException m), w)) ∧
  ((str_len tid ≤ 100 ∧ str_len pid ≤ 100 ∧ str_len key ≤ 100)%nat →
   validate_submission tid pid key w = (Ret tt, w)).
Proof.
  split.
  - intros Hlong. rewrite submit_key_unfold.
    unfold validate_submission, raise, ret.
    destruct (Nat.leb_spec (str_len tid) 100); simpl; [|eauto].
    destruct (Nat.leb_spec (str_len pid) 100); simpl; [|eauto].
    destruct (Nat.leb_spec (str_len key) 100); simpl; [|eauto].
    lia.
  - intros (Htid & Hpid & Hkey). unfold validate_submission, ret.
    by rewrite !(proj2 (Nat.leb_le _ _)).
Qed.

Lemma submit_key_rejects_long_fields_witness :
  (∃ m, submit_key 2 "tT" "pA"
          "0123456789012345678901234567890123456789012345678901234567890123456789012345678901234567890123456789x"
          "game" (Some "u2") None world_categories
        = (Raise (WebException m), world_categories)) ∧
  String.length key_of_34_euros = 102%nat ∧
  validate_submission "tT" "pA" key_of_34_euros world_categories
  = (Ret tt, world_categories).
Proof.
  split; [|split].
  - apply submit_key_rejects_long_fields.
    right. right. vm_compute. lia.
  - reflexivity.
  - apply (submit_key_rejects_long_fields 2 "tT" "pA" key_of_34_euros "game"
             (Some "u2") None world_categories).
    vm_compute. lia.
Defined.

(** X8. The two gates of submit_key.  After validation, a pid that
    get_unlocked_pids does not return for the team is refused with "not
    unlocked", and an unknown submitting user with "user does not exist".
    In both cases nothing is graded or recorded; the database is the one
    get_unlocked_pids left, whose ledger is the one before the call. *)
Theorem submit_key_gates (fuel : nat) (tid pid key method : string)
    (uid ip : option string) (w w1 : World) (unlocked : list string) :
  validate_submission tid pid key w = (Ret tt, w) →
  get_unlocked_pids tid None w = (Ret unlocked, w1) →
  submissions w1 = submissions w ∧
  (pid ∉ unlocked →
   submit_key fuel tid pid key method uid ip w
   = (Raise (InternalException NotUnlocked), w1)) ∧
  (pid ∈ unlocked → get_user w uid = None →
   submit_key fuel tid pid key method uid ip w
   = (Raise (InternalException UserDoesNotExist), w1)).
Proof.
  intros Hval Hun.
  destruct (get_unlocked_pids_inv _ _ _ _ _ Hun) as ((F & _) & _).
  split; [apply F|]. split.
  - intros Hnot. rewrite submit_key_unfold, Hval, Hun.
    by rewrite bool_decide_eq_false_2.
  - intros Hin Huser. rewrite submit_key_unfold, Hval, Hun.
    rewrite bool_decide_eq_true_2 by done.
    by rewrite (get_user_frame _ _ uid F), Huser.
Qed.

Lemma submit_key_gates_witness :
  submit_key 2 "tT" "pZ" "nope" "game" (Some "u2") None world_categories
  = (Raise (InternalException NotUnlocked),
     (get_unlocked_pids "tT" None world_categories).2) ∧
  submit_key 2 "tT" "pA" "nope" "game" (Some "u9") None world_categories
  = (Raise (InternalException UserDoesNotExist),
     (get_unlocked_pids "tT" None world_categories).2).
Proof.
  assert (Hun : get_unlocked_pids "tT" None world_categories
                = (Ret ["pA"; "pB"; "pC"],
                   (get_unlocked_pids "tT" None world_categories).2))
    by (vm_compute; reflexivity).
  split.
  - destruct (submit_key_gates 2 "tT" "pZ" "nope" "game" (Some "u2") None
                world_categories _ _ eq_refl Hun) as (_ & Hlocked & _).
    apply Hlocked. intros Hin.
    repeat (apply elem_of_cons in Hin as [Hin|Hin]; [discriminate Hin|]).
    inversion Hin.
  - destruct (submit_key_gates 2 "tT" "pA" "nope" "game" (Some "u9") None
                world_categories _ _ eq_refl Hun) as (_ & _ & Huser).
    apply Huser; [left | reflexivity].
Defined.



(** X10. The ledger only grows, by one entry at most.  Whatever its
    outcome, a call of submit_key leaves problems, bundles and users as
    they are and either leaves the ledger as it is or appends one entry to
    it, which carries the tid, pid, key and method of the call. *)
Theorem submit_key_appends_at_most_one (fuel : nat) (tid pid key method : string)
    (uid ip : option string) (w w' : World) (r : result (bool * bool * bool)) :
  submit_key fuel tid pid key method uid ip w = (r, w') →
  problems w' = problems w ∧ bundles w' = bundles w ∧ users w' = users w ∧
  (submissions w' = submissions w ∨
   ∃ a, submissions w' = submissions w ++ [a] ∧
        s_tid a = tid ∧ s_pid a = pid ∧ s_key a = key ∧ s_method a = method).
Proof.
  rewrite submit_key_unfold.
  destruct (validate_submission_cases tid pid key w) as [-> | [e ->]].
  2:{ intros [= <- <-]. by repeat split; try left. }
  destruct (get_unlocked_pids tid None w) as [[unlocked|e|] w1] eqn:Hun;
    destruct (get_unlocked_pids_inv _ _ _ _ _ Hun) as ((F1 & _) & _).
  2,3: intros [= <- <-]; split; [apply F1|]; split; [apply F1|];
       split; [apply F1|]; left; apply F1.
  case_bool_decide.
  2:{ intros [= <- <-]. split; [apply F1|]. split; [apply F1|].
      split; [apply F1|]. left. apply F1. }
  destruct (get_user w1 uid) as [user|].
  2:{ intros [= <- <-]. split; [apply F1|]. split; [apply F1|].
      split; [apply F1|]. left. apply F1. }
  cbv zeta.
  destruct (grade_problem fuel pid key (Some tid) w1) as [[c|e|] w2] eqn:Hgrade;
    destruct (grade_problem_inv _ _ _ _ _ _ _ Hgrade) as ((F2 & _) & _);
    pose proof (frame_trans _ _ _ F1 F2) as F.
  2,3: intros [= <- <-]; split; [apply F|]; split; [apply F|];
       split; [apply F|]; left; apply F.
  destruct (existsb _ (submissions w1)).
  { intros [= <- <-]. split; [apply F|]. split; [apply F|].
    split; [apply F|]. left. apply F. }
  destruct (get_problem w2 (Some pid) None true) as [e|problem].
  { intros [= <- <-]. split; [apply F|]. split; [apply F|].
    split; [apply F|]. left. apply F. }
  intros [= <- <-]. simpl.
  split; [apply F|]. split; [apply F|]. split; [apply F|].
  right. assert (Hs : submissions w2 = submissions w) by apply F.
  rewrite Hs. eexists. split; [reflexivity|]. by repeat split.
Qed.

Lemma submit_key_appends_at_most_one_witness :
  let w' := (submit_key 2 "tT" "pA" "nope" "game" (Some "u2") None
                        world_categories).2 in
  problems w' = problems world_categories ∧
  bundles w' = bundles world_categories ∧
  users w' = users world_categories ∧
  (submissions w' = submissions world_categories ∨
   ∃ a, submissions w' = submissions world_categories ++ [a] ∧
        s_tid a = "tT" ∧ s_pid a = "pA" ∧ s_key a = "nope" ∧ s_method a = "game").
Proof.
  intros w'.
  apply (submit_key_appends_at_most_one 2 "tT" "pA" "nope" "game" (Some "u2") None
           world_categories w'
           (submit_key 2 "tT" "pA" "nope" "game" (Some "u2") None
                       world_categories).1).
  unfold w'. by destruct (submit_key _ _ _ _ _ _ _ _).
Defined.

(** ** Unlocking *)

(** X11. The side effect of get_unlocked_pids.  Whatever its outcome the
    call writes only the instance map of the team it is asked about; when
    it returns, that team's map has an iid for every pid returned. *)
Theorem get_unlocked_pids_commits_instances (tid : string)
    (category : option string) (w w' : World) (r : result (list string)) :
  get_unlocked_pids tid category w = (r, w') →
  frame w w' ∧
  (∀ tid', tid' ≠ tid → get_team w' tid' = get_team w tid') ∧
  ∀ unlocked, r = Ret unlocked →
    ∃ team', get_team w' tid = inr team' ∧
             ∀ pid, pid ∈ unlocked → is_Some (t_instances team' !! pid).
Proof.
  intros Hrun.
  destruct (get_unlocked_pids_inv _ _ _ _ _ Hrun) as ((F & Hother & _) & _ & Hret).
  split; [done|]. split; [done|].
  intros unlocked Hr.
  destruct (Hret unlocked Hr) as (_ & _ & team' & _ & _ & Ht' & _ & Hall).
  by exists team'.
Qed.

Lemma get_unlocked_pids_commits_instances_witness :
  let w' := (get_unlocked_pids "tT" None world_categories).2 in
  frame world_categories w' ∧
  (∀ tid', tid' ≠ "tT" → get_team w' tid' = get_team world_categories tid') ∧
  ∀ unlocked, (get_unlocked_pids "tT" None world_categories).1 = Ret unlocked →
    ∃ team', get_team w' "tT" = inr team' ∧
             ∀ pid, pid ∈ unlocked → is_Some (t_instances team' !! pid).
Proof.
  intros w'.
  apply (get_unlocked_pids_commits_instances "tT" None world_categories w').
  unfold w'. by destruct (get_unlocked_pids _ _ _).
Defined.

Lemma weightsum_app (rule : Rule) (solved more : list ProblemView) :
  weightsum rule (solved ++ more) = weightsum rule solved + weightsum rule more.
Proof.
  induction solved as [|p solved IH]; [done|].
  rewrite <- app_comm_cons, !weightsum_cons, IH. lia.
Qed.

Lemma weightsum_nonneg (rule : Rule) (solved : list ProblemView) :
  (∀ k x, weightmap rule !! k = Some x → 0 ≤ x) → 0 ≤ weightsum rule solved.
Proof.
  intros Hpos. induction solved as [|p solved IH]; [done|].
  rewrite weightsum_cons.
  destruct (weightmap rule !! p_sanitized_name (v_problem p)) as [x|] eqn:Hx; simpl.
  - specialize (Hpos _ _ Hx). lia.
  - lia.
Qed.

(** X12. Solving more never locks a problem when no weight is negative:
    if the rules that the bundles define for a problem carry only weights
    of 0 or more, a problem unlocked by a list of solved problems is
    unlocked by any longer list. *)
Theorem is_problem_unlocked_monotone (w : World) (problem : Problem)
    (solved more : list ProblemView) :
  (∀ bundle deps rule k x,
     bundle ∈ bundles w →
     b_dependencies bundle = Some deps →
     deps !! p_sanitized_name problem = Some rule →
     weightmap rule !! k = Some x → 0 ≤ x) →
  is_problem_unlocked w problem solved = true →
  is_problem_unlocked w problem (solved ++ more) = true.
Proof.
  intros Hpos. unfold is_problem_unlocked, get_all_bundles.
  rewrite !is_problem_unlocked_foldl.
  intros [_ H]. split; [done|]. intros bundle Hb.
  specialize (H bundle Hb). rewrite is_problem_unlocked_step_true in H.
  apply is_problem_unlocked_step_true. intros deps rule Hin Hen Hdeps Hrule.
  specialize (H deps rule Hin Hen Hdeps Hrule).
  rewrite weightsum_app.
  pose proof (weightsum_nonneg rule more (λ k x, Hpos bundle deps rule k x Hb Hdeps Hrule)).
  lia.
Qed.

Lemma is_problem_unlocked_monotone_witness :
  is_problem_unlocked world_ABC problem_C [solved_view problem_B] = true ∧
  is_problem_unlocked world_ABC problem_C
    ([solved_view problem_B] ++ [solved_view problem_A]) = true.
Proof.
  split; [vm_compute; reflexivity|].
  apply is_problem_unlocked_monotone; [|vm_compute; reflexivity].
  intros bundle deps rule k x Hb Hdeps Hrule Hx.
  apply list_elem_of_singleton in Hb. subst bundle.
  injection Hdeps as <-.
  rewrite lookup_singleton_eq in Hrule. injection Hrule as <-.
  unfold rule_C in Hx. simpl in Hx.
  apply lookup_insert_Some in Hx as [[_ <-] | [_ Hx]]; [lia|].
  apply lookup_singleton_Some in Hx as [_ <-]. lia.
Defined.

(** ** Bundles *)

Lemma update_one_length {A} (matching : A → bool) (f : A → A) (c : list A) :
  length (update_one matching f c) = length c.
Proof.
  induction c as [|a c IH]; simpl; [done|].
  destruct (matching a); simpl; by rewrite ?IH.
Qed.

Lemma get_bundle_Some (w : World) (bid : string) (bundle : Bundle) :
  get_bundle w bid = inr bundle → bundle ∈ bundles w ∧ b_bid bundle = bid.
Proof.
  unfold get_bundle.
  destruct (find_one _ (bundles w)) as [b|] eqn:Hfind; [|done].
  intros [= <-]. apply find_one_Some in Hfind as [Hin Heq].
  split; [done | by apply str_eqb_eq].
Qed.

(** What update_bundle does to a stored bundle. *)
Lemma update_bundle_known (bid : string) (updates : BundleUpdates) (w : World)
    (old : Bundle) :
  get_bundle w bid = inr old →
  let w' := set_bundles (update_one (λ b, str_eqb (b_bid b) bid)
                                    (λ _, bundle_update updates old) (bundles w)) w in
  update_bundle bid updates w = (Ret tt, w') ∧
  get_bundle w' bid = inr (bundle_update updates old) ∧
  (∀ bid', bid' ≠ bid → get_bundle w' bid' = get_bundle w bid') ∧
  length (bundles w') = length (bundles w).
Proof.
  intros Hold w'. destruct (get_bundle_Some _ _ _ Hold) as [_ Hbid].
  split; [|split; [|split]].
  - unfold update_bundle, bind, read. by rewrite Hold.
  - unfold get_bundle in *. simpl.
    destruct (find_one _ (bundles w)) as [b|] eqn:Hfind; [|done].
    injection Hold as ->.
    erewrite (find_one_update_one _ (λ _, bundle_update updates old));
      [done | exact Hfind |]. simpl. by apply str_eqb_eq.
  - intros bid' Hne. unfold get_bundle. simpl.
    rewrite find_one_update_one_other; [done|].
    intros a Ha. apply str_eqb_eq in Ha.
    split; apply str_eqb_neq; simpl; congruence.
  - simpl. apply update_one_length.
Qed.






(** X14. Toggling the dependencies of a bundle.  For a stored bundle,
    set_bundle_dependencies_enabled(bid, enabled) returns; looking the bid
    up afterwards gives the same bundle with its flag set to [enabled] and
    every other field as before, every other bid reads as before and no
    document is added or removed.  For an unknown bid it raises "bundle
    does not exist" and writes nothing. *)
Theorem set_bundle_dependencies_enabled_toggles (bid : string) (enabled : bool)
    (w : World) :
  (∀ old, get_bundle w bid = inr old →
     ∃ w' new,
       set_bundle_dependencies_enabled bid enabled w = (Ret tt, w') ∧
       get_bundle w' bid = inr new ∧
       b_dependencies_enabled new = enabled ∧
       b_bid new = b_bid old ∧ b_name new = b_name old ∧
       b_author new = b_author old ∧ b_categories new = b_categories old ∧
       b_problems new = b_problems old ∧ b_description new = b_description old ∧
       b_dependencies new = b_dependencies old ∧
       (∀ bid', bid' ≠ bid → get_bundle w' bid' = get_bundle w bid') ∧
       length (bundles w') = length (bundles w)) ∧
  (∀ e, get_bundle w bid = inl e →
     set_bundle_dependencies_enabled bid enabled w
     = (Raise (WebException BundleDoesNotExist), w)).
Proof.
  split.
  - intros old Hold. unfold set_bundle_dependencies_enabled.
    destruct (update_bundle_known bid
                {| bu_name := None; bu_author := None; bu_categories := None;
                   bu_problems := None; bu_description := None;
                   bu_dependencies := None;
                   bu_dependencies_enabled := Some enabled |} w old Hold)
      as (Hrun & Hget & Hother & Hlen).
    do 2 eexists. split; [exact Hrun|]. split; [exact Hget|].
    by repeat split.
  - intros e He. unfold set_bundle_dependencies_enabled, update_bundle, bind, read.
    rewrite He. unfold get_bundle in He.
    by destruct (find_one _ (bundles w)); [|injection He as <-].
Qed.

Lemma set_bundle_dependencies_enabled_toggles_witness :
  ∃ w' new,
    set_bundle_dependencies_enabled "b1" false world_ABC = (Ret tt, w') ∧
    get_bundle w' "b1" = inr new ∧
    b_dependencies_enabled new = false ∧
    b_dependencies new = b_dependencies bundle_ABC ∧
    is_problem_unlocked world_ABC problem_C [] = false ∧
    is_problem_unlocked w' problem_C [] = true.
Proof.
  destruct (set_bundle_dependencies_enabled_toggles "b1" false world_ABC) as [Hknown _].
  destruct (Hknown bundle_ABC eq_refl)
    as (w' & new & Hrun & Hget & Hflag & _ & _ & _ & _ & _ & _ & Hdeps & _).
  exists w', new. split; [exact Hrun|]. split; [exact Hget|].
  split; [exact Hflag|]. split; [exact Hdeps|].
  split; [vm_compute; reflexivity|].
  assert (Hw : set_bundle_dependencies_enabled "b1" false world_ABC
               = (Ret tt, (set_bundle_dependencies_enabled "b1" false world_ABC).2))
    by (vm_compute; reflexivity).
  rewrite Hw in Hrun. injection Hrun as <-. vm_compute; reflexivity.
Defined.



(** ** Reading, counting and clearing the ledger *)

Lemma matches_insert (k : string) (v : value) (q : gmap string value)
    (s : Submission) :
  q !! k = None →
  matches (<[k := v]> q) s
  = bool_decide (submission_field s k = Some v) && matches q s.
Proof.
  intros Hk. apply eq_true_iff_eq.
  rewrite andb_true_iff, bool_decide_eq_true, !matches_spec. split.
  - intros H. split.
    + apply H. apply lookup_insert_eq.
    + intros k' v' Hkv. apply H. rewrite lookup_insert_ne; [done|]. congruence.
  - intros [Hv H] k' v'. rewrite lookup_insert. case_decide as Heq.
    + intros [= <-]. by subst k'.
    + apply H.
Qed.

Lemma matches_empty (s : Submission) : matches ∅ s = true.
Proof. apply matches_spec. intros k v. by rewrite lookup_empty. Qed.

Lemma submission_field_eq_str (s : Submission) (k x : string)
    (field : Submission → string) :
  submission_field s k = Some (VStr (field s)) →
  bool_decide (submission_field s k = Some (VStr x)) = str_eqb (field s) x.
Proof.
  intros ->. unfold str_eqb. apply bool_decide_ext. split; congruence.
Qed.

Lemma submission_field_pid s : submission_field s "pid" = Some (VStr (s_pid s)).
Proof. reflexivity. Qed.
Lemma submission_field_uid s : submission_field s "uid" = Some (VStr (s_uid s)).
Proof. reflexivity. Qed.
Lemma submission_field_tid s : submission_field s "tid" = Some (VStr (s_tid s)).
Proof. reflexivity. Qed.
Lemma submission_field_category s :
  submission_field s "category" = Some (VStr (s_category s)).
Proof. reflexivity. Qed.
Lemma submission_field_correct s :
  submission_field s "correct" = Some (VBool (s_correct s)).
Proof. reflexivity. Qed.

(** The filter that get_submissions and count_submissions build, as a
    test on the fields of a submission. *)
Lemma matches_submissions_match (pid uid tid category : option string)
    (correctness : option bool) (s : Submission) :
  matches (submissions_match pid uid tid category correctness) s = true ↔
  (∀ p, pid = Some p → s_pid s = p) ∧
  (∀ u, uid = Some u → s_uid s = u) ∧
  (uid = None → ∀ t, tid = Some t → s_tid s = t) ∧
  (∀ c, category = Some c → s_category s = c) ∧
  (∀ b, correctness = Some b → s_correct s = b).
Proof.
  unfold submissions_match, match_update.
  destruct pid as [p|], uid as [u|], tid as [t|], category as [c|],
           correctness as [b|]; simpl;
    rewrite ?matches_insert by (by simplify_map_eq);
    rewrite ?matches_empty, ?andb_true_iff, ?bool_decide_eq_true;
    rewrite ?submission_field_pid, ?submission_field_uid, ?submission_field_tid,
            ?submission_field_category, ?submission_field_correct;
    (split;
     [ intros H; repeat split; intros; simplify_eq;
       repeat match goal with H : _ ∧ _ |- _ => destruct H end;
       congruence
     | intros (Hp & Hu & Ht & Hc & Hb);
       repeat split;
       try (rewrite <- (Hp _ eq_refl)); try (rewrite <- (Hu _ eq_refl));
       try (rewrite <- (Ht eq_refl _ eq_refl)); try (rewrite <- (Hc _ eq_refl));
       try (rewrite <- (Hb _ eq_refl)); reflexivity ]).
Qed.

Lemma filter_sublist {A} (f : A → bool) (l : list A) : sublist (List.filter f l) l.
Proof.
  induction l as [|a l IH]; simpl; [constructor|].
  destruct (f a); by constructor.
Qed.

(** X16. What get_submissions selects.  A ledger entry is returned exactly
    when it has the pid, the category and the correctness asked for (each
    only if given) and the uid asked for; the tid is compared only when no
    uid is given.  The entries come in ledger order, and
    count_submissions with the same arguments is their number. *)
Theorem get_submissions_selects (w : World) (pid uid tid category : option string)
    (correctness : option bool) :
  (∀ s, s ∈ get_submissions w pid uid tid category correctness ↔
        s ∈ submissions w ∧
        (∀ p, pid = Some p → s_pid s = p) ∧
        (∀ u, uid = Some u → s_uid s = u) ∧
        (uid = None → ∀ t, tid = Some t → s_tid s = t) ∧
        (∀ c, category = Some c → s_category s = c) ∧
        (∀ b, correctness = Some b → s_correct s = b)) ∧
  sublist (get_submissions w pid uid tid category correctness) (submissions w) ∧
  count_submissions w pid uid tid category correctness
  = length (get_submissions w pid uid tid category correctness).
Proof.
  split; [|split; [apply filter_sublist | reflexivity]].
  intros s. unfold get_submissions.
  by rewrite list_elem_of_In, filter_In, <- list_elem_of_In, matches_submissions_match.
Qed.

Lemma matches_uid (uid : string) (s : Submission) :
  matches (<["uid" := VStr uid]> ∅) s = str_eqb (s_uid s) uid.
Proof.
  rewrite matches_insert, matches_empty, andb_true_r by done.
  by apply submission_field_eq_str.
Qed.

Lemma matches_tid (tid : string) (s : Submission) :
  matches (<["tid" := VStr tid]> ∅) s = str_eqb (s_tid s) tid.
Proof.
  rewrite matches_insert, matches_empty, andb_true_r by done.
  by apply submission_field_eq_str.
Qed.

(** X17. clear_submissions without a pid.  Given a uid it removes the
    entries of that user and only those, whatever tid is passed along;
    given only a tid it removes the entries of that team and only those;
    given nothing it raises and removes nothing.  What remains keeps its
    order. *)
Theorem clear_submissions_by_user_or_team (swap : bool) (uid tid : option string)
    (w : World) :
  (∀ u, uid = Some u →
     clear_submissions swap uid tid None w
     = (Ret tt,
        set_submissions
          (List.filter (λ s, negb (str_eqb (s_uid s) u)) (submissions w)) w)) ∧
  (∀ t, uid = None → tid = Some t →
     clear_submissions swap uid tid None w
     = (Ret tt,
        set_submissions
          (List.filter (λ s, negb (str_eqb (s_tid s) t)) (submissions w)) w)) ∧
  (uid = None → tid = None →
   clear_submissions swap uid tid None w
   = (Raise (InternalException MustSupplyTidUidOrPid), w)).
Proof.
  split; [|split].
  - intros u ->. unfold clear_submissions, bind, ret, remove_submissions.
    do 2 f_equal. apply filter_ext. intros s. by rewrite matches_uid.
  - intros t -> ->. unfold clear_submissions, bind, ret, remove_submissions.
    do 2 f_equal. apply filter_ext. intros s. by rewrite matches_tid.
  - by intros -> ->.
Qed.

Lemma clear_submissions_by_user_or_team_witness :
  clear_submissions false (Some "u1") (Some "tU") None world_two_teams
  = (Ret tt, set_submissions [right_for_U] world_two_teams) ∧
  clear_submissions false None (Some "tU") None world_two_teams
  = (Ret tt, set_submissions [wrong_for_T] world_two_teams).
Proof.
  destruct (clear_submissions_by_user_or_team false (Some "u1") (Some "tU")
              world_two_teams) as (Huser & _).
  destruct (clear_submissions_by_user_or_team false None (Some "tU")
              world_two_teams) as (_ & Hteam & _).
  split.
  - rewrite (Huser "u1" eq_refl). reflexivity.
  - rewrite (Hteam "tU" eq_refl eq_refl). reflexivity.
Defined.

(** X18. clear_all_submissions is a debug operation.  Without DEBUG_KEY
    it raises and the ledger is as it was.  With DEBUG_KEY set it empties
    the ledger and nothing else: afterwards every count_submissions is 0 and
    every team has an empty list of solved pids, while problems and teams,
    the committed instances included, are untouched. *)
Theorem clear_all_submissions_debug_only (w : World) :
  (DEBUG_KEY w = None →
   clear_all_submissions w = (Raise (InternalException DebugModeRequired), w)) ∧
  (is_Some (DEBUG_KEY w) →
   ∃ w',
     clear_all_submissions w = (Ret tt, w') ∧
     submissions w' = [] ∧ problems w' = problems w ∧ teams w' = teams w ∧
     (∀ pid uid tid category correctness,
        count_submissions w' pid uid tid category correctness = 0%nat) ∧
     (∀ tid team category show_disabled,
        get_team w tid = inr team →
        get_solved_pids w' tid category show_disabled = inr [])).
Proof.
  split.
  - intros Hnone. unfold clear_all_submissions, bind, read, raise. by rewrite Hnone.
  - intros [k Hk]. eexists. split.
    { unfold clear_all_submissions, bind, read. by rewrite Hk. }
    split; [done|]. split; [done|]. split; [done|]. split; [done|].
    intros tid team category show_disabled Ht.
    unfold get_solved_pids, get_solved_problems.
    change (get_team (set_submissions [] w) tid) with (get_team w tid).
    rewrite Ht. unfold get_submissions. simpl.
    assert (Hnil : concat (map (λ _ : string, @nil Submission)
                               (get_team_uids (set_submissions [] w) (t_tid team)))
                   = []).
    { induction (get_team_uids _ _) as [|u us IH]; [done | exact IH]. }
    by rewrite Hnil.
Qed.

Lemma clear_all_submissions_debug_only_witness :
  clear_all_submissions world_two_teams
  = (Raise (InternalException DebugModeRequired), world_two_teams) ∧
  ∃ w',
    clear_all_submissions world_debug = (Ret tt, w') ∧
    submissions w' = [] ∧ teams w' = teams world_debug ∧
    get_solved_pids w' "tU" None false = inr [].
Proof.
  destruct (clear_all_submissions_debug_only world_two_teams) as [Hoff _].
  destruct (clear_all_submissions_debug_only world_debug) as [_ Hon].
  split; [by apply Hoff|].
  destruct Hon as (w' & Hrun & Hnil & _ & Hteams & _ & Hsolved).
  { by exists "debug-key". }
  exists w'. split; [exact Hrun|]. split; [exact Hnil|]. split; [exact Hteams|].
  by apply (Hsolved "tU" team_U1).
Defined.

(** ** Reevaluation, entry by entry *)

Lemma set_correct_same (s : Submission) : set_correct (s_correct s) s = s.
Proof. by destruct s. Qed.

Lemma apply_entries_set_correct keys s :
  ∃ c, apply_entries keys s = set_correct c s.
Proof.
  revert s. induction keys as [|kc keys IH]; intros s.
  - exists (s_correct s). by rewrite set_correct_same.
  - rewrite apply_entries_cons. destruct (IH (apply_entry kc s)) as [c ->].
    exists c. unfold apply_entry. destruct (kc.2); [|done].
    by destruct (matches _ s).
Qed.

Lemma reevaluate_keys_frame fuel pid subs keys0 w r w' :
  reevaluate_keys fuel pid subs keys0 w = (r, w') → frame w w'.
Proof.
  revert keys0 w. induction subs as [|s subs IH]; intros keys0 w; simpl.
  { intros [= <- <-]. apply frame_refl. }
  destruct (in_keys (s_key s) keys0); [apply IH|].
  unfold bind at 1.
  destruct (grade_problem fuel pid (s_key s) (Some (s_tid s)) w) as [[c|e|] w1] eqn:Hgrade;
    destruct (grade_problem_inv _ _ _ _ _ _ _ Hgrade) as ((F & _) & _).
  - intros Hrun. eapply frame_trans; [exact F | by eapply IH].
  - by intros [= <- <-].
  - by intros [= <- <-].
Qed.

(** A run of the reevaluation that returns, in one piece: the keys it
    found, the database after the first loop, and the ledger after the
    second. *)
Lemma reevaluate_submissions_for_problem_run fuel pid w w1 :
  reevaluate_submissions_for_problem fuel pid w = (Ret tt, w1) →
  ∃ keys w',
    w1 = set_submissions (map (apply_entries keys) (submissions w)) w' ∧
    frame w w' ∧
    NoDup (map fst keys) ∧
    (∀ k ch, (k, ch) ∈ keys →
       ∃ first instance,
         find_one (λ x, str_eqb (s_pid x) pid && str_eqb (s_key x) k)
                  (submissions w) = Some first ∧
         committed w' pid (s_tid first) instance ∧
         ch = if negb (eqb (check_key (DEBUG_KEY w) (i_flag instance) k)
                           (s_correct first))
              then Some (check_key (DEBUG_KEY w) (i_flag instance) k)
              else None) ∧
    (∀ s, s ∈ submissions w → s_pid s = pid → s_key s ∈ map fst keys).
Proof.
  rewrite reevaluate_submissions_for_problem_unfold.
  destruct (get_problem w (Some pid) None true) as [e|problem]; [done|].
  destruct (reevaluate_keys fuel pid _ [] w) as [[keys|e|] w'] eqn:Hkeys; [|done|done].
  rewrite apply_changes_spec. intros [= <-].
  destruct (reevaluate_keys_inv _ _ _ _ _ _ _ Hkeys)
    as (F & _ & added & Heq & Hadded & Hnd & Hall).
  simpl in Heq. subst added.
  exists keys, w'. split; [by rewrite (proj1 (proj2 (proj2 (proj2 F))))|].
  split; [done|]. split; [done|]. split.
  - intros k ch Hkc. destruct (Hadded k ch Hkc) as (_ & first & instance & Hfirst & Hc & Hch).
    exists first, instance. split; [|done].
    unfold get_submissions in Hfirst. rewrite find_one_filter in Hfirst.
    rewrite <- Hfirst. apply find_one_ext. intros a. by rewrite matches_pid.
  - intros s Hs Hpid. apply Hall.
    apply list_elem_of_In, filter_In. split; [by apply list_elem_of_In|].
    rewrite matches_pid. by apply str_eqb_eq.
Qed.

(** X19. The update of the reevaluation goes by key alone.  After a run
    for pid that returns, take any key some submission for pid bears, and
    the first such submission: the key was graded once, for the team of
    that first submission.  When the grade equals what the first submission
    stored, no entry bearing the key has changed; when it differs, every
    entry of the ledger bearing the key stores the grade, whichever
    problem and team the entry belongs to.  Entries bearing a key that no
    submission for pid bears are as they were. *)
Theorem reevaluate_updates_by_key_alone (fuel : nat) (pid : string) (w w1 : World) :
  reevaluate_submissions_for_problem fuel pid w = (Ret tt, w1) →
  (∀ k first,
     find_one (λ x, str_eqb (s_pid x) pid && str_eqb (s_key x) k) (submissions w)
     = Some first →
     ∃ instance,
       committed w1 pid (s_tid first) instance ∧
       ∀ (i : nat) s,
         submissions w !! i = Some s → s_key s = k →
         submissions w1 !! i =
         Some (if eqb (check_key (DEBUG_KEY w) (i_flag instance) k) (s_correct first)
               then s
               else set_correct (check_key (DEBUG_KEY w) (i_flag instance) k) s)) ∧
  (∀ (i : nat) s,
     submissions w !! i = Some s →
     find_one (λ x, str_eqb (s_pid x) pid && str_eqb (s_key x) (s_key s))
              (submissions w) = None →
     submissions w1 !! i = Some s).
Proof.
  intros Hrun.
  destruct (reevaluate_submissions_for_problem_run _ _ _ _ Hrun)
    as (keys & w' & -> & F & Hnd & Hkeys & Hall).
  split.
  - intros k first Hfirst.
    apply find_one_Some in Hfirst as Hf. destruct Hf as [Hin Hmatch].
    apply andb_true_iff in Hmatch as [Hp Hk].
    apply str_eqb_eq in Hp, Hk.
    specialize (Hall first Hin Hp). rewrite Hk in Hall.
    apply list_elem_of_fmap in Hall as ([k' ch] & Hk' & Hkc). simpl in Hk'. subst k'.
    destruct (Hkeys k ch Hkc) as (first' & instance & Hfirst' & Hc & Hch).
    rewrite Hfirst in Hfirst'. injection Hfirst' as <-.
    exists instance. split; [exact Hc|].
    intros i s Hi Hs. simpl. rewrite list_lookup_fmap, Hi. simpl. f_equal.
    rewrite <- Hs in Hkc. rewrite (apply_entries_key _ _ _ Hnd Hkc), Hch.
    by destruct (eqb _ _).
  - intros i s Hi Hnone. simpl. rewrite list_lookup_fmap, Hi. simpl. f_equal.
    apply apply_entries_other. intros Hin.
    apply list_elem_of_fmap in Hin as ([k ch] & Hk & Hkc). simpl in Hk. subst k.
    destruct (Hkeys _ _ Hkc) as (first & _ & Hfirst & _). congruence.
Qed.

Lemma reevaluate_updates_by_key_alone_witness :
  ∃ w1,
    reevaluate_submissions_for_problem 2 "pP" world_shared_key = (Ret tt, w1) ∧
    submissions world_shared_key !! 1%nat = Some right_for_Q ∧
    s_pid right_for_Q = "pQ" ∧
    ∃ instance,
      committed w1 "pP" (s_tid right_for_U) instance ∧
      ∀ (i : nat) s,
        submissions world_shared_key !! i = Some s → s_key s = "flag{one}" →
        submissions w1 !! i =
        Some (if eqb (check_key (DEBUG_KEY world_shared_key) (i_flag instance)
                                "flag{one}")
                     (s_correct right_for_U)
              then s
              else set_correct (check_key (DEBUG_KEY world_shared_key)
                                          (i_flag instance) "flag{one}") s).
Proof.
  assert (Hrun : reevaluate_submissions_for_problem 2 "pP" world_shared_key
                 = (Ret tt,
                    (reevaluate_submissions_for_problem 2 "pP" world_shared_key).2))
    by (vm_compute; reflexivity).
  exists ((reevaluate_submissions_for_problem 2 "pP" world_shared_key).2).
  split; [exact Hrun|]. split; [reflexivity|]. split; [reflexivity|].
  destruct (reevaluate_updates_by_key_alone _ _ _ _ Hrun) as [Hkey _].
  apply (Hkey "flag{one}" right_for_U). vm_compute; reflexivity.
Defined.

Lemma only_correct_changed_refl ledger : only_correct_changed ledger ledger.
Proof.
  unfold only_correct_changed.
  induction ledger as [|s ledger IH]; constructor; [|done].
  exists (s_correct s). by rewrite set_correct_same.
Qed.

Lemma only_correct_changed_trans l1 l2 l3 :
  only_correct_changed l1 l2 → only_correct_changed l2 l3 →
  only_correct_changed l1 l3.
Proof.
  unfold only_correct_changed. intros H12. revert l3.
  induction H12 as [|s1 s2 l1 l2 [c ->] _ IH]; intros l3 H23.
  - inversion H23. constructor.
  - inversion H23 as [|? s3 ? l3' [c' ->] H23']; subst.
    constructor; [by exists c' | by apply IH].
Qed.

Lemma only_correct_changed_apply keys ledger :
  only_correct_changed ledger (map (apply_entries keys) ledger).
Proof.
  unfold only_correct_changed.
  induction ledger as [|s ledger IH]; constructor; [|done].
  apply apply_entries_set_correct.
Qed.

(** What a run for one pid leaves of the database, whatever its outcome. *)
Lemma reevaluate_submissions_for_problem_keeps fuel pid w r w1 :
  reevaluate_submissions_for_problem fuel pid w = (r, w1) →
  problems w1 = problems w ∧ bundles w1 = bundles w ∧ users w1 = users w ∧
  only_correct_changed (submissions w) (submissions w1).
Proof.
  rewrite reevaluate_submissions_for_problem_unfold.
  destruct (get_problem w (Some pid) None true) as [e|problem].
  { intros [= <- <-]. repeat split. apply only_correct_changed_refl. }
  destruct (reevaluate_keys fuel pid _ [] w) as [[keys|e|] w'] eqn:Hkeys;
    pose proof (reevaluate_keys_frame _ _ _ _ _ _ _ Hkeys) as (Hp & Hb & Hu & Hs & _).
  - rewrite apply_changes_spec. intros [= <- <-]. simpl.
    split; [done|]. split; [done|]. split; [done|].
    rewrite Hs. apply only_correct_changed_apply.
  - intros [= <- <-]. split; [done|]. split; [done|]. split; [done|].
    rewrite Hs. apply only_correct_changed_refl.
  - intros [= <- <-]. split; [done|]. split; [done|]. split; [done|].
    rewrite Hs. apply only_correct_changed_refl.
Qed.

(** X20. A full reevaluation rewrites correctness and nothing else.
    Whatever its outcome, reevaluate_all_submissions leaves problems,
    bundles and users as they are, and the ledger after it is the ledger
    before it entry for entry: no entry is added, removed or moved, and an
    entry differs from its former self at most in its stored correctness. *)
Theorem reevaluate_all_submissions_rewrites_correctness_only (fuel : nat)
    (w w1 : World) (r : result unit) :
  reevaluate_all_submissions fuel w = (r, w1) →
  problems w1 = problems w ∧ bundles w1 = bundles w ∧ users w1 = users w ∧
  length (submissions w1) = length (submissions w) ∧
  ∀ (i : nat) s, submissions w !! i = Some s →
                 ∃ c, submissions w1 !! i = Some (set_correct c s).
Proof.
  unfold reevaluate_all_submissions. unfold bind at 1. unfold read.
  generalize (get_all_problems w None true). intros all_problems.
  assert (Hloop : ∀ w0,
    for_each all_problems
      (λ problem, reevaluate_submissions_for_problem fuel (p_pid problem)) w0
    = (r, w1) →
    problems w1 = problems w0 ∧ bundles w1 = bundles w0 ∧ users w1 = users w0 ∧
    only_correct_changed (submissions w0) (submissions w1)).
  { induction all_problems as [|problem ps IH]; intros w0; simpl.
    - intros [= <- <-]. repeat split. apply only_correct_changed_refl.
    - unfold bind at 1.
      destruct (reevaluate_submissions_for_problem fuel (p_pid problem) w0)
        as [[[]|e|] w2] eqn:Hone;
        destruct (reevaluate_submissions_for_problem_keeps _ _ _ _ _ Hone)
          as (Hp & Hb & Hu & Hs).
      + intros Hrest. destruct (IH _ Hrest) as (Hp' & Hb' & Hu' & Hs').
        split; [congruence|]. split; [congruence|]. split; [congruence|].
        by eapply only_correct_changed_trans.
      + by intros [= <- <-].
      + by intros [= <- <-]. }
  intros Hrun. destruct (Hloop w Hrun) as (Hp & Hb & Hu & Hs).
  split; [done|]. split; [done|]. split; [done|]. split.
  - symmetry. by eapply Forall2_length.
  - intros i s Hi.
    destruct (Forall2_lookup_l _ _ _ _ _ Hs Hi) as (s' & Hi' & c & ->). eauto.
Qed.

Lemma reevaluate_all_submissions_rewrites_correctness_only_witness :
  let w1 := (reevaluate_all_submissions 2 world_shared_key).2 in
  (reevaluate_all_submissions 2 world_shared_key).1 = Ret tt ∧
  problems w1 = problems world_shared_key ∧
  bundles w1 = bundles world_shared_key ∧ users w1 = users world_shared_key ∧
  length (submissions w1) = length (submissions world_shared_key) ∧
  ∀ (i : nat) s, submissions world_shared_key !! i = Some s →
                 ∃ c, submissions w1 !! i = Some (set_correct c s).
Proof.
  intros w1. split; [vm_compute; reflexivity|].
  apply (reevaluate_all_submissions_rewrites_correctness_only 2 world_shared_key w1
           (reevaluate_all_submissions 2 world_shared_key).1).
  unfold w1. by destruct (reevaluate_all_submissions _ _).
Defined.

(** ** Solved pids *)

Lemma get_problem_by_pid (w : World) (pid : string) (show_disabled : bool)
    (problem : Problem) :
  get_problem w (Some pid) None show_disabled = inr problem →
  problem ∈ problems w ∧ p_pid problem = pid ∧
  (show_disabled = true ∨ p_disabled problem = false).
Proof.
  unfold get_problem.
  destruct (find_one _ (problems w)) as [p|] eqn:Hfind; [|done].
  intros [= <-]. apply find_one_Some in Hfind as [Hin Hmatch].
  apply andb_true_iff in Hmatch as [Hpid Hdis]. apply str_eqb_eq in Hpid.
  split; [done|]. split; [done|].
  apply orb_true_iff in Hdis as [?|Hdis]; [by left|].
  right. by apply negb_true_iff.
Qed.

(** The loop of get_solved_problems: which pids it adds to the result. *)
Lemma solved_loop_pids w show_disabled subs pids0 result0 result :
  solved_loop w show_disabled subs pids0 result0 = inr result →
  (∀ pid, pid ∈ map (λ v, p_pid (v_problem v)) result0 → pid ∈ pids0) →
  NoDup (map (λ v, p_pid (v_problem v)) result0) →
  NoDup (map (λ v, p_pid (v_problem v)) result) ∧
  ∀ pid,
    pid ∈ map (λ v, p_pid (v_problem v)) result ↔
    pid ∈ map (λ v, p_pid (v_problem v)) result0 ∨
    ((pid ∉ pids0) ∧ (∃ s, s ∈ subs ∧ s_pid s = pid) ∧
     ∃ problem, get_problem w (Some pid) None true = inr problem ∧
                (p_disabled problem = false ∨ show_disabled = true)).
Proof.
  revert pids0 result0.
  induction subs as [|s subs IH]; intros pids0 result0; simpl.
  { intros [= <-] _ Hnd. split; [done|]. intros pid. split; [by left|].
    intros [?|(_ & (s & Hs & _) & _)]; [done | inversion Hs]. }
  case_bool_decide as Hseen.
  - intros Hrun Hsub Hnd. destruct (IH _ _ Hrun Hsub Hnd) as [Hnd' Hiff].
    split; [done|]. intros pid. rewrite Hiff. split.
    + intros [?|(Hnew & (s' & Hs' & Hpid) & Hproblem)]; [by left|].
      right. split; [done|]. split; [|done]. exists s'. split; [by right | done].
    + intros [?|(Hnew & (s' & Hs' & Hpid) & Hproblem)]; [by left|].
      right. split; [done|]. split; [|done].
      apply elem_of_cons in Hs' as [->|Hs']; [congruence|]. by exists s'.
  - destruct (get_problem w (Some (s_pid s)) None true) as [e|p] eqn:Hp; [done|].
    destruct (get_problem_by_pid _ _ _ _ Hp) as (_ & Hpid & _).
    intros Hrun Hsub Hnd. simpl in Hrun.
    set (kept := negb (p_disabled p) || show_disabled) in *.
    set (result1 := if kept
                    then result0 ++ [set_solve_time (s_timestamp s) (unlocked_filter p true)]
                    else result0) in *.
    assert (Hpids1 : ∀ pid, pid ∈ map (λ v, p_pid (v_problem v)) result1 ↔
                            pid ∈ map (λ v, p_pid (v_problem v)) result0 ∨
                            (kept = true ∧ pid = s_pid s)).
    { intros pid. unfold result1. destruct kept.
      - rewrite map_app, elem_of_app. simpl. rewrite list_elem_of_singleton, Hpid.
        split; (intros [?|?]; [by left | right]); tauto.
      - split; [by left | by intros [?|[[=] _]]]. }
    destruct (IH (pids0 ++ [s_pid s]) result1 Hrun) as [Hnd' Hiff].
    { intros pid Hin. apply Hpids1 in Hin as [Hin|[_ ->]]; apply elem_of_app.
      - left. by apply Hsub.
      - right. by left. }
    { unfold result1. destruct kept; [|done].
      rewrite map_app. apply NoDup_app. split; [done|]. split.
      - intros pid Hin1 Hin2. simpl in Hin2. apply list_elem_of_singleton in Hin2.
        rewrite Hpid in Hin2. subst pid. by apply Hseen, Hsub.
      - simpl. apply NoDup_singleton. }
    split; [done|]. intros pid. rewrite Hiff, Hpids1.
    assert (Hkept : kept = true ↔ (p_disabled p = false ∨ show_disabled = true)).
    { unfold kept. by rewrite orb_true_iff, negb_true_iff. }
    split.
    + intros [[?|[Hk ->]] | (Hnew & (s' & Hs' & Hpid') & Hproblem)].
      * by left.
      * right. split; [done|]. split; [exists s; split; [left | done]|].
        exists p. split; [done | by apply Hkept].
      * right. apply not_elem_of_app in Hnew as [Hnew _].
        split; [done|]. split; [|done]. exists s'. split; [by right | done].
    + intros [?|(Hnew & (s' & Hs' & Hpid') & problem & Hproblem & Hen)];
        [by left; left|].
      destruct (decide (pid = s_pid s)) as [->|Hne].
      * left. right. split; [|done]. apply Hkept.
        rewrite Hp in Hproblem. by injection Hproblem as <-.
      * right. split.
        { apply not_elem_of_app. split; [done|]. by rewrite list_elem_of_singleton. }
        split; [|by exists problem].
        apply elem_of_cons in Hs' as [->|Hs']; [congruence|]. by exists s'.
Qed.

Lemma get_solved_problems_pids (w : World) (tid : string)
    (category : option string) (show_disabled : bool)
    (solved : list ProblemView) :
  get_solved_problems w tid category show_disabled = inr solved →
  NoDup (map (λ v, p_pid (v_problem v)) solved) ∧
  ∀ pid,
    pid ∈ map (λ v, p_pid (v_problem v)) solved ↔
    (∃ s, s ∈ submissions w ∧ s_pid s = pid ∧ s_correct s = true ∧
          (∀ c, category = Some c → s_category s = c) ∧
          (s_tid s = tid ∨ s_uid s ∈ get_team_uids w tid)) ∧
    ∃ problem, get_problem w (Some pid) None true = inr problem ∧
               (p_disabled problem = false ∨ show_disabled = true).
Proof.
  unfold get_solved_problems.
  destruct (get_team w tid) as [e|team] eqn:Ht; [done|].
  destruct (get_team_Some _ _ _ Ht) as [_ Htid]. rewrite Htid.
  intros Hloop.
  destruct (solved_loop_pids _ _ _ _ _ _ Hloop) as [Hnd Hiff].
  { intros pid Hin. inversion Hin. }
  { constructor. }
  split; [done|]. intros pid. rewrite Hiff. clear Hiff Hloop Hnd.
  assert (Hsubs : ∀ s,
    s ∈ get_submissions w None None (Some tid) category (Some true) ++
        concat (map (λ uid, get_submissions w None (Some uid) None category (Some true))
                    (get_team_uids w tid)) ↔
    s ∈ submissions w ∧ s_correct s = true ∧
    (∀ c, category = Some c → s_category s = c) ∧
    (s_tid s = tid ∨ s_uid s ∈ get_team_uids w tid)).
  { intros s. rewrite elem_of_app. unfold get_submissions.
    rewrite list_elem_of_In, filter_In, <- list_elem_of_In, matches_submissions_match.
    rewrite (list_elem_of_In (concat _)), in_concat. split.
    - intros [(Hin & _ & _ & Htid' & Hc & Hb) | (l & Hl & Hs)].
      + split; [done|]. split; [by apply Hb|]. split; [done|]. left. by apply Htid'.
      + apply in_map_iff in Hl as (uid & <- & Huid).
        apply filter_In in Hs as [Hs Hm]. apply matches_submissions_match in Hm
          as (_ & Hu & _ & Hc & Hb).
        split; [by apply list_elem_of_In|]. split; [by apply Hb|]. split; [done|].
        right. rewrite (Hu uid eq_refl). by apply list_elem_of_In.
    - intros (Hin & Hb & Hc & [Hteam|Hmember]).
      + left. split; [done|]. split; [done|]. split; [done|].
        split; [by intros _ ? [= <-]|]. split; [done|]. by intros ? [= <-].
      + right. exists (List.filter
                         (matches (submissions_match None (Some (s_uid s)) None
                                                    category (Some true)))
                         (submissions w)).
        split.
        * apply in_map_iff. exists (s_uid s). split; [done|]. by apply list_elem_of_In.
        * apply filter_In. split; [by apply list_elem_of_In|].
          apply matches_submissions_match. split; [done|].
          split; [by intros ? [= <-]|]. split; [done|]. split; [done|].
          by intros ? [= <-]. }
  split.
  - intros [Hin | (_ & (s & Hs & Hpid) & Hproblem)]; [inversion Hin|].
    split; [|done]. apply Hsubs in Hs as (Hin & Hb & Hc & Hwho). by exists s.
  - intros ((s & Hin & Hpid & Hb & Hc & Hwho) & Hproblem). right.
    split; [intros Hnil; inversion Hnil|]. split; [|done].
    exists s. split; [|done]. by apply Hsubs.
Qed.




(** X21. The solved pids of a team.  When get_solved_pids returns, no pid
    occurs twice in its result, and a pid is in it exactly when some
    correct submission for it, of the category asked for if one is given,
    was made under the team's tid or by a user who is now a member of the
    team, and the problem is enabled or disabled problems are asked for. *)
Theorem get_solved_pids_distinct (w : World) (tid : string)
    (category : option string) (show_disabled : bool) (pids : list string) :
  get_solved_pids w tid category show_disabled = inr pids →
  NoDup pids ∧
  ∀ pid,
    pid ∈ pids ↔
    (∃ s, s ∈ submissions w ∧ s_pid s = pid ∧ s_correct s = true ∧
          (∀ c, category = Some c → s_category s = c) ∧
          (s_tid s = tid ∨ s_uid s ∈ get_team_uids w tid)) ∧
    ∃ problem, get_problem w (Some pid) None true = inr problem ∧
               (p_disabled problem = false ∨ show_disabled = true).
Proof.
  unfold get_solved_pids.
  destruct (get_solved_problems w tid category show_disabled) as [e|solved] eqn:Hs;
    [done|].
  intros [= <-]. by apply get_solved_problems_pids.
Qed.

Lemma get_solved_pids_distinct_witness :
  get_solved_pids world_categories "tT" None false = inr ["pB"] ∧
  NoDup ["pB"] ∧
  ∀ pid,
    pid ∈ ["pB"] ↔
    (∃ s, s ∈ submissions world_categories ∧ s_pid s = pid ∧ s_correct s = true ∧
          (∀ c, None = Some c → s_category s = c) ∧
          (s_tid s = "tT" ∨ s_uid s ∈ get_team_uids world_categories "tT")) ∧
    ∃ problem, get_problem world_categories (Some pid) None true = inr problem ∧
               (p_disabled problem = false ∨ false = true).
Proof.
  assert (Hrun : get_solved_pids world_categories "tT" None false = inr ["pB"])
    by (vm_compute; reflexivity).
  split; [exact Hrun|].
  exact (get_solved_pids_distinct _ _ _ _ _ Hrun).
Defined.

(** ** Unlocked pids and the solved set *)




(** ** Problems: lookup, update, removal *)

Lemma get_problem_pid_find (w : World) (pid : string) :
  get_problem w (Some pid) None true =
  match find_one (λ p, str_eqb (p_pid p) pid) (problems w) with
  | Some problem => inr problem
  | None => inl (SevereInternalException CouldNotFindProblem)
  end.
Proof.
  unfold get_problem.
  rewrite (find_one_ext _ (λ p, str_eqb (p_pid p) pid)); [done|].
  intros a. simpl. apply andb_true_r.
Qed.

Lemma get_problem_pid_error (w : World) (pid : string) (e : exn) :
  get_problem w (Some pid) None true = inl e →
  e = SevereInternalException CouldNotFindProblem ∧
  ∀ p, p ∈ problems w → p_pid p ≠ pid.
Proof.
  rewrite get_problem_pid_find.
  destruct (find_one _ (problems w)) eqn:Hfind; [done|].
  intros [= <-]. split; [done|]. intros p Hp.
  rewrite find_one_None in Hfind. by apply str_eqb_neq, Hfind.
Qed.

(** X22. update_problem on a stored problem.  Unless the updates carry a
    different pid, and provided the ints of the updated document (its
    score, the server numbers of its instances) fit in 8 bytes, the call
    returns the stored problem overlaid with the updates, looking the pid
    up afterwards gives that same problem, every other pid reads as
    before, and no document is added or removed; teams and the ledger are
    untouched.  When an int of the updated document does not fit, the call
    raises OverflowError and writes nothing.  For an unknown pid it raises
    "could not find problem" and writes nothing. *)
Theorem update_problem_round_trip (pid : string) (updates : ProblemUpdates)
    (w : World) :
  (∀ old,
     get_problem w (Some pid) None true = inr old →
     pu_pid updates = None ∨ pu_pid updates = Some pid →
     problem_encodable (problem_update updates old) = true →
     ∃ w',
       update_problem pid updates w = (Ret (problem_update updates old), w') ∧
       get_problem w' (Some pid) None true = inr (problem_update updates old) ∧
       (∀ pid', pid' ≠ pid →
          get_problem w' (Some pid') None true = get_problem w (Some pid') None true) ∧
       length (problems w') = length (problems w) ∧
       teams w' = teams w ∧ submissions w' = submissions w) ∧
  (∀ old,
     get_problem w (Some pid) None true = inr old →
     problem_encodable (problem_update updates old) = false →
     update_problem pid updates w = (Raise OverflowError, w)) ∧
  (∀ e, get_problem w (Some pid) None true = inl e →
     update_problem pid updates w
     = (Raise (SevereInternalException CouldNotFindProblem), w)).
Proof.
  split; [|split].
  - intros old Hold Hpid Henc.
    destruct (get_problem_by_pid _ _ _ _ Hold) as (_ & Hop & _).
    assert (Hnew : p_pid (problem_update updates old) = pid).
    { simpl. by destruct Hpid as [-> | ->]. }
    eexists. split; [|split; [|split; [|split]]].
    + unfold update_problem, bind, read, ret. by rewrite Hold, Henc.
    + rewrite get_problem_pid_find in *. simpl.
      destruct (find_one _ (problems w)) as [p|] eqn:Hfind; [|done].
      injection Hold as ->.
      erewrite (find_one_update_one _ (λ _, problem_update updates old));
        [done | exact Hfind |]. by apply str_eqb_eq.
    + intros pid' Hne. rewrite !get_problem_pid_find. simpl.
      rewrite find_one_update_one_other; [done|].
      intros a Ha. apply str_eqb_eq in Ha.
      split; apply str_eqb_neq; congruence.
    + simpl. apply update_one_length.
    + done.
  - intros old Hold Henc. unfold update_problem, bind, read, raise.
    by rewrite Hold, Henc.
  - intros e He. destruct (get_problem_pid_error _ _ _ He) as [-> _].
    unfold update_problem, bind, read. by rewrite He.
Qed.

Lemma update_problem_round_trip_witness :
  (∃ w',
     update_problem "pP"
       {| pu_pid := None; pu_name := None; pu_sanitized_name := None;
          pu_category := None; pu_score := None; pu_disabled := Some true;
          pu_instances := None |} world_P
     = (Ret (problem_update
               {| pu_pid := None; pu_name := None; pu_sanitized_name := None;
                  pu_category := None; pu_score := None; pu_disabled := Some true;
                  pu_instances := None |} problem_P), w') ∧
     get_all_problems world_P None false = [problem_P] ∧
     get_all_problems w' None false = []) ∧
  update_problem "pP"
    {| pu_pid := None; pu_name := None; pu_sanitized_name := None;
       pu_category := None; pu_score := Some (2 ^ 63); pu_disabled := None;
       pu_instances := None |} world_P
  = (Raise OverflowError, world_P).
Proof.
  split.
  - destruct (update_problem_round_trip "pP"
                {| pu_pid := None; pu_name := None; pu_sanitized_name := None;
                   pu_category := None; pu_score := None; pu_disabled := Some true;
                   pu_instances := None |} world_P) as [Hknown _].
    destruct (Hknown problem_P eq_refl (or_introl eq_refl) eq_refl)
      as (w' & Hrun & _).
    exists w'. split; [exact Hrun|]. split; [reflexivity|].
    assert (Hw : update_problem "pP"
                   {| pu_pid := None; pu_name := None; pu_sanitized_name := None;
                      pu_category := None; pu_score := None;
                      pu_disabled := Some true; pu_instances := None |} world_P
                 = (Ret (problem_update
                           {| pu_pid := None; pu_name := None;
                              pu_sanitized_name := None; pu_category := None;
                              pu_score := None; pu_disabled := Some true;
                              pu_instances := None |} problem_P),
                    set_problems
                      [problem_update
                         {| pu_pid := None; pu_name := None;
                            pu_sanitized_name := None; pu_category := None;
                            pu_score := None; pu_disabled := Some true;
                            pu_instances := None |} problem_P] world_P))
      by reflexivity.
    rewrite Hw in Hrun. injection Hrun as <-. reflexivity.
  - destruct (update_problem_round_trip "pP"
                {| pu_pid := None; pu_name := None; pu_sanitized_name := None;
                   pu_category := None; pu_score := Some (2 ^ 63);
                   pu_disabled := None; pu_instances := None |} world_P)
      as (_ & Hoverflow & _).
    apply (Hoverflow problem_P); reflexivity.
Defined.

Lemma find_one_filter_implied {A} (f g : A → bool) (l : list A) :
  (∀ a, f a = true → g a = true) →
  find_one f (List.filter g l) = find_one f l.
Proof.
  intros Himp. rewrite find_one_filter. apply find_one_ext. intros a.
  destruct (f a) eqn:Hf; [by rewrite (Himp a Hf) | apply andb_false_r].
Qed.

(** The loop of get_solved_problems stops at a submission whose problem is
    gone. *)
Lemma solved_loop_missing w show_disabled subs pids0 result0 :
  (∃ s, s ∈ subs ∧ (s_pid s ∉ pids0) ∧
        ∀ p, p ∈ problems w → p_pid p ≠ s_pid s) →
  solved_loop w show_disabled subs pids0 result0
  = inl (SevereInternalException CouldNotFindProblem).
Proof.
  revert pids0 result0.
  induction subs as [|s subs IH]; intros pids0 result0 (s' & Hin & Hnew & Hgone).
  { inversion Hin. }
  simpl. case_bool_decide as Hseen.
  - apply IH. exists s'. split; [|done].
    apply elem_of_cons in Hin as [->|Hin]; [contradiction | done].
  - rewrite get_problem_pid_find.
    destruct (find_one _ (problems w)) as [p|] eqn:Hfind; [|done].
    apply find_one_Some in Hfind as [Hp Hpid]. apply str_eqb_eq in Hpid.
    apply IH. exists s'.
    apply elem_of_cons in Hin as [->|Hin]; [by destruct (Hgone p Hp)|].
    split; [done|]. split; [|done].
    apply not_elem_of_app. split; [done|]. rewrite list_elem_of_singleton.
    intros Heq. apply (Hgone p Hp). congruence.
Qed.

(** X23. remove_problem removes the problem and nothing that refers to
    it.  For a stored pid the call returns the problem; afterwards looking
    the pid up raises "could not find problem", every other pid reads as
    before, and teams and the ledger are untouched.  A team with a correct
    submission for the removed pid is thereby locked out: its
    get_solved_problems, and with it its get_unlocked_pids, raise "could
    not find problem".  For an unknown pid the call raises and writes
    nothing. *)
Theorem remove_problem_leaves_references (pid : string) (w : World) :
  (∀ old,
     get_problem w (Some pid) None true = inr old →
     ∃ w',
       remove_problem pid w = (Ret old, w') ∧
       get_problem w' (Some pid) None true
       = inl (SevereInternalException CouldNotFindProblem) ∧
       (∀ pid', pid' ≠ pid →
          get_problem w' (Some pid') None true = get_problem w (Some pid') None true) ∧
       teams w' = teams w ∧ submissions w' = submissions w ∧
       ∀ tid team s,
         get_team w tid = inr team →
         s ∈ submissions w → s_tid s = tid → s_pid s = pid → s_correct s = true →
         (∀ show_disabled,
            get_solved_problems w' tid None show_disabled
            = inl (SevereInternalException CouldNotFindProblem)) ∧
         (∀ category,
            get_unlocked_pids tid category w'
            = (Raise (SevereInternalException CouldNotFindProblem), w'))) ∧
  (∀ e, get_problem w (Some pid) None true = inl e →
     remove_problem pid w
     = (Raise (SevereInternalException CouldNotFindProblem), w)).
Proof.
  split.
  - intros old Hold. eexists. split; [|split; [|split; [|split; [|split]]]].
    + unfold remove_problem, bind, read, ret. by rewrite Hold.
    + rewrite get_problem_pid_find. simpl.
      destruct (find_one _ (List.filter _ _)) as [p|] eqn:Hfind; [|done].
      apply find_one_Some in Hfind as [Hin Hpid].
      apply list_elem_of_In, filter_In in Hin as [_ Hne].
      by rewrite Hpid in Hne.
    + intros pid' Hne. rewrite !get_problem_pid_find. simpl.
      rewrite find_one_filter_implied; [done|].
      intros a Ha. apply str_eqb_eq in Ha. apply negb_true_iff, str_eqb_neq.
      congruence.
    + done.
    + done.
    + intros tid team s Ht Hs Htid Hpid Hcorrect.
      set (w' := set_problems _ w).
      assert (Hgone : ∀ p, p ∈ problems w' → p_pid p ≠ s_pid s).
      { intros p Hp. simpl in Hp. apply list_elem_of_In, filter_In in Hp as [_ Hne].
        apply negb_true_iff, str_eqb_neq in Hne. congruence. }
      assert (Hsolved : ∀ show_disabled,
                get_solved_problems w' tid None show_disabled
                = inl (SevereInternalException CouldNotFindProblem)).
      { intros show_disabled. unfold get_solved_problems.
        change (get_team w' tid) with (get_team w tid). rewrite Ht.
        apply solved_loop_missing. exists s. split; [|split; [|done]].
        - apply elem_of_app. left. unfold get_submissions.
          apply list_elem_of_In, filter_In. split; [by apply list_elem_of_In|].
          apply matches_submissions_match. split; [done|]. split; [done|].
          split; [by intros _ ? [= <-]|]. split; [done|]. by intros ? [= <-].
        - intros Hnil. inversion Hnil. }
      split; [exact Hsolved|].
      intros category. by rewrite get_unlocked_pids_unfold, Hsolved.
  - intros e He. destruct (get_problem_pid_error _ _ _ He) as [-> _].
    unfold remove_problem, bind, read. by rewrite He.
Qed.

Lemma remove_problem_leaves_references_witness :
  ∃ w',
    remove_problem "pB" world_categories = (Ret web_B, w') ∧
    submissions w' = submissions world_categories ∧
    (get_unlocked_pids "tT" None world_categories).1 = Ret ["pA"; "pB"; "pC"] ∧
    get_unlocked_pids "tT" None w'
    = (Raise (SevereInternalException CouldNotFindProblem), w').
Proof.
  destruct (remove_problem_leaves_references "pB" world_categories) as [Hknown _].
  destruct (Hknown web_B eq_refl) as (w' & Hrun & _ & _ & _ & Hledger & Hlocked).
  exists w'. split; [exact Hrun|]. split; [exact Hledger|].
  split; [vm_compute; reflexivity|].
  destruct (Hlocked "tT" team_T solve_B eq_refl) as [_ Hun]; try reflexivity.
  - left.
  - apply Hun.
Defined.

(** ** Publishing problems *)

Lemma update_problem_known (pid : string) (updates : ProblemUpdates) (w : World)
    (old : Problem) :
  get_problem w (Some pid) None true = inr old →
  p_pid (problem_update updates old) = pid →
  problem_encodable (problem_update updates old) = true →
  let w' := set_problems (update_one (λ p, str_eqb (p_pid p) pid)
                                     (λ _, problem_update updates old)
                                     (problems w)) w in
  update_problem pid updates w = (Ret (problem_update updates old), w') ∧
  get_problem w' (Some pid) None true = inr (problem_update updates old) ∧
  (∀ pid', pid' ≠ pid →
     get_problem w' (Some pid') None true = get_problem w (Some pid') None true) ∧
  length (problems w') = length (problems w).
Proof.
  intros Hold Hnew Henc w'.
  destruct (get_problem_by_pid _ _ _ _ Hold) as (_ & Hop & _).
  split; [|split; [|split]].
  - unfold update_problem, bind, read, ret. by rewrite Hold, Henc.
  - rewrite get_problem_pid_find in *. simpl.
    destruct (find_one _ (problems w)) as [p|] eqn:Hfind; [|done].
    injection Hold as ->.
    erewrite (find_one_update_one _ (λ _, problem_update updates old));
      [done | exact Hfind |]. by apply str_eqb_eq.
  - intros pid' Hne. rewrite !get_problem_pid_find. simpl.
    rewrite find_one_update_one_other; [done|].
    intros a Ha. apply str_eqb_eq in Ha.
    split; apply str_eqb_neq; congruence.
  - simpl. apply update_one_length.
Qed.

Lemma problem_update_full (problem old : Problem) :
  problem_update (updates_of_problem problem) old = problem.
Proof. by destruct problem. Qed.

Lemma get_problem_name_find (w : World) (name : string) :
  get_problem w None (Some name) true =
  match find_one (λ p, str_eqb (p_name p) name) (problems w) with
  | Some problem => inr problem
  | None => inl (SevereInternalException CouldNotFindProblem)
  end.
Proof.
  unfold get_problem.
  rewrite (find_one_ext _ (λ p, str_eqb (p_name p) name)); [done|].
  intros a. simpl. apply andb_true_r.
Qed.

Lemma int64_spec (z : Z) : int64 z = true ↔ - 2 ^ 63 ≤ z < 2 ^ 63.
Proof. unfold int64. by rewrite andb_true_iff, Z.leb_le, Z.ltb_lt. Qed.

Lemma int64_too_large (z : Z) : 2 ^ 63 ≤ z → int64 z = false.
Proof.
  intros Hz. unfold int64. apply andb_false_iff. right. by apply Z.ltb_ge.
Qed.

Lemma published_instances_encodable (hash : string → string) (sid pid : string)
    (server_number : option Z) (instances : list InstancePayload) :
  (∀ instance n,
     instance ∈ instances →
     match server_number with
     | Some n => Some n
     | None => ip_server_number instance
     end = Some n →
     int64 n = true) →
  forallb instance_encodable
    (map (λ instance,
            {| i_iid := hash (pretty (ip_instance_number instance) ++ sid ++ pid)%string;
               i_flag := ip_flag instance; i_sid := sid;
               i_server_number := match server_number with
                                  | Some n => Some n
                                  | None => ip_server_number instance
                                  end |}) instances) = true.
Proof.
  intros Hfits. apply forallb_forall. intros i Hi.
  apply in_map_iff in Hi as (instance & <- & Hin). unfold instance_encodable. simpl.
  destruct (match server_number with
            | Some n => Some n
            | None => ip_server_number instance
            end) as [n|] eqn:Hn; [|done].
  apply (Hfits instance n); [by apply list_elem_of_In | done].
Qed.

Lemma payload_encodable_spec (problem : ProblemPayload) :
  payload_encodable problem = true ↔
  ∀ instance, instance ∈ pp_instances problem →
              int64 (ip_instance_number instance) = true.
Proof.
  unfold payload_encodable. rewrite forallb_forall.
  split; intros H instance Hin; apply H; by apply list_elem_of_In.
Qed.

(** X24. A newly published problem is stored disabled.  With a score of
    0 or more, a known shell server, and no stored problem of the derived
    pid or of the same display name: when the ints of the document, its
    score, the instance numbers and the server numbers stored with the
    instances, fit in 8 bytes, insert_problem returns the pid and appends
    one document, which is found under the pid, has one instance per
    published instance, all tagged with the sid, and is disabled, so that
    no category listing of enabled problems shows it and get_unlocked_pids
    returns its pid for no team; when the score is 2^63 or more, which the
    schema lets through, the call raises OverflowError and nothing is
    stored. *)
Theorem insert_problem_new_is_disabled (hash : string → string)
    (get_server : string → exn + option Z) (problem : ProblemPayload)
    (sid : string) (w : World) (server_number : option Z) :
  0 ≤ pp_score problem →
  get_server sid = inr server_number →
  (∀ p, p ∈ problems w → p_pid p ≠ problem_pid hash problem) →
  (∀ p, p ∈ problems w → p_name p ≠ pp_name problem) →
  (pp_score problem < 2 ^ 63 →
   (∀ instance, instance ∈ pp_instances problem →
                int64 (ip_instance_number instance) = true) →
   (∀ instance n,
      instance ∈ pp_instances problem →
      match server_number with
      | Some n => Some n
      | None => ip_server_number instance
      end = Some n →
      int64 n = true) →
   ∃ w' stored,
     insert_problem hash get_server problem sid w
     = inr (Some (problem_pid hash problem), w') ∧
     problems w' = problems w ++ [stored] ∧
     get_problem w' (Some (problem_pid hash problem)) None true = inr stored ∧
     p_pid stored = problem_pid hash problem ∧
     p_disabled stored = true ∧
     length (p_instances stored) = length (pp_instances problem) ∧
     (∀ i, i ∈ p_instances stored → i_sid i = sid) ∧
     (∀ category p, p ∈ get_all_problems w' category false →
                    p_pid p ≠ problem_pid hash problem) ∧
     (∀ tid category w'' unlocked,
        get_unlocked_pids tid category w' = (Ret unlocked, w'') →
        problem_pid hash problem ∉ unlocked)) ∧
  (2 ^ 63 ≤ pp_score problem →
   insert_problem hash get_server problem sid w = inl (Raised OverflowError)).
Proof.
  intros Hscore Hserver Hpid Hname.
  set (pid := problem_pid hash problem).
  assert (Hnopid : find_one (λ p, str_eqb (p_pid p) pid) (problems w) = None).
  { apply find_one_None. intros p Hp. apply str_eqb_neq. by apply Hpid. }
  assert (Hnoname : find_one (λ p, str_eqb (p_name p) (pp_name problem)) (problems w)
                    = None).
  { apply find_one_None. intros p Hp. apply str_eqb_neq. by apply Hname. }
  split.
  - intros Hmax Hnumbers Hservers.
    eexists. eexists.
    split; [|split; [|split; [|split; [|split; [|split; [|split; [|split]]]]]]].
    + unfold insert_problem, set_instance_ids.
      rewrite (proj2 (Z.ltb_ge _ _) Hscore), Hserver.
      fold pid. rewrite get_problem_pid_find, Hnopid. simpl.
      rewrite get_problem_name_find, Hnoname. simpl.
      rewrite (proj2 (payload_encodable_spec problem) Hnumbers).
      unfold problem_encodable. simpl.
      rewrite (proj2 (int64_spec _)) by lia.
      rewrite (published_instances_encodable hash sid pid server_number _ Hservers).
      simpl. reflexivity.
    + reflexivity.
    + rewrite get_problem_pid_find. simpl.
      rewrite (find_one_app_None _ _ _ Hnopid). simpl. by rewrite str_eqb_refl.
    + reflexivity.
    + reflexivity.
    + simpl. by rewrite length_map.
    + simpl. intros i Hi. apply list_elem_of_fmap in Hi as (ip & -> & _). done.
    + intros category p Hp.
      apply elem_of_get_all_problems in Hp as (Hin & _ & [[=]|Hen]).
      simpl in Hin. apply elem_of_app in Hin as [Hin|Hin]; [by apply Hpid|].
      apply list_elem_of_singleton in Hin. subst p. discriminate Hen.
    + intros tid category w'' unlocked Hrun Hin.
      destruct (get_unlocked_pids_inv _ _ _ _ _ Hrun) as (_ & _ & Hret).
      destruct (Hret unlocked eq_refl) as (solved & _ & _ & _ & _ & _ & -> & _).
      unfold unlocked_among in Hin. apply list_elem_of_fmap in Hin as (p & Hp & Hin).
      apply list_elem_of_In, filter_In in Hin as [Hin _].
      apply list_elem_of_In, elem_of_get_all_problems in Hin as (Hin & _ & [[=]|Hen]).
      simpl in Hin. apply elem_of_app in Hin as [Hin|Hin].
      * by apply (Hpid p Hin).
      * apply list_elem_of_singleton in Hin. subst p. discriminate Hen.
  - intros Hhuge. unfold insert_problem, set_instance_ids.
    rewrite (proj2 (Z.ltb_ge _ _) Hscore), Hserver.
    fold pid. rewrite get_problem_pid_find, Hnopid. simpl.
    rewrite get_problem_name_find, Hnoname. simpl.
    unfold problem_encodable. simpl.
    rewrite (int64_too_large _ Hhuge). simpl. by rewrite andb_false_r.
Qed.

Lemma insert_problem_new_is_disabled_witness :
  (∃ w' stored,
     insert_problem example_hash example_get_server payload_R "s1" world_P
     = inr (Some "#R-ann", w') ∧
     problems w' = problems world_P ++ [stored] ∧
     p_disabled stored = true ∧
     map i_iid (p_instances stored) = ["#0s1#R-ann"; "#1s1#R-ann"] ∧
     get_unlocked_pids "tT" None w'
     = (Ret ["pP"], (get_unlocked_pids "tT" None w').2)) ∧
  insert_problem example_hash example_get_server payload_R_huge "s1" world_P
  = inl (Raised OverflowError).
Proof.
  split.
  - destruct (insert_problem_new_is_disabled example_hash example_get_server
                payload_R "s1" world_P (Some 1)) as [Hfits _].
    + vm_compute. discriminate.
    + reflexivity.
    + intros p Hp. apply list_elem_of_singleton in Hp. subst p. discriminate.
    + intros p Hp. apply list_elem_of_singleton in Hp. subst p. discriminate.
    + destruct Hfits as (w' & stored & Hrun & Hproblems & _ & _ & Hdisabled & _).
      * reflexivity.
      * intros instance Hin.
        apply elem_of_cons in Hin as [->|Hin]; [reflexivity|].
        apply list_elem_of_singleton in Hin as ->. reflexivity.
      * intros instance n _ [= <-]. reflexivity.
      * exists w', stored. split; [exact Hrun|]. split; [exact Hproblems|].
        split; [exact Hdisabled|].
        assert (Hw : insert_problem example_hash example_get_server payload_R "s1"
                       world_P
                     = inr (Some "#R-ann",
                            set_problems
                              (problems world_P ++
                               [published_problem example_hash payload_R true
                                  [{| i_iid := "#0s1#R-ann"; i_flag := "flag{r0}";
                                      i_sid := "s1"; i_server_number := Some 1 |};
                                   {| i_iid := "#1s1#R-ann"; i_flag := "flag{r1}";
                                      i_sid := "s1"; i_server_number := Some 1 |}]])
                              world_P))
          by (vm_compute; reflexivity).
        rewrite Hw in Hrun. injection Hrun as <-.
        simpl in Hproblems. injection Hproblems as <-.
        split; [reflexivity|]. vm_compute; reflexivity.
  - apply (insert_problem_new_is_disabled example_hash example_get_server
             payload_R_huge "s1" world_P (Some 1)).
    + vm_compute. discriminate.
    + reflexivity.
    + intros p Hp. apply list_elem_of_singleton in Hp. subst p. discriminate.
    + intros p Hp. apply list_elem_of_singleton in Hp. subst p. discriminate.
    + vm_compute. discriminate.
Defined.

(** X25. Publishing a stored problem again from a shell server.  When a
    problem of the derived pid is stored and the ints of the document to
    be written, its score, the instance numbers and the server numbers of
    its instances, fit in 8 bytes, insert_problem returns None and
    rewrites that document in place: its instances are the stored ones of
    the other shell servers, in their order, followed by the published
    ones; it is disabled if it was disabled or if no instance is left, so
    publishing never enables a problem; name, category and score are the
    published ones.  No document is added, every other pid reads as
    before, teams and the ledger are untouched.  An instance published
    under the number it had keeps its iid: a team committed to it still
    resolves, without reassignment, to an instance of that iid.  When the
    published score is 2^63 or more the call raises OverflowError and
    nothing is written. *)
Theorem insert_problem_republish (hash : string → string)
    (get_server : string → exn + option Z) (problem : ProblemPayload)
    (sid : string) (w : World) (server_number : option Z) (old : Problem) :
  0 ≤ pp_score problem →
  get_server sid = inr server_number →
  get_problem w (Some (problem_pid hash problem)) None true = inr old →
  (pp_score problem < 2 ^ 63 →
   (∀ instance, instance ∈ pp_instances problem →
                int64 (ip_instance_number instance) = true) →
   (∀ instance n,
      instance ∈ pp_instances problem →
      match server_number with
      | Some n => Some n
      | None => ip_server_number instance
      end = Some n →
      int64 n = true) →
   (∀ i n, i ∈ p_instances old → i_server_number i = Some n → int64 n = true) →
   ∃ w' stored published,
     insert_problem hash get_server problem sid w = inr (None, w') ∧
     set_instance_ids hash get_server (problem_pid hash problem) sid
                      (pp_instances problem) = inr published ∧
     get_problem w' (Some (problem_pid hash problem)) None true = inr stored ∧
     p_instances stored =
       List.filter (λ i, negb (str_eqb (i_sid i) sid)) (p_instances old) ++ published ∧
     p_disabled stored = p_disabled old || (length (p_instances stored) =? 0)%nat ∧
     p_name stored = pp_name problem ∧ p_category stored = pp_category problem ∧
     p_score stored = pp_score problem ∧
     length (problems w') = length (problems w) ∧
     (∀ pid', pid' ≠ problem_pid hash problem →
        get_problem w' (Some pid') None true = get_problem w (Some pid') None true) ∧
     teams w' = teams w ∧ submissions w' = submissions w ∧
     (∀ tid team instance,
        get_team w tid = inr team →
        instance ∈ pp_instances problem →
        t_instances team !! problem_pid hash problem
        = Some (hash (pretty (ip_instance_number instance) ++ sid
                      ++ problem_pid hash problem)%string) →
        ∃ resolved,
          committed w' (problem_pid hash problem) tid resolved ∧
          i_iid resolved = hash (pretty (ip_instance_number instance) ++ sid
                                 ++ problem_pid hash problem)%string)) ∧
  (2 ^ 63 ≤ pp_score problem →
   insert_problem hash get_server problem sid w = inl (Raised OverflowError)).
Proof.
  intros Hscore Hserver Hold.
  set (pid := problem_pid hash problem) in *.
  set (published := map (λ instance,
           {| i_iid := hash (pretty (ip_instance_number instance) ++ sid ++ pid)%string;
              i_flag := ip_flag instance; i_sid := sid;
              i_server_number := match server_number with
                                 | Some n => Some n
                                 | None => ip_server_number instance
                                 end |}) (pp_instances problem)).
  set (instances := List.filter (λ i, negb (str_eqb (i_sid i) sid)) (p_instances old)
                    ++ published).
  set (stored := published_problem hash problem
                   (p_disabled old || (length instances =? 0)%nat) instances).
  split; [intros Hmax Hnumbers Hservers Hstored | intros Hhuge].
  2: { unfold insert_problem, set_instance_ids.
       rewrite (proj2 (Z.ltb_ge _ _) Hscore), Hserver.
       fold pid. rewrite Hold. simpl. fold published. fold instances. fold stored.
       destruct (payload_encodable problem); [|done]. simpl.
       unfold update_problem, bind, read, raise. rewrite Hold.
       rewrite problem_update_full. unfold problem_encodable. simpl.
       by rewrite (int64_too_large _ Hhuge). }
  assert (Henc : problem_encodable stored = true).
  { unfold problem_encodable. simpl. rewrite (proj2 (int64_spec _)) by lia.
    simpl. unfold instances. rewrite forallb_app. apply andb_true_iff. split.
    - apply forallb_forall. intros i Hi. apply filter_In in Hi as [Hi _].
      unfold instance_encodable.
      destruct (i_server_number i) as [n|] eqn:Hn; [|done].
      apply (Hstored i n); [by apply list_elem_of_In | done].
    - by apply published_instances_encodable. }
  destruct (update_problem_known pid (updates_of_problem stored) w old Hold)
    as (Hrun & Hget & Hother & Hlen).
  { by rewrite problem_update_full. }
  { by rewrite problem_update_full. }
  rewrite problem_update_full in Hrun, Hget, Hother, Hlen.
  eexists. exists stored, published.
  split; [|split; [|split; [exact Hget|]]].
  - unfold insert_problem, set_instance_ids.
    rewrite (proj2 (Z.ltb_ge _ _) Hscore), Hserver.
    fold pid. rewrite Hold. simpl. fold published. fold instances. fold stored.
    rewrite (proj2 (payload_encodable_spec problem) Hnumbers). simpl.
    by rewrite Hrun.
  - unfold set_instance_ids. by rewrite Hserver.
  - split; [done|]. split; [done|]. split; [done|]. split; [done|]. split; [done|].
    split; [exact Hlen|]. split; [exact Hother|]. split; [done|]. split; [done|].
    intros tid team instance Ht Hin Hcommitted.
    set (iid := hash (pretty (ip_instance_number instance) ++ sid ++ pid)%string) in *.
    assert (Hfound : ∃ resolved,
              find_one (λ i, bool_decide (PStr (i_iid i) = PStr iid)) instances
              = Some resolved).
    { destruct (find_one _ instances) as [resolved|] eqn:Hfind; [eauto|].
      rewrite find_one_None in Hfind.
      assert (Hnew : {| i_iid := iid; i_flag := ip_flag instance; i_sid := sid;
                        i_server_number := match server_number with
                                           | Some n => Some n
                                           | None => ip_server_number instance
                                           end |} ∈ instances).
      { apply elem_of_app. right. apply list_elem_of_fmap. by exists instance. }
      specialize (Hfind _ Hnew). by apply bool_decide_eq_false in Hfind. }
    destruct Hfound as [resolved Hfind]. exists resolved. split.
    + exists team, stored, iid. split; [done|]. split; [exact Hget|]. by split.
    + apply find_one_Some in Hfind as [_ Hiid].
      apply bool_decide_eq_true in Hiid. by injection Hiid.
Qed.

Lemma insert_problem_republish_witness :
  (∃ w' stored,
     insert_problem example_hash example_get_server payload_R_again "s1" world_R
     = inr (None, w') ∧
     get_problem w' (Some "#R-ann") None true = inr stored ∧
     map i_iid (p_instances stored) = ["#0s2#R-ann"; "#0s1#R-ann"] ∧
     p_disabled stored = false ∧
     ∃ resolved, committed w' "#R-ann" "tT" resolved ∧
                 i_iid resolved = "#0s1#R-ann") ∧
  insert_problem example_hash example_get_server payload_R_huge "s1" world_R
  = inl (Raised OverflowError).
Proof.
  split.
  - destruct (insert_problem_republish example_hash example_get_server
                payload_R_again "s1" world_R (Some 1) stored_R) as [Hfits _].
    + vm_compute. discriminate.
    + reflexivity.
    + reflexivity.
    + destruct Hfits
        as (w' & stored & published & Hrun & Hpub & Hget & Hinst & Hdis & _ & _ & _
            & _ & _ & _ & _ & Hkeeps).
      * reflexivity.
      * intros instance Hin. apply list_elem_of_singleton in Hin as ->. reflexivity.
      * intros instance n _ [= <-]. reflexivity.
      * intros i n Hin Hn. simpl in Hin.
        apply elem_of_cons in Hin as [->|Hin];
          [injection Hn as <-; reflexivity|].
        apply elem_of_cons in Hin as [->|Hin]; [discriminate Hn|].
        apply list_elem_of_singleton in Hin as ->.
        injection Hn as <-; reflexivity.
      * exists w', stored. split; [exact Hrun|]. split; [exact Hget|].
        assert (Hp : published
                     = [{| i_iid := "#0s1#R-ann"; i_flag := "flag{r0-new}";
                           i_sid := "s1"; i_server_number := Some 1 |}]).
        { assert (Hc : set_instance_ids example_hash example_get_server "#R-ann"
                         "s1" (pp_instances payload_R_again)
                       = inr [{| i_iid := "#0s1#R-ann"; i_flag := "flag{r0-new}";
                                 i_sid := "s1"; i_server_number := Some 1 |}])
            by (vm_compute; reflexivity).
          change (problem_pid example_hash payload_R_again) with "#R-ann" in Hpub.
          rewrite Hc in Hpub. by injection Hpub. }
        subst published. split; [by rewrite Hinst|].
        split; [by rewrite Hdis, Hinst|].
        apply (Hkeeps "tT" team_R (payload_instance 0 "flag{r0-new}")).
        -- reflexivity.
        -- left.
        -- reflexivity.
  - apply (insert_problem_republish example_hash example_get_server
             payload_R_huge "s1" world_R (Some 1) stored_R).
    + vm_compute. discriminate.
    + reflexivity.
    + reflexivity.
    + vm_compute. discriminate.
Defined.

(** X26. Why insert_problem fails.  A negative score is refused before
    anything else is looked at; an unknown shell server fails the
    publication with what the server lookup raised; a problem whose pid is
    new but whose display name is that of a stored problem is refused as a
    namesake.  (A failed call returns no database: nothing was written.) *)
Theorem insert_problem_failures (hash : string → string)
    (get_server : string → exn + option Z) (problem : ProblemPayload)
    (sid : string) (w : World) :
  (pp_score problem < 0 →
   insert_problem hash get_server problem sid w = inl ScoreNotPositive) ∧
  (∀ e, 0 ≤ pp_score problem → get_server sid = inl e →
        insert_problem hash get_server problem sid w = inl (Raised e)) ∧
  (∀ server_number namesake,
     0 ≤ pp_score problem → get_server sid = inr server_number →
     (∀ p, p ∈ problems w → p_pid p ≠ problem_pid hash problem) →
     namesake ∈ problems w → p_name namesake = pp_name problem →
     insert_problem hash get_server problem sid w = inl IdenticalName).
Proof.
  split; [|split].
  - intros Hneg. unfold insert_problem. by rewrite (proj2 (Z.ltb_lt _ _) Hneg).
  - intros e Hscore Hserver. unfold insert_problem, set_instance_ids.
    by rewrite (proj2 (Z.ltb_ge _ _) Hscore), Hserver.
  - intros server_number namesake Hscore Hserver Hpid Hin Hname.
    unfold insert_problem, set_instance_ids.
    rewrite (proj2 (Z.ltb_ge _ _) Hscore), Hserver.
    rewrite get_problem_pid_find.
    assert (Hnopid : find_one (λ p, str_eqb (p_pid p) (problem_pid hash problem))
                              (problems w) = None).
    { apply find_one_None. intros p Hp. apply str_eqb_neq. by apply Hpid. }
    rewrite Hnopid. clear Hnopid. simpl. rewrite get_problem_name_find.
    destruct (find_one _ (problems w)) as [p|] eqn:Hfind; [done|].
    rewrite find_one_None in Hfind. specialize (Hfind namesake Hin).
    apply str_eqb_neq in Hfind. by destruct Hfind.
Qed.

Lemma insert_problem_failures_witness :
  insert_problem example_hash example_get_server payload_R_namesake "s1" world_R
  = inl IdenticalName ∧
  insert_problem example_hash example_get_server payload_R "s9" world_R
  = inl (Raised (InternalException CouldNotFindTeam)).
Proof.
  destruct (insert_problem_failures example_hash example_get_server
              payload_R_namesake "s1" world_R) as (_ & _ & Hname).
  destruct (insert_problem_failures example_hash example_get_server
              payload_R "s9" world_R) as (_ & Hserver & _).
  split.
  - apply (Hname (Some 1) stored_R).
    + vm_compute. discriminate.
    + reflexivity.
    + intros p Hp. apply list_elem_of_singleton in Hp. subst p. discriminate.
    + left.
    + reflexivity.
  - apply Hserver; [vm_compute; discriminate | reflexivity].
Defined.

(** ** The order of get_all_problems *)

Lemma problem_leb_spec (p q : Problem) :
  problem_leb p q = true ↔
  p_score p < p_score q ∨
  (p_score p = p_score q ∧ String.leb (p_name p) (p_name q) = true).
Proof.
  unfold problem_leb.
  rewrite orb_true_iff, andb_true_iff, Z.ltb_lt, Z.eqb_eq. tauto.
Qed.

Lemma problem_leb_total (p q : Problem) :
  problem_leb p q = true ∨ problem_leb q p = true.
Proof.
  rewrite !problem_leb_spec.
  destruct (Z.lt_trichotomy (p_score p) (p_score q)) as [?|[Heq|?]]; [tauto| |tauto].
  destruct (String.leb_total (p_name p) (p_name q)); [left | right]; right; split;
    done.
Qed.

Lemma sort_insert_perm (p : Problem) (l : list Problem) : sort_insert p l ≡ₚ p :: l.
Proof.
  induction l as [|q l IH]; simpl; [done|].
  destruct (problem_leb p q); [done|]. rewrite IH. apply Permutation_swap.
Qed.

Lemma sort_problems_perm (l : list Problem) : sort_problems l ≡ₚ l.
Proof.
  induction l as [|p l IH]; simpl; [done|].
  by rewrite sort_insert_perm, IH.
Qed.

Lemma sort_insert_sorted (p : Problem) (l : list Problem) :
  Sorted (λ a b, problem_leb a b = true) l →
  Sorted (λ a b, problem_leb a b = true) (sort_insert p l).
Proof.
  induction l as [|q l IH]; intros Hs; simpl.
  - by repeat constructor.
  - destruct (problem_leb p q) eqn:Hpq.
    + constructor; [done|]. by constructor.
    + apply Sorted_inv in Hs as [Hs Hhd]. constructor; [by apply IH|].
      destruct l as [|r l]; simpl.
      * constructor. destruct (problem_leb_total p q); congruence.
      * destruct (problem_leb p r).
        -- constructor. destruct (problem_leb_total p q); congruence.
        -- constructor. by inversion Hhd.
Qed.

Lemma sort_problems_sorted (l : list Problem) :
  Sorted (λ a b, problem_leb a b = true) (sort_problems l).
Proof.
  induction l as [|p l IH]; simpl; [constructor | by apply sort_insert_sorted].
Qed.

Lemma Sorted_adjacent {A} (R : A → A → Prop) (l : list A) :
  Sorted R l →
  ∀ (i : nat) a b, l !! i = Some a → l !! S i = Some b → R a b.
Proof.
  induction 1 as [|x l Hs IH Hhd]; intros i a b Ha Hb; [done|].
  destruct i as [|i].
  - simpl in Ha, Hb. injection Ha as <-.
    destruct l as [|y l]; [done|]. simpl in Hb. injection Hb as <-.
    by inversion Hhd.
  - by apply (IH i).
Qed.

(** X27. The listing of problems.  get_all_problems returns the stored
    problems of the category asked for (all of them when none is given),
    the disabled ones only on request, each as often as it is stored, in
    ascending order of score and, among equal scores, of name: of two
    neighbours in the list the first has the smaller score, or the same
    score and a name that is not greater. *)
Theorem get_all_problems_sorted (w : World) (category : option string)
    (show_disabled : bool) :
  get_all_problems w category show_disabled ≡ₚ
    List.filter (λ p, match category with
                      | Some c => str_eqb (p_category p) c
                      | None => true
                      end && (show_disabled || negb (p_disabled p)))
                (problems w) ∧
  ∀ (i : nat) p q,
    get_all_problems w category show_disabled !! i = Some p →
    get_all_problems w category show_disabled !! S i = Some q →
    p_score p < p_score q ∨
    (p_score p = p_score q ∧ String.leb (p_name p) (p_name q) = true).
Proof.
  split; [apply sort_problems_perm|].
  intros i p q Hp Hq. apply problem_leb_spec.
  by eapply (Sorted_adjacent _ _ (sort_problems_sorted _)).
Qed.

(** ** Categories and their sizes *)

Lemma get_all_problems_length (w : World) (category : option string)
    (show_disabled : bool) :
  length (get_all_problems w category show_disabled) =
  length (List.filter (λ p, match category with
                            | Some c => str_eqb (p_category p) c
                            | None => true
                            end && (show_disabled || negb (p_disabled p)))
                      (problems w)).
Proof. unfold get_all_problems. by rewrite sort_problems_perm. Qed.

Lemma foldl_insert_lookup {V} (f : string → V) (cats : list string)
    (m : gmap string V) (c : string) :
  foldl (λ result cat, <[cat := f cat]> result) m cats !! c =
  if bool_decide (c ∈ cats) then Some (f c) else m !! c.
Proof.
  revert m. induction cats as [|cat cats IH]; intros m; simpl; [done|].
  rewrite IH. destruct (decide (c ∈ cats)) as [Hin|Hin].
  - rewrite !bool_decide_eq_true_2; [done| |done]. by right.
  - rewrite (bool_decide_eq_false_2 _ Hin).
    destruct (decide (c = cat)) as [->|Hne].
    + rewrite bool_decide_eq_true_2 by left. by rewrite lookup_insert_eq.
    + rewrite bool_decide_eq_false_2.
      * by rewrite lookup_insert_ne.
      * rewrite elem_of_cons. tauto.
Qed.

Lemma sum_list_with_add {A} (f g : A → nat) (l : list A) :
  sum_list_with (λ a, f a + g a)%nat l
  = (sum_list_with f l + sum_list_with g l)%nat.
Proof. induction l as [|a l IH]; simpl; [done|]. rewrite IH. lia. Qed.

Lemma sum_list_with_ext {A} (f g : A → nat) (l : list A) :
  (∀ a, f a = g a) → sum_list_with f l = sum_list_with g l.
Proof. intros Hfg. induction l as [|a l IH]; simpl; [done|]. by rewrite Hfg, IH. Qed.

Lemma sum_indicator (k : string) (cats : list string) :
  sum_list_with (λ c, if str_eqb k c then 1 else 0)%nat cats
  = length (List.filter (str_eqb k) cats).
Proof.
  induction cats as [|c cats IH]; simpl; [done|].
  rewrite IH. by destruct (str_eqb k c).
Qed.

Lemma filter_eq_NoDup (k : string) (cats : list string) :
  NoDup cats → k ∈ cats → length (List.filter (str_eqb k) cats) = 1%nat.
Proof.
  induction 1 as [|c cats Hc Hnd IH]; intros Hin; [by apply elem_of_nil in Hin|].
  simpl. destruct (str_eqb k c) eqn:Hkc.
  - apply str_eqb_eq in Hkc as ->. simpl. f_equal.
    assert (List.filter (str_eqb c) cats = []) as ->; [|done].
    clear IH Hin Hnd. induction cats as [|c' cats IH]; simpl; [done|].
    destruct (str_eqb c c') eqn:Hcc.
    + apply str_eqb_eq in Hcc as ->. destruct Hc. by left.
    + apply IH. intros Hin. apply Hc. by right.
  - apply IH. apply elem_of_cons in Hin as [->|Hin]; [|done].
    by rewrite str_eqb_refl in Hkc.
Qed.

(** Each key is counted in exactly one class of a duplicate-free list of
    classes that covers the keys. *)
Lemma sum_classes (cats ks : list string) :
  NoDup cats → (∀ k, k ∈ ks → k ∈ cats) →
  sum_list_with (λ c, length (List.filter (λ k, str_eqb k c) ks)) cats
  = length ks.
Proof.
  intros Hnd. induction ks as [|k ks IH]; intros Hcover; simpl.
  - clear Hnd Hcover. by induction cats as [|c cats IHc].
  - rewrite (sum_list_with_ext _
               (λ c, (if str_eqb k c then 1 else 0)
                     + length (List.filter (λ k, str_eqb k c) ks))%nat).
    + rewrite sum_list_with_add, sum_indicator, IH.
      * rewrite filter_eq_NoDup; [done|done|]. apply Hcover. by left.
      * intros k' Hk'. apply Hcover. by right.
    + intros c. by destruct (str_eqb k c).
Qed.

Lemma filter_category_length (c : string) (l : list Problem) :
  length (List.filter (λ p, str_eqb (p_category p) c && (false || negb (p_disabled p))) l)
  = length (List.filter (λ k, str_eqb k c)
              (map p_category
                   (List.filter (λ p, false || negb (p_disabled p)) l))).
Proof.
  induction l as [|p l IH]; simpl in *; [done|].
  destruct (p_disabled p); simpl.
  - by rewrite andb_false_r.
  - rewrite andb_true_r. destruct (str_eqb (p_category p) c); simpl; by rewrite IH.
Qed.

Lemma filter_length_pos {A} (f : A → bool) (l : list A) :
  (0 < length (List.filter f l))%nat ↔ ∃ a, a ∈ l ∧ f a = true.
Proof.
  induction l as [|a l IH]; simpl.
  - split; [lia|]. intros (a & Ha & _). by apply elem_of_nil in Ha.
  - destruct (f a) eqn:Hfa; simpl.
    + split; [|lia]. intros _. exists a. split; [by left|done].
    + rewrite IH. split.
      * intros (b & Hb & Hfb). exists b. split; [by right|done].
      * intros (b & Hb & Hfb). apply elem_of_cons in Hb as [->|Hb]; [congruence|].
        by exists b.
Qed.

Lemma elem_of_get_all_categories (w : World) (c : string) :
  c ∈ get_all_categories w false ↔
  (0 < length (List.filter
                 (λ p, str_eqb (p_category p) c && negb (p_disabled p))
                 (problems w)))%nat.
Proof.
  unfold get_all_categories. rewrite elem_of_remove_dups, filter_length_pos.
  rewrite list_elem_of_In, in_map_iff. split.
  - intros (p & <- & Hp). apply filter_In in Hp as [Hp Hen]. simpl in Hen.
    exists p. rewrite list_elem_of_In, str_eqb_refl. by split.
  - intros (p & Hp & Hf). apply andb_true_iff in Hf as [Hc Hen].
    apply str_eqb_eq in Hc. exists p. split; [done|].
    apply filter_In. by rewrite <- list_elem_of_In.
Qed.

Lemma foldl_insert_sum (f : string → nat) (cats : list string)
    (m : gmap string nat) :
  NoDup cats → (∀ c, c ∈ cats → m !! c = None) →
  sum_list_with snd (map_to_list (foldl (λ result cat, <[cat := f cat]> result) m cats))
  = (sum_list_with snd (map_to_list m) + sum_list_with f cats)%nat.
Proof.
  intros Hnd. revert m. induction Hnd as [|c cats Hc Hnd IH]; intros m Hm; simpl.
  - lia.
  - rewrite IH.
    + rewrite map_to_list_insert by (apply Hm; by left). simpl. lia.
    + intros c' Hc'. rewrite lookup_insert_ne.
      * apply Hm. by right.
      * intros ->. done.
Qed.

(** X28. The sizes of the categories.  For a named category
    count_all_problems returns one entry, the number of enabled problems
    stored under it, be it 0.  With no category it lists exactly the
    categories that have an enabled problem, each with the number of its
    enabled problems, never 0, and the counts add up to the number of
    enabled problems. *)
Theorem count_all_problems_counts (w : World) :
  let enabled_in (c : string) : nat :=
    length (List.filter (λ p, str_eqb (p_category p) c && negb (p_disabled p))
                        (problems w)) in
  (∀ c, count_all_problems w (Some c) = {[ c := enabled_in c ]}) ∧
  (∀ c n, count_all_problems w None !! c = Some n ↔
          n = enabled_in c ∧ (0 < n)%nat) ∧
  sum_list_with snd (map_to_list (count_all_problems w None))
  = length (List.filter (λ p, negb (p_disabled p)) (problems w)).
Proof.
  intros enabled_in. split; [|split].
  - intros c. unfold count_all_problems. simpl.
    by rewrite get_all_problems_length, insert_empty.
  - intros c n. unfold count_all_problems. rewrite foldl_insert_lookup.
    rewrite get_all_problems_length. simpl. fold (enabled_in c).
    destruct (decide (c ∈ get_all_categories w false)) as [Hin|Hin].
    + rewrite (bool_decide_eq_true_2 _ Hin).
      apply elem_of_get_all_categories in Hin. fold (enabled_in c) in Hin.
      split; [intros [= <-]; by split | by intros [-> _]].
    + rewrite (bool_decide_eq_false_2 _ Hin), lookup_empty.
      rewrite elem_of_get_all_categories in Hin. fold (enabled_in c) in Hin.
      split; [done|]. intros [-> Hpos]. done.
  - unfold count_all_problems. rewrite foldl_insert_sum.
    + rewrite map_to_list_empty. simpl.
      rewrite (sum_list_with_ext _ _ _
                 (λ c, get_all_problems_length w (Some c) false)).
      rewrite (sum_list_with_ext _ _ _
                 (λ c, filter_category_length c (problems w))).
      unfold get_all_categories. rewrite sum_classes.
      * by rewrite length_map.
      * apply NoDup_remove_dups.
      * intros k Hk. by apply elem_of_remove_dups.
    + apply NoDup_remove_dups.
    + intros c _. apply lookup_empty.
Qed.

(** ** Loading a publication *)








